(** * b2-event-broker: subscription registry and delivery engine

    A shallow embedding of [src/index.js]: the [EventSubscriptions] durable
    object (the subscription registry), [fetchWithRetry] and
    [handleEventNotifications] (the delivery engine), followed by the
    properties of the design document that are checked against them.

    Conventions of the embedding.
    - A string is the sequence of bytes of its UTF-8 encoding.
    - A plain JavaScript object used as a dictionary is a [gmap] from its own
      property names to values, and [Object.hasOwn] is a lookup.  The map
      does not record the order in which the properties were created, which
      is the order of [Object.entries]: the engine takes it from
      [Engine.createdAt], and its properties hold for every such order.  The
      validation loop of [setSubscriptions] runs in the map's order, which
      decides only which of several invalid entries is reported.  A read
      [obj[name]] that no [Object.hasOwn] guards also finds what every
      object inherits from [Object.prototype]: see [readProperty].  What such
      a read then leaves on the built-in objects themselves is not tracked.
    - An [async] method is a state transformer that either returns a value or
      throws: [Async S A].  The state of a registry method is the durable
      object's storage.
    - The engine leaves a trace of its requests, waits, calls through the
      stub and log lines.  The deliveries of one event overlap in time: each
      runs from one [await] to the next, and which of the waiting deliveries
      goes on next is taken from [Engine.nextUp]; the properties of the
      engine hold for every such schedule.  What other clients do to the
      registry meanwhile happens while a [fetch] is awaited (see
      [network]).
    - Diagnostic [console.log] lines of the registry methods are left out. *)

From Stdlib Require Import ZArith Ascii String List Lia Bool.
From stdpp Require Import base option list gmap strings fin_maps pretty.

Open Scope string_scope.
Open Scope Z_scope.

(** ** JavaScript values the program relies on *)

Module Js.

(** The error classes of the program: the built-in [Error] and [TypeError],
    the platform's [DataCloneError], and the two classes [index.js]
    declares. *)
Inductive ErrorClass : Type :=
| ErrorC
| TypeErrorC
| DataCloneErrorC
| NotFoundErrorC
| MethodNotAllowedErrorC.

(** An exception value.  [remote] is the flag the Workers runtime sets on an
    exception that crossed a durable-object stub. *)
Record JsError : Type := mkError {
  class : ErrorClass;
  message : string;
  remote : bool
}.

(** [new Error(message)] *)
Definition Error (msg : string) : JsError := mkError ErrorC msg false.

(** [new TypeError(message)], raised by the language or the platform *)
Definition TypeError (msg : string) : JsError := mkError TypeErrorC msg false.

(** What [storage.put] throws for a value that holds a function. *)
Definition DataCloneError : JsError :=
  mkError DataCloneErrorC "The object could not be cloned." false.

(** [class NotFoundError]: [super(`NotFoundError: ${message}`)] *)
Definition NotFoundError (msg : string) : JsError :=
  mkError NotFoundErrorC ("NotFoundError: " ++ msg) false.

(** [class MethodNotAllowedError] *)
Definition MethodNotAllowedError (msg : string) : JsError :=
  mkError MethodNotAllowedErrorC ("MethodNotAllowedError: " ++ msg) false.

(** [e instanceof NotFoundError] *)
Definition instanceofNotFoundError (e : JsError) : bool :=
  match class e with NotFoundErrorC => true | _ => false end.

(** The test both catch sites of [index.js] use:
    [e instanceof NotFoundError ||
     (e.remote && e.message.startsWith('NotFoundError'))]. *)
Definition isNotFound (e : JsError) : bool :=
  instanceofNotFoundError e || (remote e && String.prefix "NotFoundError" (message e)).

(** A JavaScript number as far as the program uses one: the result of
    [parseInt] is [NaN], or a double whose value is an integer, or an
    infinity, for which [Num z] with [2^1024 <= |z|] stands.  (A count that
    large is never reached by the loop counter, whose own rounding beyond
    [2^53] is not modelled.) *)
Inductive JsNum : Type :=
| NaN
| Num (z : Z).

(** [i < n] for an integer [i]: every comparison with [NaN] is false. *)
Definition lt (i : Z) (n : JsNum) : bool :=
  match n with
  | NaN => false
  | Num z => i <? z
  end.

(** The double nearest to a natural number, ties to even; what lies beyond
    the largest double becomes [2^1024]. *)
Definition roundToDouble (v : Z) : Z :=
  if v <? 2 ^ 53 then v
  else
    let e := Z.log2 v - 52 in
    let q := v / 2 ^ e in
    let r := v mod 2 ^ e in
    let half := 2 ^ (e - 1) in
    let q' := if (half <? r) || ((r =? half) && Z.odd q) then q + 1 else q in
    Z.min (q' * 2 ^ e) (2 ^ 1024).

Fixpoint stripZeros (fuel : nat) (v : Z) : Z :=
  match fuel with
  | O => v
  | S fuel' => if (0 <? v) && (v mod 10 =? 0) then stripZeros fuel' (v / 10) else v
  end.

Definition numDigits (v : Z) : Z := Z.of_nat (String.length (pretty v)).

(** The number of [k] significant digits that is read back as the double
    [x], if there is one: the nearer to [x] of two, the even one of two
    equally near (ECMA-262, Number::toString, step 5). *)
Definition shortestOf (x : Z) (k : Z) : option Z :=
  let unit := 10 ^ (numDigits x - k) in
  let below := (x / unit) * unit in
  let above := below + unit in
  let okBelow := roundToDouble below =? x in
  let okAbove := roundToDouble above =? x in
  if okBelow && okAbove then
    if x - below <? above - x then Some below
    else if above - x <? x - below then Some above
    else if Z.even (x / unit) then Some below else Some above
  else if okBelow then Some below
  else if okAbove then Some above
  else None.

Fixpoint shortestFrom (fuel : nat) (x : Z) (k : Z) : Z :=
  match fuel with
  | O => x
  | S fuel' =>
      match shortestOf x k with
      | Some v => v
      | None => shortestFrom fuel' x (k + 1)
      end
  end.

(** Number::toString of a double whose value is a natural number: the
    digits of the value below [2^53]; beyond, the shortest digits that are
    read back as the same double, followed by zeros, and in exponent form
    from [10^21] on. *)
Definition doubleToString (x : Z) : string :=
  if x <? 2 ^ 53 then pretty x
  else if 2 ^ 1024 <=? x then "Infinity"
  else
    let v := shortestFrom 17 x 1 in
    let n := numDigits v in
    if n <=? 21 then pretty v
    else
      match pretty (stripZeros 400 v) with
      | String d EmptyString => String d ("e+" ++ pretty (n - 1))
      | String d ds => String d ("." ++ ds ++ "e+" ++ pretty (n - 1))
      | EmptyString => ""
      end.

(** [`${n}`] *)
Definition numToString (n : JsNum) : string :=
  match n with
  | NaN => "NaN"
  | Num z => if z <? 0 then "-" ++ doubleToString (- z) else doubleToString z
  end.

(** The white space [parseInt] skips (ECMA-262, StrWhiteSpaceChar), by the
    bytes of its encoding.  One byte: TAB, LF, VT, FF, CR and the space. *)
Definition isWhiteSpace1 (c : ascii) : bool :=
  let n := nat_of_ascii c in
  ((9 <=? n) && (n <=? 13))%nat || (n =? 32)%nat.

(** Two bytes: U+00A0. *)
Definition isWhiteSpace2 (c1 c2 : ascii) : bool :=
  ((nat_of_ascii c1 =? 194) && (nat_of_ascii c2 =? 160))%nat.

(** Three bytes: U+1680, U+2000 to U+200A, U+2028, U+2029, U+202F, U+205F,
    U+3000 and U+FEFF. *)
Definition isWhiteSpace3 (c1 c2 c3 : ascii) : bool :=
  let n1 := nat_of_ascii c1 in
  let n2 := nat_of_ascii c2 in
  let n3 := nat_of_ascii c3 in
  (((n1 =? 225) && (n2 =? 154) && (n3 =? 128))
   || ((n1 =? 226) && (n2 =? 128)
       && (((128 <=? n3) && (n3 <=? 138)) || (n3 =? 168) || (n3 =? 169) || (n3 =? 175)))
   || ((n1 =? 226) && (n2 =? 129) && (n3 =? 159))
   || ((n1 =? 227) && (n2 =? 128) && (n3 =? 128))
   || ((n1 =? 239) && (n2 =? 187) && (n3 =? 191)))%nat.

Definition digitValue (c : ascii) : option Z :=
  let n := nat_of_ascii c in
  if ((48 <=? n) && (n <=? 57))%nat then Some (Z.of_nat n - 48) else None.

Fixpoint skipWhiteSpace (s : string) : string :=
  match s with
  | String c1 s1 =>
      if isWhiteSpace1 c1 then skipWhiteSpace s1
      else
        match s1 with
        | String c2 s2 =>
            if isWhiteSpace2 c1 c2 then skipWhiteSpace s2
            else
              match s2 with
              | String c3 s3 => if isWhiteSpace3 c1 c2 c3 then skipWhiteSpace s3 else s
              | EmptyString => s
              end
        | EmptyString => s
        end
  | EmptyString => s
  end.

(** The longest prefix of decimal digits, read left to right: [None] when
    no digit was consumed. *)
Fixpoint readDigits (acc : option Z) (s : string) : option Z :=
  match s with
  | String c s' =>
      match digitValue c with
      | Some d => readDigits (Some (10 * default 0 acc + d)) s'
      | None => acc
      end
  | EmptyString => acc
  end.

(** [parseInt(s, 10)] (ECMA-262 19.2.5): skip leading white space, take an
    optional sign, read the longest digit prefix; [NaN] if it is empty, and
    otherwise the double nearest to the number read.  (Past twenty digits
    the standard lets an implementation read the later digits as zeros; this
    is the correctly rounded result, as V8 gives it.) *)
Definition parseInt10 (s : string) : JsNum :=
  let s1 := skipWhiteSpace s in
  let '(sign, s2) :=
    match s1 with
    | String "-" r => (-1, r)
    | String "+" r => (1, r)
    | _ => (1, s1)
    end in
  match readDigits None s2 with
  | Some v => Num (sign * roundToDouble v)
  | None => NaN
  end.

(** [[0-9A-F]] under the [i] flag *)
Definition isHex (c : ascii) : bool :=
  let n := nat_of_ascii c in
  (((48 <=? n) && (n <=? 57)) || ((65 <=? n) && (n <=? 70)) || ((97 <=? n) && (n <=? 102)))%nat.

(** [[89AB]] under the [i] flag *)
Definition isVariant (c : ascii) : bool :=
  match c with
  | "8" | "9" | "A" | "B" | "a" | "b" => true
  | _ => false
  end%char.

Definition isChar (d c : ascii) : bool := Ascii.eqb d c.

(** An anchored regular expression that is a sequence of character
    classes: [^c1c2...cn$] matches exactly the strings of length [n] whose
    k-th character is in the k-th class. *)
Fixpoint matchClasses (p : list (ascii -> bool)) (s : string) : bool :=
  match p, s with
  | [], EmptyString => true
  | cl :: p', String c s' => cl c && matchClasses p' s'
  | _, _ => false
  end.

(** The names every plain object inherits from [Object.prototype]. *)
Definition inheritedNames : list string :=
  [ "constructor"; "__proto__"; "hasOwnProperty"; "isPrototypeOf";
    "propertyIsEnumerable"; "toLocaleString"; "toString"; "valueOf";
    "__defineGetter__"; "__defineSetter__"; "__lookupGetter__";
    "__lookupSetter__" ].

Definition inheritedName (k : string) : bool :=
  existsb (String.eqb k) inheritedNames.

(** [!x] for an optional string argument: [undefined] and [''] are falsy. *)
Definition falsy (x : option string) : bool :=
  match x with
  | None => true
  | Some s => String.eqb s ""
  end.

(** [`${x}`] for an optional string argument *)
Definition str (x : option string) : string := default "undefined" x.

End Js.

Export Js.

(** ** Asynchronous methods: state passing with exceptions *)

Inductive Outcome (A : Type) : Type :=
| Returned (a : A)
| Thrown (e : JsError).

Arguments Returned {A} a.
Arguments Thrown {A} e.

Definition Async (S A : Type) : Type := S -> Outcome A * S.

Definition ret {S A} (a : A) : Async S A := fun s => (Returned a, s).

Definition throw {S A} (e : JsError) : Async S A := fun s => (Thrown e, s).

Definition bind {S A B} (m : Async S A) (k : A -> Async S B) : Async S B :=
  fun s =>
    match m s with
    | (Returned a, s') => k a s'
    | (Thrown e, s') => (Thrown e, s')
    end.

Notation "'await' x ':=' m 'in' k" := (bind m (fun x => k))
  (at level 10, x name, m at level 100, k at level 200).
Notation "'run' m 'in' k" := (bind m (fun _ => k))
  (at level 10, m at level 100, k at level 200).

(** [for (const x of l) { body(x) }] *)
Fixpoint forEach {S A} (l : list A) (body : A -> Async S unit) : Async S unit :=
  match l with
  | [] => ret tt
  | x :: l' => run body x in forEach l' body
  end.

(** ** The subscription registry: [class EventSubscriptions] *)

(** A subscription object: own property name to (string) value.  The
    registry stores [{ url }]; [setSubscriptions] stores what it is given. *)
Abbreviation Subscription := (gmap string string).
(** A rule: subscription id to subscription. *)
Abbreviation Rule := (gmap string (gmap string string)).
(** A bucket record: rule name to rule. *)
Abbreviation BucketRecord := (gmap string (gmap string (gmap string string))).
(** [this.ctx.storage]: bucket name to bucket record. *)
Abbreviation Storage := (gmap string (gmap string (gmap string (gmap string string)))).

Module EventSubscriptions.

(** *** [ctx.storage] *)

Definition storage_get (key : string) : Async Storage (option BucketRecord) :=
  fun st => (Returned (st !! key), st).

Definition storage_put (key : string) (value : BucketRecord) : Async Storage unit :=
  fun st => (Returned tt, <[key := value]> st).

Definition storage_delete (key : string) : Async Storage unit :=
  fun st => (Returned tt, delete key st).

Definition storage_list : Async Storage Storage :=
  fun st => (Returned st, st).

(** *** Validation helpers *)

(** [/^[0-9A-F]{8}-[0-9A-F]{4}-4[0-9A-F]{3}-[89AB][0-9A-F]{3}-[0-9A-F]{12}$/i] *)
Definition uuidRegExp : list (ascii -> bool) :=
  repeat isHex 8 ++ [isChar "-"%char] ++
  repeat isHex 4 ++ [isChar "-"%char] ++
  [isChar "4"%char] ++ repeat isHex 3 ++ [isChar "-"%char] ++
  [isVariant] ++ repeat isHex 3 ++ [isChar "-"%char] ++
  repeat isHex 12.

Definition uuidRegExp_test (id : string) : bool := matchClasses uuidRegExp id.

Definition checkUUID {S} (id : string) : Async S unit :=
  if negb (uuidRegExp_test id)
  then throw (Error ("Bad UUID: " ++ id))
  else ret tt.

Definition checkProperty {S} (obj : gmap string string) (objType property id : string)
  : Async S unit :=
  if negb (bool_decide (is_Some (obj !! property)))
  then throw (Error ("Missing " ++ property ++ " property in " ++ objType
                      ++ " object for " ++ id))
  else ret tt.

(** [!subscription.url]: the property is missing or the empty string. *)
Definition noUrl (subscription : gmap string string) : bool :=
  falsy (subscription !! "url").

(** What the four forms of [getSubscriptions] return. *)
Inductive GetResult : Type :=
| AllBuckets (buckets : Storage)
| RulesOf (rules : BucketRecord)
| SubscriptionsOf (subscriptions : Rule)
| TheSubscription (subscription : Subscription).

(** What the unguarded read [rules[ruleName]] finds: an own property, a
    built-in that every object inherits from [Object.prototype] (truthy, so
    [|| {}] keeps it), or [undefined].  The methods that test
    [Object.hasOwn(rules, ruleName)] first only ever see the first and the
    last. *)
Inductive Slot : Type :=
| Own (subscriptions : Rule)
| Builtin
| Undefined.

Definition readProperty (rules : BucketRecord) (name : string) : Slot :=
  match rules !! name with
  | Some subscriptions => Own subscriptions
  | None => if inheritedName name then Builtin else Undefined
  end.

(** [slot || fallback] for a slot that is no built-in. *)
Definition ownOr (fallback : Rule) (slot : Slot) : Rule :=
  match slot with
  | Own subscriptions => subscriptions
  | _ => fallback
  end.

Section Methods.

(** [URL.canParse], provided by the platform. *)
Variable canParse : string -> bool.

(** [createSubscription(bucketName, ruleName, subscription)].  [id] is
    the value [uuidv4()] returns in this call; the method returns
    [{ "id": id }]. *)
Definition createSubscription (id : string)
    (bucketName ruleName : string) (subscription : gmap string string)
  : Async Storage string :=
  if noUrl subscription then throw (Error "No url in payload.")
  else if negb (canParse (str (subscription !! "url")))
  then throw (Error "url in payload is not valid.")
  else
    await stored := storage_get bucketName in
    let rules : BucketRecord := default ∅ stored in
    match readProperty rules ruleName with
    | Builtin =>
        (* [subscriptions] is a built-in of [Object.prototype]: the new entry
           lands on it.  [rules.__proto__ = subscriptions] sets the prototype
           it already has, so [rules] is stored as it was; for the other
           names [rules] now holds a function, which [storage.put] cannot
           serialize. *)
        if String.eqb ruleName "__proto__"
        then run storage_put bucketName rules in ret id
        else throw DataCloneError
    | slot =>
        let subscriptions : Rule := ownOr ∅ slot in
        let subscriptions :=
          <[id := {[ "url" := str (subscription !! "url") ]}]> subscriptions in
        let rules := <[ruleName := subscriptions]> rules in
        run storage_put bucketName rules in
        ret id
    end.

End Methods.

(** [getSubscriptions(bucketName, ruleName, id)] *)
Definition getSubscriptions (bucketName ruleName id : option string)
  : Async Storage GetResult :=
  if falsy bucketName then
    await all := storage_list in
    ret (AllBuckets all)
  else
    await stored := storage_get (str bucketName) in
    match stored with
    | None => throw (NotFoundError ("No rules found for " ++ str bucketName))
    | Some rules =>
        if falsy ruleName then ret (RulesOf rules)
        else
          match rules !! str ruleName with
          | None => throw (NotFoundError ("Rule " ++ str ruleName ++ " not found for "
                                           ++ str bucketName))
          | Some subscriptions =>
              if falsy id then ret (SubscriptionsOf subscriptions)
              else
                match subscriptions !! str id with
                | None => throw (NotFoundError ("ID " ++ str id ++ " not found for "
                                                 ++ str bucketName ++ "/" ++ str ruleName))
                | Some subscription => ret (TheSubscription subscription)
                end
          end
    end.

(** The body of the validation loop of [setSubscriptions], for one
    [[id, subscription]] entry. *)
Definition checkEntry {S} (entry : string * Subscription) : Async S unit :=
  let '(id, subscription) := entry in
  run checkUUID id in
  checkProperty subscription "subscription" "url" id.

(** [setSubscriptions(bucketName, ruleName, subscriptions)].  When the
    bucket has no record [rules] is [undefined] and the assignment
    [rules[ruleName] = subscriptions] raises a [TypeError]. *)
Definition setSubscriptions (bucketName ruleName : string) (subscriptions : Rule)
  : Async Storage unit :=
  run forEach (map_to_list subscriptions) checkEntry in
  await stored := storage_get bucketName in
  match stored with
  | None => throw (TypeError ("Cannot set properties of undefined (setting '"
                               ++ ruleName ++ "')"))
  | Some rules =>
      (* [rules.__proto__ = subscriptions] sets the prototype and adds no
         property *)
      let rules :=
        if String.eqb ruleName "__proto__" then rules
        else <[ruleName := subscriptions]> rules in
      storage_put bucketName rules
  end.

(** [deleteSubscription(bucketName, ruleName, id)] *)
Definition deleteSubscription (bucketName ruleName id : string)
  : Async Storage Subscription :=
  await stored := storage_get bucketName in
  match stored with
  | None => throw (NotFoundError ("No subscriptions for " ++ ruleName))
  | Some rules =>
      match rules !! ruleName with
      | Some subscriptions =>
          match subscriptions !! id with
          | Some deleted =>
              let subscriptions := delete id subscriptions in
              (* rules[ruleName] is the object just mutated *)
              let rules := <[ruleName := subscriptions]> rules in
              let rules :=
                if (size subscriptions =? 0)%nat
                then delete ruleName rules else rules in
              run (if (0 <? size rules)%nat
                   then storage_put bucketName rules
                   else storage_delete bucketName) in
              ret deleted
          | None => throw (NotFoundError ("ID " ++ id ++ " not found for "
                                           ++ bucketName ++ "/" ++ ruleName))
          end
      | None => throw (NotFoundError ("Rule " ++ ruleName ++ " not found for "
                                       ++ bucketName))
      end
  end.

End EventSubscriptions.

(** ** The delivery engine: [fetchWithRetry] and [handleEventNotifications] *)

Module Engine.

Import EventSubscriptions.

(** An event notification: the two fields the engine reads, and the rest. *)
Record Event : Type := mkEvent {
  bucketName : string;
  matchedRuleName : string;
  payload : string
}.

(** The [options] of a [fetch]: [body] stands for
    [JSON.stringify({ "event": [event] })] and holds the wrapped events. *)
Record RequestInit : Type := mkInit {
  method : string;
  body : list Event
}.

(** The body of a response: [await response.text()] gives its text, or
    throws when the body cannot be read. *)
Inductive Body : Type :=
| Text (text : string)
| Unreadable (reason : JsError).

(** What one [await fetch(resource, options)] gives: a response, or the
    exception caught into [reason]. *)
Inductive FetchResult : Type :=
| Response (status : Z) (body : Body)
| Rejected (reason : JsError).

(** [response.ok]: the status is in the range 200-299. *)
Definition ok (status : Z) : bool := (200 <=? status) && (status <=? 299).

(** [delay = (delay === 0) ? 1000 : delay * 2] *)
Definition nextDelay (delay : Z) : Z := if delay =? 0 then 1000 else delay * 2.

(** [response?.ok] *)
Definition succeeded (r : FetchResult) : bool :=
  match r with
  | Response status _ => ok status
  | Rejected _ => false
  end.

Inductive LogLine : Type :=
| HandlingBatch (n : nat)
| ErrorGettingSubscriptions
| NoSubscribers (bucket rule : string)
| Posting (url : option string)
| PostSucceeded (resource : option string) (status : Z)
| PostFailedStatus (resource : option string) (status : Z) (text : string)
| PostFailed (resource : option string) (reason : JsError)
| Reason (reason : JsError)
| Removing (id : string) (url : option string) (rule : string)
| ErrorStack (e : JsError).

(** The observable steps of the engine, in the order they happen. *)
Inductive Effect : Type :=
| Log (line : LogLine)
| Fetch (resource : option string) (options : RequestInit)
| Sleep (ms : Z)
| CallGet (bucket rule : string)
| CallDelete (bucket rule id : string).

(** The engine runs against the state [R] behind the stub and leaves a
    trace. *)
Record World (R : Type) : Type := mkWorld {
  remote_state : R;
  trace : list Effect
}.
Arguments mkWorld {R} _ _.
Arguments remote_state {R} _.
Arguments trace {R} _.

(** The two methods [handleEventNotifications] calls on [stub]. *)
Record Stub (R : Type) : Type := mkStub {
  stub_getSubscriptions : option string -> option string -> option string -> Async R GetResult;
  stub_deleteSubscription : string -> string -> string -> Async R Subscription
}.
Arguments stub_getSubscriptions {R} _ _ _ _.
Arguments stub_deleteSubscription {R} _ _ _ _.

(** An exception of the durable object as the caller of the stub sees it:
    the message is kept, [remote] is set, and a class declared by the
    program is not (the reason [isNotFound] also looks at the message). *)
Definition acrossStub (e : JsError) : JsError :=
  mkError (match class e with TypeErrorC => TypeErrorC | _ => ErrorC end)
          (message e) true.

Definition viaStub {A} (m : Async Storage A) : Async Storage A :=
  fun st =>
    match m st with
    | (Returned a, st') => (Returned a, st')
    | (Thrown e, st') => (Thrown (acrossStub e), st')
    end.

(** The stub of the [EventSubscriptions] durable object. *)
Definition durableObjectStub : Stub Storage :=
  mkStub Storage
    (fun b r i => viaStub (getSubscriptions b r i))
    (fun b r i => viaStub (deleteSubscription b r i)).

(** An engine computation: as [Async], and [None] when it does not settle
    within the fuel given to its loops. *)
Definition Task (W A : Type) : Type := W -> option (Outcome A * W).

Definition tret {W A} (a : A) : Task W A := fun w => Some (Returned a, w).

Definition tthrow {W A} (e : JsError) : Task W A := fun w => Some (Thrown e, w).

Definition tbind {W A B} (m : Task W A) (k : A -> Task W B) : Task W B :=
  fun w =>
    match m w with
    | Some (Returned a, w') => k a w'
    | Some (Thrown e, w') => Some (Thrown e, w')
    | None => None
    end.

(** [try { m } catch (e) { ... }] with the result kept as a value; also a
    promise seen through [Promise.allSettled]. *)
Definition settled {W A} (m : Task W A) : Task W (Outcome A) :=
  fun w =>
    match m w with
    | Some (o, w') => Some (Returned o, w')
    | None => None
    end.

Declare Scope task_scope.
Notation "'await' x ':=' m 'in' k" := (tbind m (fun x => k))
  (at level 10, x name, m at level 100, k at level 200) : task_scope.
Notation "'run' m 'in' k" := (tbind m (fun _ => k))
  (at level 10, m at level 100, k at level 200) : task_scope.
Local Open Scope task_scope.

(** [env]: the variable the engine reads, when it is set. *)
Record Env : Type := mkEnv {
  MAX_FAILURE_COUNT : option string
}.

Definition DEFAULT_MAX_FAILURE_COUNT : JsNum := Num 5.

(** [Object.hasOwn(env, 'MAX_FAILURE_COUNT')
     ? parseInt(env.MAX_FAILURE_COUNT, 10) : DEFAULT_MAX_FAILURE_COUNT] *)
Definition maxFailureCountOf (env : Env) : JsNum :=
  match MAX_FAILURE_COUNT env with
  | Some v => parseInt10 v
  | None => DEFAULT_MAX_FAILURE_COUNT
  end.

(** What the store and the trace do not determine and the run time decides:
    the order in which an object lists its properties, and the order in
    which the deliveries that wait go on. *)
Record Timing (R : Type) : Type := mkTiming {
  (** [createdAt w k]: when property [k] of the object that the stub
      returned in world [w] was created; [Object.entries] lists the earlier
      one first. *)
  createdAt : World R -> string -> nat;
  (** [nextUp w]: which of the deliveries that wait in world [w] is the next
      whose awaited promise settles, counted among those that wait. *)
  nextUp : World R -> nat
}.
Arguments createdAt {R} _ _ _.
Arguments nextUp {R} _ _.

(** Insertion sort by rank, keeping the order of entries of equal rank. *)
Fixpoint insertBy {A} (rank : A -> nat) (x : A) (l : list A) : list A :=
  match l with
  | [] => [x]
  | y :: l' => if (rank x <=? rank y)%nat then x :: y :: l' else y :: insertBy rank x l'
  end.

Definition sortBy {A} (rank : A -> nat) (l : list A) : list A :=
  foldr (insertBy rank) [] l.

(** Where a delivery waits in [fetchWithRetry], with the values of [i] and
    [delay] there: at [await fetch(resource, options)], at
    [await response.text()] or at [await sleep(delay)]. *)
Inductive Pending : Type :=
| AwaitingResponse (i delay : Z)
| AwaitingText (i delay status : Z) (body : Body)
| AwaitingSleep (i delay : Z).

(** A delivery: the promise [fetchWithRetry] returned, settled or not. *)
Inductive Delivery : Type :=
| Settled (outcome : Outcome (Z * Body))
| Waiting (p : Pending).

(** The deliveries that wait, each with its position in the list. *)
Fixpoint waitingFrom (k : nat) (ds : list (string * option string * Delivery))
  : list (nat * option string * Pending) :=
  match ds with
  | [] => []
  | (_, url, Waiting p) :: rest => (k, url, p) :: waitingFrom (S k) rest
  | (_, _, Settled _) :: rest => waitingFrom (S k) rest
  end.

(** The outcomes of the deliveries that are settled. *)
Definition outcomesOf (ds : list (string * option string * Delivery))
  : list (string * option string * Outcome (Z * Body)) :=
  omap (fun '(id, url, d) =>
          match d with
          | Settled o => Some (id, url, o)
          | Waiting _ => None
          end) ds.

Section Engine.

Context {R : Type}.

(** The network and everything else that runs while the engine awaits a
    [fetch]: the result of the request, and the state behind the stub
    after the requests of other clients that were served meanwhile. *)
Variable network : string -> RequestInit -> World R -> FetchResult * R.

Variable timing : Timing R.

Variable stub : Stub R.

Definition emit (e : Effect) : Task (World R) unit :=
  fun w => Some (Returned tt, mkWorld (remote_state w) (trace w ++ [e])).

Definition log (line : LogLine) : Task (World R) unit := emit (Log line).

(** [await sleep(ms)] *)
Definition sleep (ms : Z) : Task (World R) unit := emit (Sleep ms).

(** A call through the stub. *)
Definition call {A} (m : Async R A) : Task (World R) A :=
  fun w =>
    let '(o, r) := m (remote_state w) in
    Some (o, mkWorld r (trace w)).

(** The call [fetch(resource, options)]: the request goes out, which the
    trace records. *)
Definition request (resource : option string) (options : RequestInit)
  : Task (World R) unit :=
  emit (Fetch resource options).

(** What awaiting the promise of that call gives.  A resource that is not
    a string ([undefined], an object) is rejected before the network is
    reached. *)
Definition response (resource : option string) (options : RequestInit)
  : Task (World R) FetchResult :=
  fun w =>
    match resource with
    | Some url =>
        let '(result, r) := network url options w in
        Some (Returned result, mkWorld r (trace w))
    | None => Some (Returned (Rejected (TypeError "Invalid URL")), w)
    end.

(** [try { response = await fetch(resource, options) } catch (e) { reason = e }] *)
Definition fetch (resource : option string) (options : RequestInit)
  : Task (World R) FetchResult :=
  run request resource options in
  response resource options.

(** The loop of [fetchWithRetry] from [i] on:
    [for (...; i < maxFailureCount; i++) { ... }], then the final
    [throw].  [fuel] bounds the number of iterations run.  The body of a
    failed response is read for the log line outside the [try]: when it
    cannot be read, the exception of [response.text()] leaves the loop. *)
Fixpoint retryLoop (fuel : nat) (resource : option string) (options : RequestInit)
    (maxFailureCount : JsNum) (i delay : Z) : Task (World R) (Z * Body) :=
  if Js.lt i maxFailureCount then
    match fuel with
    | O => fun _ => None
    | S fuel' =>
        await result := fetch resource options in
        match result with
        | Response status body =>
            if ok status then
              run log (PostSucceeded resource status) in
              tret (status, body)
            else
              match body with
              | Text text =>
                  run log (PostFailedStatus resource status text) in
                  run sleep delay in
                  retryLoop fuel' resource options maxFailureCount (i + 1)
                            (nextDelay delay)
              | Unreadable reason => tthrow reason
              end
        | Rejected reason =>
            run log (PostFailed resource reason) in
            run sleep delay in
            retryLoop fuel' resource options maxFailureCount (i + 1)
                      (nextDelay delay)
        end
    end
  else
    tthrow (Error (numToString maxFailureCount ++ " failures to "
                    ++ method options ++ " " ++ str resource)).

(** [fetchWithRetry(resource, options, maxFailureCount)], awaited on its
    own. *)
Definition fetchWithRetry (fuel : nat) (resource : option string)
    (options : RequestInit) (maxFailureCount : JsNum) : Task (World R) (Z * Body) :=
  retryLoop fuel resource options maxFailureCount 0 0.

(** *** [fetchWithRetry] as a promise among others

    A call of [fetchWithRetry] that is not awaited runs up to its first
    [await] and returns a promise; the rest runs, from [await] to [await],
    when what it waits for has settled. *)

(** From the head of the loop to the next [await]: the test
    [i < maxFailureCount], then the request, or the final [throw]. *)
Definition attempt (resource : option string) (options : RequestInit)
    (maxFailureCount : JsNum) (i delay : Z) : Task (World R) Delivery :=
  if Js.lt i maxFailureCount then
    run request resource options in
    tret (Waiting (AwaitingResponse i delay))
  else
    tret (Settled (Thrown (Error (numToString maxFailureCount ++ " failures to "
                                   ++ method options ++ " " ++ str resource)))).

(** From one [await] to the next. *)
Definition resume (resource : option string) (options : RequestInit)
    (maxFailureCount : JsNum) (p : Pending) : Task (World R) Delivery :=
  match p with
  | AwaitingResponse i delay =>
      await result := response resource options in
      match result with
      | Response status body =>
          if ok status then
            run log (PostSucceeded resource status) in
            tret (Settled (Returned (status, body)))
          else tret (Waiting (AwaitingText i delay status body))
      | Rejected reason =>
          run log (PostFailed resource reason) in
          run sleep delay in
          tret (Waiting (AwaitingSleep i delay))
      end
  | AwaitingText i delay status body =>
      match body with
      | Text text =>
          run log (PostFailedStatus resource status text) in
          run sleep delay in
          tret (Waiting (AwaitingSleep i delay))
      | Unreadable reason => tret (Settled (Thrown reason))
      end
  | AwaitingSleep i delay =>
      attempt resource options maxFailureCount (i + 1) (nextDelay delay)
  end.

(** The promise of [fetchWithRetry] awaited on its own: the delivery goes on
    from [await] to [await] until it is settled. *)
Fixpoint finish (fuel : nat) (resource : option string) (options : RequestInit)
    (maxFailureCount : JsNum) (d : Delivery) : Task (World R) (Z * Body) :=
  match d with
  | Settled (Returned v) => tret v
  | Settled (Thrown e) => tthrow e
  | Waiting p =>
      match fuel with
      | O => fun _ => None
      | S fuel' =>
          await d' := resume resource options maxFailureCount p in
          finish fuel' resource options maxFailureCount d'
      end
  end.

(** [Object.entries(subscriptions)] as the engine uses it: the key and
    [subscription.url] of each entry ([None] when that is not a string),
    in no particular order. *)
Definition properties (subscriptions : GetResult) : list (string * option string) :=
  match subscriptions with
  | SubscriptionsOf m => (fun '(id, s) => (id, s !! "url")) <$> map_to_list m
  | RulesOf m => (fun '(k, _) => (k, None)) <$> map_to_list m
  | AllBuckets m => (fun '(k, _) => (k, None)) <$> map_to_list m
  | TheSubscription m => (fun '(k, _) => (k, None)) <$> map_to_list m
  end.

(** The same in the order of the object that was returned in world [w]. *)
Definition entries (w : World R) (subscriptions : GetResult)
  : list (string * option string) :=
  sortBy (fun entry => createdAt timing w entry.1) (properties subscriptions).

(** The first inner loop: it logs and calls [fetchWithRetry] for one entry
    after the other, and each call runs up to its first [await]. *)
Fixpoint startAll (maxFailureCount : JsNum) (event : Event)
    (subs : list (string * option string))
  : Task (World R) (list (string * option string * Delivery)) :=
  match subs with
  | [] => tret []
  | (id, url) :: rest =>
      run log (Posting url) in
      await d := attempt url (mkInit "POST" [event]) maxFailureCount 0 0 in
      await ds := startAll maxFailureCount event rest in
      tret ((id, url, d) :: ds)
  end.

(** [await Promise.allSettled(promises)]: as long as a delivery waits, one
    of those that wait goes on to its next [await]; the outcomes come in
    the order of the promises.  [fuel] bounds the number of such steps. *)
Fixpoint settleAll (fuel : nat) (maxFailureCount : JsNum) (event : Event)
    (ds : list (string * option string * Delivery))
  : Task (World R) (list (string * option string * Outcome (Z * Body))) :=
  match waitingFrom 0 ds with
  | [] => tret (outcomesOf ds)
  | first :: others =>
      match fuel with
      | O => fun _ => None
      | S fuel' =>
          fun w =>
            let '(k, url, p) :=
              nth (nextUp timing w mod length (first :: others)) (first :: others) first in
            (await d := resume url (mkInit "POST" [event]) maxFailureCount p in
             settleAll fuel' maxFailureCount event
                       (alter (fun '(id, u, _) => (id, u, d)) k ds)) w
      end
  end.

(** The first inner loop and [Promise.allSettled]: one retried POST per
    entry.  With [fuel] for the iterations of one delivery, no delivery
    takes more than [3 * fuel] steps. *)
Definition fanOut (fuel : nat) (maxFailureCount : JsNum) (event : Event)
    (subs : list (string * option string))
  : Task (World R) (list (string * option string * Outcome (Z * Body))) :=
  await ds := startAll maxFailureCount event subs in
  settleAll (length subs * (3 * fuel)) maxFailureCount event ds.

(** The second inner loop: unsubscribe every rejected delivery. *)
Fixpoint prune (event : Event)
    (outcomes : list (string * option string * Outcome (Z * Body)))
  : Task (World R) unit :=
  match outcomes with
  | [] => tret tt
  | (id, url, outcome) :: rest =>
      run match outcome with
          | Thrown reason =>
              run log (Reason reason) in
              run log (Removing id url (matchedRuleName event)) in
              run emit (CallDelete (bucketName event) (matchedRuleName event) id) in
              run call (stub_deleteSubscription stub (bucketName event)
                                                (matchedRuleName event) id) in
              tret tt
          | Returned _ => tret tt
          end in
      prune event rest
  end.

(** What follows the lookup in the body of the outer loop. *)
Definition deliver (fuel : nat) (maxFailureCount : JsNum) (event : Event)
    (subs : list (string * option string)) : Task (World R) unit :=
  run (if (length subs =? 0)%nat
       then log (NoSubscribers (bucketName event) (matchedRuleName event))
       else tret tt) in
  await outcomes := fanOut fuel maxFailureCount event subs in
  prune event outcomes.

(** The body of the outer loop for one event; [false] is its [return]. *)
Definition handleEvent (fuel : nat) (maxFailureCount : JsNum) (event : Event)
  : Task (World R) bool :=
  run emit (CallGet (bucketName event) (matchedRuleName event)) in
  await found := settled (call (stub_getSubscriptions stub
                                  (Some (bucketName event))
                                  (Some (matchedRuleName event)) None)) in
  match found with
  | Returned subscriptions =>
      fun w =>
        (run deliver fuel maxFailureCount event (entries w subscriptions) in
         tret true) w
  | Thrown e =>
      if isNotFound e then
        run deliver fuel maxFailureCount event [] in
        tret true
      else
        run log ErrorGettingSubscriptions in
        tret false
  end.

(** [for (let event of events) { ... }] *)
Fixpoint handleEvents (fuel : nat) (maxFailureCount : JsNum) (events : list Event)
  : Task (World R) unit :=
  match events with
  | [] => tret tt
  | event :: rest =>
      await continue := handleEvent fuel maxFailureCount event in
      if continue : bool then handleEvents fuel maxFailureCount rest else tret tt
  end.

(** [handleEventNotifications(events, env, stub)] *)
Definition handleEventNotifications (fuel : nat) (events : list Event) (env : Env)
  : Task (World R) unit :=
  let maxFailureCount := maxFailureCountOf env in
  await result := settled (run log (HandlingBatch (length events)) in
                           handleEvents fuel maxFailureCount events) in
  match result with
  | Returned _ => tret tt
  | Thrown e => log (ErrorStack e)
  end.

End Engine.

End Engine.

(** ** Vocabulary of the statements *)

Import EventSubscriptions.

(** The Rule a (bucket, rule) pair names in the store, if any. *)
Definition lookupRule (st : Storage) (bucket rule : string) : option Rule :=
  st !! bucket ≫= (λ rules, rules !! rule).

(** The Subscription a (bucket, rule, id) triple names in the store, if any. *)
Definition lookupSubscription (st : Storage) (bucket rule id : string)
  : option Subscription :=
  lookupRule st bucket rule ≫= (λ subscriptions, subscriptions !! id).

(** The outcome is a thrown [NotFoundError]. *)
Definition failsNotFound {A} (o : Outcome A) : Prop :=
  ∃ msg, o = Thrown (NotFoundError msg).

(** The outcome is a thrown plain [Error]: what the design document calls a
    ValidationError (the program declares no class of that name and signals
    malformed input with [new Error(...)]). *)
Definition failsValidation {A} (o : Outcome A) : Prop :=
  ∃ msg, o = Thrown (Error msg).

(** An entry the validation loop of [setSubscriptions] lets through: the
    key is a UUID and the object has an own [url] property. *)
Definition validEntry (e : string * Subscription) : bool :=
  uuidRegExp_test e.1 && bool_decide (is_Some (e.2 !! "url")).

(** The two emptiness invariants of the data model: no bucket record is the
    empty map, and no rule in a bucket record is the empty map. *)
Definition noEmptyRecord (st : Storage) : Prop :=
  ∀ bucket rules, st !! bucket = Some rules → rules ≠ ∅.

Definition noEmptyRule (st : Storage) : Prop :=
  ∀ bucket rule subscriptions,
    lookupRule st bucket rule = Some subscriptions → subscriptions ≠ ∅.

(** The steps of a trace that are not log lines: requests, sleeps and calls
    through the stub. *)
Definition isLog (e : Engine.Effect) : bool :=
  match e with Engine.Log _ => true | _ => false end.

Definition steps (t : list Engine.Effect) : list Engine.Effect :=
  List.filter (λ e, negb (isLog e)) t.

Definition isFetch (e : Engine.Effect) : bool :=
  match e with Engine.Fetch _ _ => true | _ => false end.

(** The delay sequence of the design document, 0, 1000, 2000, 4000, ...:
    [backoff k] is the wait that follows failed attempt [k + 1]. *)
Definition backoff (k : nat) : Z :=
  match k with
  | O => 0
  | S j => 1000 * 2 ^ Z.of_nat j
  end.

(** One request per delay, each followed by its wait. *)
Fixpoint attemptSteps (resource : option string) (options : Engine.RequestInit)
    (delays : list Z) : list Engine.Effect :=
  match delays with
  | [] => []
  | d :: ds => Engine.Fetch resource options :: Engine.Sleep d
               :: attemptSteps resource options ds
  end.

(** The part of the trace [prune] adds for a list of settled deliveries when
    every [deleteSubscription] call returns. *)
Definition pruneSteps (event : Engine.Event)
    (outcomes : list (string * option string * Outcome (Z * Engine.Body)))
  : list Engine.Effect :=
  flat_map (λ '(id, url, outcome),
      match outcome with
      | Thrown reason =>
          [ Engine.Log (Engine.Reason reason);
            Engine.Log (Engine.Removing id url (Engine.matchedRuleName event));
            Engine.CallDelete (Engine.bucketName event) (Engine.matchedRuleName event) id ]
      | Returned _ => []
      end) outcomes.

(** The configured count admits no attempt: it is [NaN] or not positive. *)
Definition noAttempts (maxFailureCount : JsNum) : Prop :=
  match maxFailureCount with
  | NaN => True
  | Num z => z ≤ 0
  end.



(** Observations of a finished run of the engine. *)
Definition outcomeOf {A S} (finished : option (Outcome A * Engine.World S))
  : option (Outcome A) :=
  fst <$> finished.

Definition traceOf {A S} (finished : option (Outcome A * Engine.World S))
  : option (list Engine.Effect) :=
  (λ x, Engine.trace x.2) <$> finished.

Definition subscribedAfter {A} (finished : option (Outcome A * Engine.World Storage))
    (bucket rule id : string) : option bool :=
  (λ x, bool_decide (is_Some (lookupSubscription (Engine.remote_state x.2) bucket rule id)))
    <$> finished.

(** An attempt that failed in a way the loop of [fetchWithRetry] goes on
    from: the request was rejected, or it was answered with a status outside
    200-299 and a body that can be read. *)
Definition retriable (result : Engine.FetchResult) : bool :=
  match result with
  | Engine.Response status (Engine.Text _) => negb (Engine.ok status)
  | Engine.Response _ (Engine.Unreadable _) => false
  | Engine.Rejected _ => true
  end.

(** The calls through the stub among the steps of a trace. *)
Definition isStubCall (e : Engine.Effect) : bool :=
  match e with
  | Engine.CallGet _ _ | Engine.CallDelete _ _ _ => true
  | _ => false
  end.

(** The number of requests a configured count admits for one delivery. *)
Definition budget (maxFailureCount : JsNum) : nat :=
  match maxFailureCount with
  | NaN => 0
  | Num z => Z.to_nat z
  end.

(** The attempts a count leaves from iteration [i] on. *)
Definition remaining (maxFailureCount : JsNum) (i : Z) : nat :=
  match maxFailureCount with
  | NaN => 0
  | Num z => Z.to_nat (z - i)
  end.

(** A bound on the steps, from [await] to [await], that a delivery has
    left: three for each attempt. *)
Definition stepsLeft (maxFailureCount : JsNum) (d : Engine.Delivery) : nat :=
  match d with
  | Engine.Settled _ => 0
  | Engine.Waiting (Engine.AwaitingResponse i _) => 3 * remaining maxFailureCount (i + 1) + 3
  | Engine.Waiting (Engine.AwaitingText i _ _ _) => 3 * remaining maxFailureCount (i + 1) + 2
  | Engine.Waiting (Engine.AwaitingSleep i _) => 3 * remaining maxFailureCount (i + 1) + 1
  end.

Definition stepsLeftOf (maxFailureCount : JsNum)
    (ds : list (string * option string * Engine.Delivery)) : nat :=
  sum_list ((λ x, stepsLeft maxFailureCount x.2) <$> ds).

(** A delivery to a [url] that is fulfilled, or waits for the answer to its
    request. *)
Definition onTrack (x : string * option string * Engine.Delivery) : Prop :=
  is_Some x.1.2 ∧
  match x.2 with
  | Engine.Settled (Returned _) => True
  | Engine.Waiting (Engine.AwaitingResponse _ _) => True
  | _ => False
  end.

(** The number of deliveries that wait. *)
Definition waiting (ds : list (string * option string * Engine.Delivery)) : nat :=
  sum_list ((λ x, match x.2 with Engine.Waiting _ => 1%nat | _ => 0%nat end) <$> ds).

(** An engine computation settles from every world: it ends, returning or
    throwing, and what it leaves of the trace is the trace it found with
    steps added. *)
Definition settles {R A} (m : Engine.Task (Engine.World R) A) : Prop :=
  ∀ w, ∃ o w' t, m w = Some (o, w') ∧ Engine.trace w' = (Engine.trace w ++ t)%list.

(** It settles and never throws. *)
Definition fulfils {R A} (m : Engine.Task (Engine.World R) A) : Prop :=
  ∀ w, ∃ a w' t, m w = Some (Returned a, w') ∧ Engine.trace w' = (Engine.trace w ++ t)%list.

Definition isCallDelete (e : Engine.Effect) : bool :=
  match e with Engine.CallDelete _ _ _ => true | _ => false end.

(** Every stored subscription has a [url] property. *)
Definition allHaveUrl (st : Storage) : Prop :=
  ∀ bucket rule id subscription,
    lookupSubscription st bucket rule id = Some subscription →
    is_Some (subscription !! "url").

(** ** Sample data *)

Module Sample.

(** A stand-in for [URL.canParse] on the sample URLs. *)
Definition canParse (s : string) : bool :=
  String.prefix "https://" s || String.prefix "http://" s.

Definition idX : string := "2bdd4246-d838-4c0a-9a50-a7483534836e".
Definition idY : string := "ce986d9c-86f3-4fb4-99d6-366acbb133c9".
Definition idZ : string := "0f8fad5b-d9cb-469f-a165-70867728950e".

Definition hook (url : string) : Subscription := {[ "url" := url ]}.

(** [{ b1: { r1: { X: { url: "https://ex.com/hook" } } } }] *)
Definition oneSubscriber : Storage :=
  {[ "b1" := {[ "r1" := {[ idX := hook "https://ex.com/hook" ]} ]} ]}.

(** Two subscribers under b1/r1 and one under b2/r2. *)
Definition threeSubscribers : Storage :=
  {[ "b1" := {[ "r1" := {[ idX := hook "https://x.example/hook";
                            idY := hook "https://y.example/hook" ]} ]};
     "b2" := {[ "r2" := {[ idZ := hook "https://z.example/hook" ]} ]} ]}.

(** The subscriptions were created in the order [idX], [idY], [idZ], and
    of the deliveries that wait the first in line goes on. *)
Definition inTurn {R} : Engine.Timing R :=
  Engine.mkTiming R
    (fun _ id => if String.eqb id idX then 0 else if String.eqb id idY then 1 else 2)%nat
    (fun _ => 0%nat).

(** The same subscriptions, with the deliveries that wait going on in
    rotation. *)
Definition inRotation {R} : Engine.Timing R :=
  Engine.mkTiming R
    (fun _ id => if String.eqb id idX then 0 else if String.eqb id idY then 1 else 2)%nat
    (fun w => length (Engine.trace w)).

(** A network whose every answer is a 500, and during whose request to the
    [x] endpoint another client's DELETE of subscription [idX] is served. *)
Definition racingNetwork
  : string → Engine.RequestInit → Engine.World Storage → Engine.FetchResult * Storage :=
  fun url _ w =>
    (Engine.Response 500 (Engine.Text "down"),
     if String.eqb url "https://x.example/hook"
     then snd (deleteSubscription "b1" "r1" idX (Engine.remote_state w))
     else Engine.remote_state w).

(** A network whose every answer is a 500 and that leaves the store alone. *)
Definition downNetwork
  : string → Engine.RequestInit → Engine.World Storage → Engine.FetchResult * Storage :=
  fun _ _ w => (Engine.Response 500 (Engine.Text "down"), Engine.remote_state w).

Definition firstEvent : Engine.Event := Engine.mkEvent "b1" "r1" "first".
Definition secondEvent : Engine.Event := Engine.mkEvent "b2" "r2" "second".

(** The batch of two events handled with [MAX_FAILURE_COUNT = "1"] on the
    store with three subscribers, against [racingNetwork]. *)
Definition racingRun : option (Outcome unit * Engine.World Storage) :=
  Engine.handleEventNotifications racingNetwork inTurn Engine.durableObjectStub 1
    [firstEvent; secondEvent] (Engine.mkEnv (Some "1"))
    (Engine.mkWorld threeSubscribers []).

(** A registry seen through its stub at the wrong moment: the lookup still
    returns two subscribers, and every delete finds the id already removed
    by another client. *)
Definition goneStub : Engine.Stub unit :=
  Engine.mkStub unit
    (fun _ _ _ s =>
       (Returned (SubscriptionsOf {[ idX := hook "https://x.example/hook";
                                     idY := hook "https://y.example/hook" ]}), s))
    (fun b r id s =>
       (Thrown (Engine.acrossStub
                  (NotFoundError ("ID " ++ id ++ " not found for " ++ b ++ "/" ++ r))), s)).

(** A durable object that cannot be reached: every call through the stub
    fails with an error of the platform. *)
Definition overloadedStub : Engine.Stub unit :=
  Engine.mkStub unit
    (fun _ _ _ s => (Thrown (mkError ErrorC "Durable Object is overloaded." true), s))
    (fun _ _ _ s => (Thrown (mkError ErrorC "Durable Object is overloaded." true), s)).

(** A network whose every answer is a 500, for a stub without state. *)
Definition alwaysDown
  : string → Engine.RequestInit → Engine.World unit → Engine.FetchResult * unit :=
  fun _ _ _ => (Engine.Response 500 (Engine.Text "down"), tt).

(** A network whose every answer is a 500 with a body that breaks off:
    [response.text()] throws. *)
Definition tornNetwork
  : string → Engine.RequestInit → Engine.World unit → Engine.FetchResult * unit :=
  fun _ _ _ =>
    (Engine.Response 500 (Engine.Unreadable (Error "Network connection lost.")), tt).

End Sample.

(** ** The front door: signature check, router and [fetch] handler *)

Module Http.

Definition HTTP_STATUS_OK : Z := 200.
Definition HTTP_STATUS_BAD_REQUEST : Z := 400.
Definition HTTP_STATUS_UNAUTHORIZED : Z := 401.
Definition HTTP_STATUS_NOT_FOUND : Z := 404.
Definition HTTP_STATUS_METHOD_NOT_ALLOWED : Z := 405.
Definition HTTP_STATUS_INTERNAL_SERVER_ERROR : Z := 500.

Definition EVENT_NOTIFICATION_SIGNATURE_HEADER : string :=
  "x-bz-event-notification-signature".

(** [s.split(sep)] for a one-character separator, as the first piece and the
    pieces after it. *)
Fixpoint splitOn (sep : ascii) (s : string) : string * list string :=
  match s with
  | EmptyString => ("", [])
  | String c s' =>
      let '(piece, pieces) := splitOn sep s' in
      if Ascii.eqb c sep then ("", piece :: pieces) else (String c piece, pieces)
  end.

Definition split (sep : ascii) (s : string) : list string :=
  let '(piece, pieces) := splitOn sep s in piece :: pieces.

(** [pieces.join(sep)] *)
Fixpoint join (sep : ascii) (pieces : list string) : string :=
  match pieces with
  | [] => ""
  | [piece] => piece
  | piece :: rest => piece ++ String sep (join sep rest)
  end.

(** [e instanceof MethodNotAllowedError ||
     (e.remote && e.message.startsWith('MethodNotAllowedError'))] *)
Definition isMethodNotAllowed (e : JsError) : bool :=
  match class e with MethodNotAllowedErrorC => true | _ => false end
  || (remote e && String.prefix "MethodNotAllowedError" (message e)).

(** The line [verifySignature] logs. *)
Inductive SignatureLog : Type :=
| InvalidSignatureFormat (signature : string)
| InvalidSignatureVersion (version : string)
| InvalidSignature (received calculated : string)
| MissingSignatureHeader
| SignatureIsValid.

(** What [JSON.parse(bodyText)] gives, as far as the program looks at it:
    [null], another falsy value ([0], [false], the empty string), or a value
    with its string-valued properties and its [events] array, if it has
    one.  (A [url] property that holds something other than a string is
    outside this model.) *)
Inductive Json : Type :=
| JsonNull
| JsonFalsy
| JsonValue (fields : gmap string string) (events : option (list Engine.Event)).

(** A parsed [URL]. *)
Record Url : Type := mkUrl {
  href : string;
  host : string;
  pathname : string
}.

(** What [handleSubscriptionRequest] returns. *)
Inductive Reply : Type :=
| NullReply
| GetReply (result : GetResult)
| CreatedReply (id : string)
| DeletedReply (deleted : Subscription).

(** The three methods [handleSubscriptionRequest] calls on [stub]. *)
Record ControlStub (R : Type) : Type := mkControlStub {
  control_getSubscriptions :
    option string -> option string -> option string -> Async R GetResult;
  control_createSubscription : string -> string -> gmap string string -> Async R string;
  control_deleteSubscription : string -> string -> string -> Async R Subscription
}.
Arguments control_getSubscriptions {R} _ _ _ _.
Arguments control_createSubscription {R} _ _ _ _.
Arguments control_deleteSubscription {R} _ _ _ _.

Section Signature.

(** [createHmac('sha256', key).update(body).digest('hex')] of [node:crypto]. *)
Variable hmacSha256Hex : string -> string -> string.

(** [verifySignature(headers, body, signingSecret)]: the result and the line
    it logs.  [headers] maps each header name, in lower case, to its value. *)
Definition verifySignature (headers : gmap string string) (body signingSecret : string)
  : bool * SignatureLog :=
  match headers !! EVENT_NOTIFICATION_SIGNATURE_HEADER with
  | Some signature =>
      match split "=" signature with
      | [version; receivedSig] =>
          if negb (String.eqb version "v1")
          then (false, InvalidSignatureVersion version)
          else
            let calculatedSig := hmacSha256Hex signingSecret body in
            if negb (String.eqb receivedSig calculatedSig)
            then (false, InvalidSignature receivedSig calculatedSig)
            else (true, SignatureIsValid)
      | _ => (false, InvalidSignatureFormat signature)
      end
  | None => (false, MissingSignatureHeader)
  end.

End Signature.

(** [handleSubscriptionRequest(url, method, payload, stub)] *)
Definition handleSubscriptionRequest {R} (url : Url) (method : string) (payload : Json)
    (stub : ControlStub R) : Async R Reply :=
  let parts := split "/" (pathname url) in
  let resource := parts !! 1%nat in
  let bucketName := parts !! 2%nat in
  let ruleName := parts !! 3%nat in
  let id := parts !! 4%nat in
  if negb (bool_decide (resource = Some "@subscriptions"))
  then throw (NotFoundError ("Bad resource " ++ str resource))
  else if String.eqb method "GET" || String.eqb method "HEAD" then
    await result := control_getSubscriptions stub bucketName ruleName id in
    ret (if String.eqb method "GET" then GetReply result else NullReply)
  else if falsy bucketName || falsy ruleName
  then throw (MethodNotAllowedError (method ++ " not allowed for " ++ href url))
  else if String.eqb method "POST" then
    match payload with
    | JsonValue fields _ =>
        await id := control_createSubscription stub (str bucketName) (str ruleName) fields in
        ret (CreatedReply id)
    | _ => throw (Error "Missing payload in POST request")
    end
  else if String.eqb method "DELETE" then
    if falsy id
    then throw (MethodNotAllowedError (method ++ " not allowed for " ++ href url))
    else
      await deleted := control_deleteSubscription stub (str bucketName) (str ruleName)
                                                  (str id) in
      ret (DeletedReply deleted)
  else throw (MethodNotAllowedError (method ++ " not allowed for " ++ href url)).

(** A [Request], read: its URL, method, headers and body text. *)
Record Request : Type := mkRequest {
  requestUrl : Url;
  requestMethod : string;
  requestHeaders : gmap string string;
  requestText : string
}.

(** [env]: the secret, when it is set, and the variables of the engine. *)
Record WorkerEnv : Type := mkWorkerEnv {
  SIGNING_SECRET : option string;
  engineEnv : Engine.Env
}.

Inductive ResponseBody : Type :=
| NoBody
| JsonBody (reply : Reply)
| TextBody (message : string).

Record HttpResponse : Type := mkResponse {
  status : Z;
  responseBody : ResponseBody
}.

(** The status the handler answers a failed control request with. *)
Definition statusOfError (e : JsError) : Z :=
  if isNotFound e then HTTP_STATUS_NOT_FOUND
  else if isMethodNotAllowed e then HTTP_STATUS_NOT_FOUND
  else HTTP_STATUS_BAD_REQUEST.

(** [reply ? Response.json(reply) : new Response(null, {status: 200})]: the
    only falsy reply is the [null] of a HEAD request. *)
Definition responseOfReply (reply : Reply) : HttpResponse :=
  match reply with
  | NullReply => mkResponse HTTP_STATUS_OK NoBody
  | _ => mkResponse HTTP_STATUS_OK (JsonBody reply)
  end.

Section Worker.

Variable hmacSha256Hex : string -> string -> string.

(** [JSON.parse]: [None] when it throws. *)
Variable parseJson : string -> option Json.

Variable canParse : string -> bool.

Variable network
  : string -> Engine.RequestInit -> Engine.World Storage -> Engine.FetchResult * Storage.

Variable timing : Engine.Timing Storage.

(** The stub [env.EVENT_SUBSCRIPTIONS.get(object_id)] of the durable object
    named after the request's host; [id] is the value [uuidv4()] returns if
    the request creates a subscription. *)
Definition eventSubscriptionsStub (id : string) : ControlStub Storage :=
  mkControlStub Storage
    (fun b r i => Engine.viaStub (getSubscriptions b r i))
    (fun b r s => Engine.viaStub (createSubscription canParse id b r s))
    (fun b r i => Engine.viaStub (deleteSubscription b r i)).

(** A control request runs against the storage of the durable object. *)
Definition onStorage {A} (m : Async Storage A) : Async (Engine.World Storage) A :=
  fun w =>
    let '(o, st) := m (Engine.remote_state w) in
    (o, Engine.mkWorld st (Engine.trace w)).

(** [handleEventNotifications(payload.events, env, stub)] for a payload that
    is not [null]: without an [events] array [events.length] throws inside
    the [try], and the [catch] logs it. *)
Definition notify (fuel : nat) (events : option (list Engine.Event)) (env : WorkerEnv)
  : Engine.Task (Engine.World Storage) unit :=
  match events with
  | Some events =>
      Engine.handleEventNotifications network timing Engine.durableObjectStub fuel events
                                      (engineEnv env)
  | None =>
      Engine.log (Engine.ErrorStack
        (TypeError "Cannot read properties of undefined (reading 'length')"))
  end.

(** The [fetch] handler of the Worker: the response, and the promise handed
    to [ctx.waitUntil], if any, which runs on after the response is
    returned.  The world is that of the durable object addressed by the
    request's host.  [fuel] is the fuel of the engine's loops. *)
Definition fetch (fuel : nat) (id : string) (request : Request) (env : WorkerEnv)
  : Async (Engine.World Storage)
          (HttpResponse * option (Engine.Task (Engine.World Storage) unit)) :=
  match SIGNING_SECRET env with
  | None => ret (mkResponse HTTP_STATUS_INTERNAL_SERVER_ERROR NoBody, None)
  | Some secret =>
      let bodyText := requestText request in
      if negb (verifySignature hmacSha256Hex (requestHeaders request) bodyText secret).1
      then ret (mkResponse HTTP_STATUS_UNAUTHORIZED NoBody, None)
      else
        let parsed :=
          if String.eqb (requestMethod request) "POST" && (0 <? String.length bodyText)%nat
          then parseJson bodyText
          else Some JsonNull in
        match parsed with
        | None => ret (mkResponse HTTP_STATUS_BAD_REQUEST NoBody, None)
        | Some payload =>
            let url := requestUrl request in
            if String.prefix "/@" (pathname url) then
              fun w =>
                match onStorage (handleSubscriptionRequest url (requestMethod request)
                                   payload (eventSubscriptionsStub id)) w with
                | (Returned reply, w') => (Returned (responseOfReply reply, None), w')
                | (Thrown e, w') =>
                    (Returned (mkResponse (statusOfError e) (TextBody (message e)), None), w')
                end
            else if String.eqb (requestMethod request) "POST" then
              match payload with
              | JsonNull =>
                  throw (TypeError "Cannot read properties of null (reading 'events')")
              | JsonFalsy =>
                  ret (mkResponse HTTP_STATUS_OK NoBody, Some (notify fuel None env))
              | JsonValue _ events =>
                  ret (mkResponse HTTP_STATUS_OK NoBody, Some (notify fuel events env))
              end
            else ret (mkResponse HTTP_STATUS_METHOD_NOT_ALLOWED NoBody, None)
        end
  end.

End Worker.

End Http.

(** ** More vocabulary *)

(** The string has no occurrence of the character. *)
Fixpoint without (c : ascii) (s : string) : bool :=
  match s with
  | EmptyString => true
  | String d s' => negb (Ascii.eqb d c) && without c s'
  end.

(** The path of a control request: [/@subscriptions] followed by the given
    segments. *)
Definition controlPath (segments : list string) : string :=
  Http.join "/" ("" :: "@subscriptions" :: segments).

(** A request to the broker that carries the signature of its body under
    [secret]. *)
Definition signedRequest (hmac : string → string → string) (secret : string)
    (method path body : string) : Http.Request :=
  Http.mkRequest (Http.mkUrl ("https://broker.example" ++ path) "broker.example" path)
                 method
                 {[ Http.EVENT_NOTIFICATION_SIGNATURE_HEADER := "v1=" ++ hmac secret body ]}
                 body.

(** Sample data of the front door. *)
Module SampleHttp.

(** A stand-in for the HMAC of [node:crypto]. *)
Definition hmac (key body : string) : string := "2c8f31".

(** The quotation mark. *)
Definition quote : string := String "034" "".

Definition quoted (s : string) : string := quote ++ s ++ quote.

(** [{"url":"https://ex.com/hook"}] *)
Definition createBody : string :=
  "{" ++ quoted "url" ++ ":" ++ quoted "https://ex.com/hook" ++ "}".

(** [{"events":[{"bucketName":"b1","matchedRuleName":"r1","eventId":"first"}]}] *)
Definition notificationBody : string :=
  "{" ++ quoted "events" ++ ":[{" ++ quoted "bucketName" ++ ":" ++ quoted "b1" ++ ","
      ++ quoted "matchedRuleName" ++ ":" ++ quoted "r1" ++ ","
      ++ quoted "eventId" ++ ":" ++ quoted "first" ++ "}]}".

(** A stand-in for [JSON.parse] that knows the sample bodies: it gives what
    [JSON.parse] gives for the two bodies above and for [null], and throws
    for every other text. *)
Definition parseJson (body : string) : option Http.Json :=
  if String.eqb body createBody
  then Some (Http.JsonValue (Sample.hook "https://ex.com/hook") None)
  else if String.eqb body notificationBody
  then Some (Http.JsonValue ∅ (Some [Sample.firstEvent]))
  else if String.eqb body "null" then Some Http.JsonNull
  else None.

Definition env : Http.WorkerEnv := Http.mkWorkerEnv (Some "s3cret") (Engine.mkEnv None).

(** A request signed with the secret of [env]. *)
Definition request (method path body : string) : Http.Request :=
  signedRequest hmac "s3cret" method path body.

(** A network whose every answer is a 200 and that leaves the store alone. *)
Definition healthyNetwork
  : string → Engine.RequestInit → Engine.World Storage → Engine.FetchResult * Storage :=
  fun _ _ w => (Engine.Response 200 (Engine.Text "ok"), Engine.remote_state w).

(** The Worker with the sample platform functions, for a [uuidv4()] that
    returns [Sample.idX]. *)
Definition serve (request : Http.Request) (w : Engine.World Storage)
  : Outcome (Http.HttpResponse * option (Engine.Task (Engine.World Storage) unit))
    * Engine.World Storage :=
  Http.fetch hmac parseJson Sample.canParse Sample.downNetwork Sample.inTurn 5 Sample.idX
             request env w.

End SampleHttp.

(** * Properties of the registry *)

Section RegistryFacts.

Implicit Types (st : Storage) (b r i id : string).

Lemma falsy_Some (s : string) : s ≠ "" → falsy (Some s) = false.
Proof. intros H. simpl. by apply String.eqb_neq. Qed.

Lemma uuid_nonempty id : uuidRegExp_test id = true → id ≠ "".
Proof. intros H ->. discriminate H. Qed.

Lemma size_zero_iff {V} (m : gmap string V) : (size m =? 0)%nat = true ↔ m = ∅.
Proof. rewrite Nat.eqb_eq. apply map_size_empty_iff. Qed.

Lemma size_pos_iff {V} (m : gmap string V) : (0 <? size m)%nat = true ↔ m ≠ ∅.
Proof. rewrite Nat.ltb_lt, <- map_size_empty_iff. lia. Qed.

(** *** [createSubscription] *)

Lemma createSubscription_accepted canParse st id b r
    (subscription : Subscription) (url : string) :
  inheritedName r = false →
  subscription !! "url" = Some url → url ≠ "" → canParse url = true →
  createSubscription canParse id b r subscription st =
    (Returned id,
     <[b := <[r := <[id := {[ "url" := url ]}]> (default ∅ (default ∅ (st !! b) !! r))]>
              (default ∅ (st !! b))]> st).
Proof.
  intros Hr Hu Hne Hcp.
  unfold createSubscription, noUrl, bind, storage_get, storage_put, ret, readProperty.
  rewrite Hu, (falsy_Some url Hne), Hr. simpl. rewrite Hcp. simpl.
  by destruct (default ∅ (st !! b) !! r).
Qed.

(** *** [deleteSubscription] *)

(** What a successful [deleteSubscription] writes back. *)
Lemma deleteSubscription_found st b r i
    (rules : BucketRecord) (subs : Rule) (s : Subscription) :
  st !! b = Some rules → rules !! r = Some subs → subs !! i = Some s →
  deleteSubscription b r i st =
    (Returned s,
     let rules' := if decide (delete i subs = ∅) then delete r rules
                   else <[r := delete i subs]> rules in
     if decide (rules' = ∅) then delete b st else <[b := rules']> st).
Proof.
  intros Hb Hr Hi.
  unfold deleteSubscription, bind, storage_get, storage_put, storage_delete, ret.
  rewrite Hb, Hr, Hi. cbv zeta.
  destruct (decide (delete i subs = ∅)) as [E|E].
  - rewrite (proj2 (size_zero_iff _) E), delete_insert_eq.
    destruct (decide (delete r rules = ∅)) as [E'|E'].
    + destruct (0 <? size (delete r rules))%nat eqn:P; [|done].
      by apply size_pos_iff in P.
    + by rewrite (proj2 (size_pos_iff _) E').
  - destruct (size (delete i subs) =? 0)%nat eqn:Z.
    { by apply size_zero_iff in Z. }
    destruct (decide (<[r:=delete i subs]> rules = ∅)) as [E'|E'].
    { by apply insert_non_empty in E'. }
    by rewrite (proj2 (size_pos_iff _) E').
Qed.

Lemma deleteSubscription_absent st b r i :
  lookupSubscription st b r i = None →
  failsNotFound (fst (deleteSubscription b r i st))
  ∧ snd (deleteSubscription b r i st) = st.
Proof.
  unfold lookupSubscription, lookupRule, deleteSubscription, bind, storage_get, throw,
    failsNotFound.
  destruct (st !! b) as [rules|]; simpl; [|eauto].
  destruct (rules !! r) as [subs|]; simpl; [|eauto].
  destruct (subs !! i); simpl; [done|eauto].
Qed.

(** *** [setSubscriptions] *)

Lemma checkEntry_valid e st : validEntry e = true → checkEntry e st = (Returned tt, st).
Proof.
  destruct e as [id sub]. unfold validEntry, checkEntry, checkUUID, checkProperty, bind.
  simpl. intros [H1 H2]%andb_prop. by rewrite H1, H2.
Qed.

Lemma checkEntry_invalid e st :
  validEntry e = false → ∃ msg, checkEntry e st = (Thrown (Error msg), st).
Proof.
  destruct e as [id sub]. unfold validEntry, checkEntry, checkUUID, checkProperty, bind.
  simpl. destruct (uuidRegExp_test id); simpl; [|by eauto].
  intros ->. simpl. by eauto.
Qed.

Lemma forEach_checks_all_valid (l : list (string * Subscription)) st :
  forallb validEntry l = true → forEach l checkEntry st = (Returned tt, st).
Proof.
  induction l as [|e l IH]; simpl; [done|].
  intros [H1 H2]%andb_prop. unfold bind. rewrite (checkEntry_valid e st H1). by apply IH.
Qed.

Lemma forEach_checks_some_invalid (l : list (string * Subscription)) st :
  forallb validEntry l = false → ∃ msg, forEach l checkEntry st = (Thrown (Error msg), st).
Proof.
  induction l as [|e l IH]; simpl; [done|].
  unfold bind. destruct (validEntry e) eqn:V; simpl.
  - intros H. rewrite (checkEntry_valid e st V). by apply IH.
  - intros _. destruct (checkEntry_invalid e st V) as [msg ->]. by eauto.
Qed.

(** After the validation loop: the write, or the [TypeError] of assigning
    into [undefined]. *)
Lemma setSubscriptions_valid st b r (subscriptions : Rule) :
  (∀ id subscription, subscriptions !! id = Some subscription →
     uuidRegExp_test id = true ∧ is_Some (subscription !! "url")) →
  setSubscriptions b r subscriptions st =
    match st !! b with
    | Some rules =>
        (Returned tt,
         <[b := if String.eqb r "__proto__" then rules else <[r := subscriptions]> rules]> st)
    | None => (Thrown (TypeError ("Cannot set properties of undefined (setting '"
                                   ++ r ++ "')")), st)
    end.
Proof.
  intros Hall.
  assert (forallb validEntry (map_to_list subscriptions) = true) as H.
  { apply forallb_forall. intros [id sub] Hin.
    apply list_elem_of_In, elem_of_map_to_list in Hin.
    destruct (Hall id sub Hin) as [H1 H2]. unfold validEntry. simpl.
    rewrite H1. simpl. by apply bool_decide_eq_true. }
  unfold setSubscriptions, bind.
  rewrite (forEach_checks_all_valid _ st H). unfold storage_get, storage_put, throw.
  by destruct (st !! b).
Qed.

End RegistryFacts.

(** ** Get *)

(** C9.  [getSubscriptions] never changes the store, and has four forms: with
    no bucket it returns the whole mapping of bucket names to bucket records;
    with a bucket only it returns the bucket's rule map, or fails with
    [NotFoundError] when the bucket has no record; with a bucket and a rule it
    returns the rule's subscription map, or fails with [NotFoundError] when
    the rule (or the bucket) is absent; with a bucket, a rule and an id it
    returns the subscription, or fails with [NotFoundError] when the id (or
    what leads to it) is absent.  An argument is given when it is a non-empty
    string; the arguments after the first one not given are ignored. *)
Theorem getSubscriptions_four_forms (st : Storage) (b r i : string) :
  b ≠ "" → r ≠ "" → i ≠ "" →
  (∀ x y z, snd (getSubscriptions x y z st) = st) ∧
  (∀ x y z, falsy x = true →
     fst (getSubscriptions x y z st) = Returned (AllBuckets st)) ∧
  (∀ y z, falsy y = true →
     match st !! b with
     | Some rules => fst (getSubscriptions (Some b) y z st) = Returned (RulesOf rules)
     | None => failsNotFound (fst (getSubscriptions (Some b) y z st))
     end) ∧
  (∀ z, falsy z = true →
     match st !! b with
     | Some rules =>
         match rules !! r with
         | Some subscriptions =>
             fst (getSubscriptions (Some b) (Some r) z st)
             = Returned (SubscriptionsOf subscriptions)
         | None => failsNotFound (fst (getSubscriptions (Some b) (Some r) z st))
         end
     | None => failsNotFound (fst (getSubscriptions (Some b) (Some r) z st))
     end) ∧
  match lookupRule st b r with
  | Some subscriptions =>
      match subscriptions !! i with
      | Some subscription =>
          fst (getSubscriptions (Some b) (Some r) (Some i) st)
          = Returned (TheSubscription subscription)
      | None => failsNotFound (fst (getSubscriptions (Some b) (Some r) (Some i) st))
      end
  | None => failsNotFound (fst (getSubscriptions (Some b) (Some r) (Some i) st))
  end.
Proof.
  intros Hb Hr Hi.
  pose proof (falsy_Some b Hb) as Fb.
  pose proof (falsy_Some r Hr) as Fr.
  pose proof (falsy_Some i Hi) as Fi.
  split; [|split; [|split; [|split]]].
  - intros x y z. unfold getSubscriptions, bind, storage_list, storage_get, ret, throw.
    destruct (falsy x); [done|].
    destruct (st !! str x) as [rules|]; [|done].
    destruct (falsy y); [done|].
    destruct (rules !! str y) as [subs|]; [|done].
    destruct (falsy z); [done|].
    by destruct (subs !! str z).
  - intros x y z Fx. unfold getSubscriptions. by rewrite Fx.
  - intros y z Fy. unfold getSubscriptions, bind, storage_get, ret, throw, failsNotFound.
    rewrite Fb. simpl. destruct (st !! b); simpl; [by rewrite Fy | eauto].
  - intros z Fz. unfold getSubscriptions, bind, storage_get, ret, throw, failsNotFound.
    rewrite Fb, Fr. simpl. destruct (st !! b) as [rules|]; simpl; eauto.
    destruct (rules !! r); simpl; [by rewrite Fz | eauto].
  - unfold getSubscriptions, lookupRule, bind, storage_get, ret, throw, failsNotFound.
    rewrite Fb, Fr, Fi. simpl. destruct (st !! b) as [rules|]; simpl; eauto.
    destruct (rules !! r) as [subs|]; simpl; eauto.
    destruct (subs !! i); simpl; eauto.
Qed.

(** The four forms read on the store with one subscriber. *)
Lemma getSubscriptions_four_forms_witness :
  fst (getSubscriptions (Some "b1") (Some "r1") (Some Sample.idX) Sample.oneSubscriber)
  = Returned (TheSubscription (Sample.hook "https://ex.com/hook")).
Proof.
  pose proof (getSubscriptions_four_forms Sample.oneSubscriber "b1" "r1" Sample.idX
                ltac:(discriminate) ltac:(discriminate) ltac:(discriminate))
    as (_ & _ & _ & _ & H).
  exact H.
Defined.

(** ** Delete *)

(** C5.  [deleteSubscription] fails with [NotFoundError] exactly when the
    bucket has no record, the rule is absent or the id is absent in the rule,
    and then leaves the store as it was.  Otherwise it returns the deleted
    subscription; the id is gone afterwards, so deleting it again fails with
    [NotFoundError]; the rule is kept with the remaining subscriptions, or
    removed when none remains; the bucket key is removed from the store
    exactly when its record has become empty, and an empty record is never
    written; every other rule and every other bucket is untouched. *)
Theorem deleteSubscription_spec (st : Storage) (b r i : string) :
  (failsNotFound (fst (deleteSubscription b r i st))
   ↔ st !! b = None ∨ lookupRule st b r = None ∨ lookupSubscription st b r i = None) ∧
  (lookupSubscription st b r i = None → snd (deleteSubscription b r i st) = st) ∧
  (∀ (rules : BucketRecord) (subs : Rule) (s : Subscription),
     st !! b = Some rules → rules !! r = Some subs → subs !! i = Some s →
     let st' := snd (deleteSubscription b r i st) in
     fst (deleteSubscription b r i st) = Returned s ∧
     lookupSubscription st' b r i = None ∧
     failsNotFound (fst (deleteSubscription b r i st')) ∧
     lookupRule st' b r
       = (if decide (delete i subs = ∅) then None else Some (delete i subs)) ∧
     (st' !! b = None ↔ delete i subs = ∅ ∧ delete r rules = ∅) ∧
     st' !! b ≠ Some ∅ ∧
     (∀ r', r' ≠ r → lookupRule st' b r' = rules !! r') ∧
     (∀ b', b' ≠ b → st' !! b' = st !! b')).
Proof.
  assert (Habs : st !! b = None ∨ lookupRule st b r = None
                 ∨ lookupSubscription st b r i = None
                 ↔ lookupSubscription st b r i = None).
  { unfold lookupSubscription, lookupRule. split; [|by auto].
    intros [H|[H|H]]; [by rewrite H| by rewrite H | done]. }
  split; [|split].
  - rewrite Habs. split; [|by intros H; apply deleteSubscription_absent].
    intros [msg Hmsg].
    destruct (lookupSubscription st b r i) as [s|] eqn:L; [|done].
    unfold lookupSubscription, lookupRule in L.
    destruct (st !! b) as [rules|] eqn:Hb; simpl in L; [|done].
    destruct (rules !! r) as [subs|] eqn:Hr; simpl in L; [|done].
    by rewrite (deleteSubscription_found st b r i rules subs s Hb Hr L) in Hmsg.
  - by intros H; apply deleteSubscription_absent.
  - intros rules subs s Hb Hr Hi st'.
    assert (Hst' : st' =
      let rules' := if decide (delete i subs = ∅) then delete r rules
                    else <[r := delete i subs]> rules in
      if decide (rules' = ∅) then delete b st else <[b := rules']> st).
    { unfold st'. by rewrite (deleteSubscription_found st b r i rules subs s Hb Hr Hi). }
    cbv zeta in Hst'.
    assert (Hrule : lookupRule st' b r
       = (if decide (delete i subs = ∅) then None else Some (delete i subs))).
    { rewrite Hst'. unfold lookupRule.
      destruct (decide (delete i subs = ∅)) as [E|E].
      - destruct (decide (delete r rules = ∅)).
        + by rewrite lookup_delete_eq.
        + rewrite lookup_insert_eq. simpl. by rewrite lookup_delete_eq.
      - destruct (decide (<[r:=delete i subs]> rules = ∅)) as [E'|E'].
        { by apply insert_non_empty in E'. }
        rewrite lookup_insert_eq. simpl. by rewrite lookup_insert_eq. }
    assert (Hgone : lookupSubscription st' b r i = None).
    { unfold lookupSubscription. rewrite Hrule.
      destruct (decide (delete i subs = ∅)); simpl; [done|]. by rewrite lookup_delete_eq. }
    split; [|split; [|split; [|split; [|split; [|split; [|split]]]]]].
    + by rewrite (deleteSubscription_found st b r i rules subs s Hb Hr Hi).
    + done.
    + by apply deleteSubscription_absent.
    + done.
    + rewrite Hst'.
      destruct (decide (delete i subs = ∅)) as [E|E].
      * destruct (decide (delete r rules = ∅)) as [E'|E'].
        -- rewrite lookup_delete_eq. tauto.
        -- rewrite lookup_insert_eq. split; [done|]. tauto.
      * destruct (decide (<[r:=delete i subs]> rules = ∅)) as [E'|E'].
        { by apply insert_non_empty in E'. }
        rewrite lookup_insert_eq. split; [done|]. tauto.
    + rewrite Hst'.
      destruct (decide (delete i subs = ∅)) as [E|E].
      * destruct (decide (delete r rules = ∅)) as [E'|E'].
        -- by rewrite lookup_delete_eq.
        -- rewrite lookup_insert_eq. congruence.
      * destruct (decide (<[r:=delete i subs]> rules = ∅)) as [E'|E'].
        { by apply insert_non_empty in E'. }
        rewrite lookup_insert_eq. congruence.
    + intros r' Hne. rewrite Hst'. unfold lookupRule.
      destruct (decide (delete i subs = ∅)) as [E|E].
      * destruct (decide (delete r rules = ∅)) as [E'|E'].
        -- rewrite lookup_delete_eq. simpl.
           assert (delete r rules !! r' = None) as H by (by rewrite E').
           by rewrite lookup_delete_ne in H.
        -- rewrite lookup_insert_eq. simpl. by rewrite lookup_delete_ne.
      * destruct (decide (<[r:=delete i subs]> rules = ∅)) as [E'|E'].
        { by apply insert_non_empty in E'. }
        rewrite lookup_insert_eq. simpl. by rewrite lookup_insert_ne.
    + intros b' Hne. rewrite Hst'.
      repeat case_decide; by rewrite ?lookup_delete_ne, ?lookup_insert_ne.
Qed.

(** ** Create, then Get *)

(** C4, as the code has it.  [createSubscription] reads [rules[ruleName]]
    without the [Object.hasOwn] test that [getSubscriptions] and
    [deleteSubscription] make.  For a rule name that every object inherits
    and that the bucket does not hold, an otherwise valid Create therefore
    stores no subscription: under [__proto__] it returns an identifier
    that Get does not find, and under every other such name ([constructor],
    [toString], ...) it throws what [storage.put] throws for a function, and
    the store is as it was. *)
Theorem createSubscription_inherited_rule (canParse : string → bool) (st : Storage)
    (id b r : string) (subscription : Subscription) (url : string) :
  b ≠ "" → inheritedName r = true → lookupRule st b r = None →
  subscription !! "url" = Some url → url ≠ "" → canParse url = true →
  if String.eqb r "__proto__" then
    ∃ st',
      createSubscription canParse id b r subscription st = (Returned id, st') ∧
      failsNotFound (fst (getSubscriptions (Some b) (Some r) (Some id) st')) ∧
      ∀ i, lookupSubscription st' b r i = None
  else
    createSubscription canParse id b r subscription st = (Thrown DataCloneError, st).
Proof.
  intros Hb Hr Hrule Hu Hne Hcp.
  assert (Hslot : readProperty (default ∅ (st !! b)) r = Builtin).
  { unfold readProperty, lookupRule in *. destruct (st !! b) as [rules|]; simpl in *.
    - by rewrite Hrule, Hr.
    - by rewrite lookup_empty, Hr. }
  unfold createSubscription, noUrl, bind, storage_get, storage_put, ret, throw.
  rewrite Hu, (falsy_Some url Hne). simpl. rewrite Hcp. simpl. rewrite Hslot.
  destruct (String.eqb r "__proto__") eqn:E; [|done].
  apply String.eqb_eq in E. subst r.
  eexists. split; [reflexivity|].
  assert (Hnone : default ∅ (st !! b) !! "__proto__" = None).
  { unfold lookupRule in Hrule. by destruct (st !! b). }
  split.
  - unfold getSubscriptions, bind, storage_get, throw, failsNotFound.
    rewrite (falsy_Some b Hb). simpl. rewrite lookup_insert_eq, Hnone. simpl. eauto.
  - intros i. unfold lookupSubscription, lookupRule. rewrite lookup_insert_eq. simpl.
    by rewrite Hnone.
Qed.

(** Create under [constructor] and under [__proto__], on the empty store. *)
Lemma createSubscription_inherited_rule_witness :
  createSubscription Sample.canParse Sample.idX "b1" "constructor"
                     (Sample.hook "https://ex.com/hook") ∅
  = (Thrown DataCloneError, ∅) ∧
  ∃ st',
    createSubscription Sample.canParse Sample.idX "b1" "__proto__"
                       (Sample.hook "https://ex.com/hook") ∅
    = (Returned Sample.idX, st') ∧
    failsNotFound (fst (getSubscriptions (Some "b1") (Some "__proto__")
                                         (Some Sample.idX) st')) ∧
    ∀ i, lookupSubscription st' "b1" "__proto__" i = None.
Proof.
  split.
  - apply (createSubscription_inherited_rule Sample.canParse ∅ Sample.idX "b1"
             "constructor" (Sample.hook "https://ex.com/hook") "https://ex.com/hook");
      first [ discriminate | reflexivity ].
  - apply (createSubscription_inherited_rule Sample.canParse ∅ Sample.idX "b1"
             "__proto__" (Sample.hook "https://ex.com/hook") "https://ex.com/hook");
      first [ discriminate | reflexivity ].
Defined.

(** Create under [__proto__] for a bucket that has no record persists an
    empty record for it. *)
Example createSubscription_proto_empty_record :
  snd (createSubscription Sample.canParse Sample.idX "b1" "__proto__"
                          (Sample.hook "https://ex.com/hook") ∅) !! "b1"
  = Some (∅ : BucketRecord).
Proof.
  unfold createSubscription, noUrl, bind, storage_get, storage_put, ret, throw.
  unfold Sample.hook. rewrite lookup_singleton_eq. simpl.
  rewrite lookup_empty. cbn [default]. unfold readProperty.
  rewrite (lookup_empty (M := gmap string) "__proto__"). simpl.
  by rewrite lookup_insert_eq.
Qed.

(** X17.  Create, then Get, under the rule names that no object inherits:
    for a non-empty bucket name, a non-empty rule name other than
    [constructor], [toString], [__proto__] and the other names of
    [inheritedNames], and a payload whose [url] is non-empty and parseable,
    [createSubscription] returns the identifier it was given by [uuidv4()],
    and [getSubscriptions] with that bucket, rule and (non-empty) identifier
    then returns [{ url }]. *)
Theorem createSubscription_then_get (canParse : string → bool) (st : Storage)
    (id b r : string) (subscription : Subscription) (url : string) :
  b ≠ "" → r ≠ "" → id ≠ "" → inheritedName r = false →
  subscription !! "url" = Some url → url ≠ "" → canParse url = true →
  ∃ st',
    createSubscription canParse id b r subscription st = (Returned id, st') ∧
    getSubscriptions (Some b) (Some r) (Some id) st'
    = (Returned (TheSubscription {[ "url" := url ]}), st').
Proof.
  intros Hb Hr Hid Hown Hu Hne Hcp.
  eexists. split; [by apply createSubscription_accepted|].
  unfold getSubscriptions, bind, storage_get, ret.
  rewrite (falsy_Some b Hb), (falsy_Some r Hr), (falsy_Some id Hid).
  simpl. by rewrite !lookup_insert_eq.
Qed.

(** The scenario of the design document: Create("b1","r1","https://ex.com/hook")
    on the empty store, then Get. *)
Lemma createSubscription_then_get_witness :
  ∃ st',
    createSubscription Sample.canParse Sample.idX "b1" "r1"
                       (Sample.hook "https://ex.com/hook") ∅
    = (Returned Sample.idX, st') ∧
    getSubscriptions (Some "b1") (Some "r1") (Some Sample.idX) st'
    = (Returned (TheSubscription {[ "url" := "https://ex.com/hook" ]}), st').
Proof.
  apply (createSubscription_then_get Sample.canParse ∅ Sample.idX "b1" "r1"
           (Sample.hook "https://ex.com/hook") "https://ex.com/hook");
    first [ discriminate | reflexivity ].
Defined.

(** ** ReplaceRule *)

(** C8.  A map with an entry whose key is not a UUID, or whose subscription
    object has no [url] property, makes [setSubscriptions] throw the plain
    [Error] of [checkUUID] or [checkProperty], and the store is then exactly
    what it was before the call. *)
Theorem setSubscriptions_rejects (st : Storage) (b r : string) (subscriptions : Rule)
    (id : string) (subscription : Subscription) :
  subscriptions !! id = Some subscription →
  uuidRegExp_test id = false ∨ subscription !! "url" = None →
  failsValidation (fst (setSubscriptions b r subscriptions st)) ∧
  snd (setSubscriptions b r subscriptions st) = st.
Proof.
  intros Hin Hbad.
  assert (forallb validEntry (map_to_list subscriptions) = false) as H.
  { apply not_true_is_false. intros H. rewrite forallb_forall in H.
    assert (validEntry (id, subscription) = true) as V.
    { apply H, list_elem_of_In. by apply elem_of_map_to_list. }
    unfold validEntry in V. simpl in V. apply andb_prop in V as [V1 V2].
    apply bool_decide_eq_true in V2. destruct Hbad as [Hbad|Hbad].
    - congruence.
    - rewrite Hbad in V2. by destruct V2. }
  destruct (forEach_checks_some_invalid _ st H) as [msg Hmsg].
  unfold setSubscriptions, bind. rewrite Hmsg. simpl.
  split; [by exists msg | done].
Qed.

(** A map with one good entry and one whose key is not a UUID. *)
Lemma setSubscriptions_rejects_witness :
  failsValidation
    (fst (setSubscriptions "b1" "r1"
            {[ Sample.idY := Sample.hook "https://y.example/hook";
               "not-a-uuid" := Sample.hook "https://n.example/hook" ]}
            Sample.oneSubscriber)) ∧
  snd (setSubscriptions "b1" "r1"
         {[ Sample.idY := Sample.hook "https://y.example/hook";
            "not-a-uuid" := Sample.hook "https://n.example/hook" ]}
         Sample.oneSubscriber)
  = Sample.oneSubscriber.
Proof.
  apply (setSubscriptions_rejects Sample.oneSubscriber "b1" "r1" _ "not-a-uuid"
           (Sample.hook "https://n.example/hook")).
  - reflexivity.
  - left. reflexivity.
Defined.

(** C1.  On a bucket that has no record, [setSubscriptions] with a map that
    passes validation does not create the bucket, and it does fail; but the
    exception is the [TypeError] of assigning a property of [undefined], which
    is no [NotFoundError] for the callers' test, on either side of the stub. *)
Theorem setSubscriptions_without_record (st : Storage) (b r : string)
    (subscriptions : Rule) :
  st !! b = None →
  (∀ id subscription, subscriptions !! id = Some subscription →
     uuidRegExp_test id = true ∧ is_Some (subscription !! "url")) →
  ∃ e,
    setSubscriptions b r subscriptions st = (Thrown e, st) ∧
    class e = TypeErrorC ∧
    isNotFound e = false ∧
    isNotFound (Engine.acrossStub e) = false.
Proof.
  intros Hb Hall. rewrite (setSubscriptions_valid st b r subscriptions Hall), Hb.
  eexists. split; [reflexivity|]. done.
Qed.

(** ReplaceRule on the empty store. *)
Lemma setSubscriptions_without_record_witness :
  ∃ e,
    setSubscriptions "b1" "r1" {[ Sample.idX := Sample.hook "https://ex.com/hook" ]} ∅
    = (Thrown e, ∅) ∧
    class e = TypeErrorC ∧
    isNotFound e = false ∧
    isNotFound (Engine.acrossStub e) = false.
Proof.
  apply (setSubscriptions_without_record ∅ "b1" "r1").
  - reflexivity.
  - intros id subscription H.
    apply lookup_singleton_Some in H as [<- <-]. split; [reflexivity|].
    by eexists.
Defined.

(** ** The emptiness invariants *)

Lemma oneSubscriber_invariants :
  noEmptyRecord Sample.oneSubscriber ∧ noEmptyRule Sample.oneSubscriber.
Proof.
  split.
  - intros bucket rules H. unfold Sample.oneSubscriber in H.
    apply lookup_singleton_Some in H as [_ <-]. apply insert_non_empty.
  - intros bucket rule subs H. unfold lookupRule, Sample.oneSubscriber in H.
    destruct (decide (bucket = "b1")) as [->|Hne].
    + rewrite lookup_singleton_eq in H. simpl in H.
      apply lookup_singleton_Some in H as [_ <-]. apply insert_non_empty.
    + by rewrite lookup_singleton_ne in H.
Qed.

(** C2.  [setSubscriptions] with the empty map passes validation and writes
    the rule back empty: on a store that satisfies both invariants the
    operation completes and leaves a rule that maps to the empty subscription
    map. *)
Theorem setSubscriptions_persists_empty_rule :
  noEmptyRecord Sample.oneSubscriber ∧
  noEmptyRule Sample.oneSubscriber ∧
  setSubscriptions "b1" "r1" ∅ Sample.oneSubscriber
  = (Returned tt, {[ "b1" := {[ "r1" := ∅ ]} ]}) ∧
  lookupRule (snd (setSubscriptions "b1" "r1" ∅ Sample.oneSubscriber)) "b1" "r1" = Some ∅.
Proof.
  assert (E : setSubscriptions "b1" "r1" ∅ Sample.oneSubscriber
              = (Returned tt, {[ "b1" := {[ "r1" := ∅ ]} ]})).
  { rewrite setSubscriptions_valid by (intros ? ? H; by rewrite lookup_empty in H).
    unfold Sample.oneSubscriber. rewrite lookup_singleton_eq.
    by rewrite !insert_singleton_eq. }
  split; [|split; [|split]].
  - apply oneSubscriber_invariants.
  - apply oneSubscriber_invariants.
  - exact E.
  - rewrite E. unfold lookupRule. simpl.
    rewrite lookup_singleton_eq. simpl. by rewrite lookup_singleton_eq.
Qed.

(** * Properties of the delivery engine *)

Import Engine.
Local Open Scope list_scope.

Lemma steps_app (t1 t2 : list Effect) : steps (t1 ++ t2) = steps t1 ++ steps t2.
Proof. unfold steps. apply List.filter_app. Qed.

Lemma fetches_steps (t : list Effect) : List.filter isFetch (steps t) = List.filter isFetch t.
Proof.
  unfold steps. induction t as [|e t IH]; [done|].
  destruct e; simpl; by rewrite ?IH.
Qed.

Lemma fetches_attemptSteps resource options (delays : list Z) :
  length (List.filter isFetch (attemptSteps resource options delays)) = length delays.
Proof. induction delays as [|d ds IH]; simpl; [done|]. by rewrite IH. Qed.

(** The delays the loop computes are the sequence of the design document. *)
Lemma backoff_iter (k : nat) : Nat.iter k nextDelay 0 = backoff k.
Proof.
  destruct k as [|k]; [done|].
  induction k as [|k IH]; [done|].
  change (Nat.iter (S (S k)) nextDelay 0) with (nextDelay (Nat.iter (S k) nextDelay 0)).
  rewrite IH. unfold nextDelay, backoff.
  assert (0 < 2 ^ Z.of_nat k) by (apply Z.pow_pos_nonneg; lia).
  destruct (1000 * 2 ^ Z.of_nat k =? 0) eqn:E; [lia|].
  rewrite Nat2Z.inj_succ, Z.pow_succ_r by lia. lia.
Qed.


Lemma world_eta {R} (w : World R) : mkWorld (remote_state w) (trace w) = w.
Proof. by destruct w. Qed.

Section Retry.

Context {R : Type}.
Variable network : string → RequestInit → World R → FetchResult * R.

(** One awaited [fetch]: the request is recorded, then the network
    answers. *)
Lemma fetch_url (url : string) (options : RequestInit) (w : World R) :
  fetch network (Some url) options w
  = let w1 := mkWorld (remote_state w) (trace w ++ [Fetch (Some url) options]) in
    Some (Returned (network url options w1).1,
          mkWorld (network url options w1).2 (trace w1)).
Proof.
  unfold fetch, tbind, request, emit, response. cbv zeta.
  by destruct (network url options _).
Qed.

Lemma fetch_trace (resource : option string) (options : RequestInit) (w : World R) :
  ∃ result w1,
    fetch network resource options w = Some (Returned result, w1) ∧
    trace w1 = trace w ++ [Fetch resource options].
Proof.
  unfold fetch, tbind, request, emit, response. destruct resource as [url|].
  - destruct (network url options _) as [result r]. by eexists _, _.
  - by eexists _, _.
Qed.

(** The loop condition fails: the final [throw], whatever the fuel. *)
Lemma retryLoop_exhausted (max : JsNum) (resource : option string)
    (options : RequestInit) (fuel : nat) (i delay : Z) (w : World R) :
  Js.lt i max = false →
  retryLoop network fuel resource options max i delay w
  = Some (Thrown (Error (numToString max +:+ " failures to " +:+ method options
                          +:+ " " +:+ str resource)), w).
Proof. intros H. destruct fuel; simpl; by rewrite H. Qed.

Lemma retryLoop_step (max : JsNum) (resource : option string)
    (options : RequestInit) (fuel : nat) (i delay : Z) :
  retryLoop network (S fuel) resource options max i delay
  = if Js.lt i max then
      tbind (fetch network resource options) (λ result,
        match result with
        | Response status body =>
            if ok status then
              tbind (log (PostSucceeded resource status)) (λ _, tret (status, body))
            else
              match body with
              | Text text =>
                  tbind (log (PostFailedStatus resource status text)) (λ _,
                  tbind (sleep delay) (λ _,
                  retryLoop network fuel resource options max (i + 1) (nextDelay delay)))
              | Unreadable reason => tthrow reason
              end
        | Rejected reason =>
            tbind (log (PostFailed resource reason)) (λ _,
            tbind (sleep delay) (λ _,
            retryLoop network fuel resource options max (i + 1) (nextDelay delay)))
        end)
    else tthrow (Error (numToString max +:+ " failures to " +:+ method options
                         +:+ " " +:+ str resource)).
Proof. reflexivity. Qed.

(** Against an endpoint whose every attempt fails and leaves a body that
    can be read, the loop runs its [n] remaining iterations, each a request
    followed by a wait, and throws. *)
Lemma retryLoop_never_ok (url : string) (options : RequestInit) :
  (∀ o w, retriable (fst (network url o w)) = true) →
  ∀ (n fuel : nat) (i delay : Z) (w : World R),
    (n ≤ fuel)%nat →
    ∃ w',
      retryLoop network fuel (Some url) options (Num (i + Z.of_nat n)) i delay w
      = Some (Thrown (Error (numToString (Num (i + Z.of_nat n)) +:+ " failures to "
                              +:+ method options +:+ " " +:+ url)), w') ∧
      steps (trace w')
      = steps (trace w)
        ++ attemptSteps (Some url) options
             (map (λ k, Nat.iter k nextDelay delay) (seq 0 n)).
Proof.
  intros Hnever n. induction n as [|n IH]; intros fuel i delay w Hfuel.
  - exists w. split.
    + apply retryLoop_exhausted. simpl. apply Z.ltb_ge. lia.
    + simpl. by rewrite app_nil_r.
  - destruct fuel as [|fuel]; [lia|].
    assert (Hlt : Js.lt i (Num (i + Z.of_nat (S n))) = true)
      by (simpl; apply Z.ltb_lt; lia).
    assert (Hmax : i + Z.of_nat (S n) = (i + 1) + Z.of_nat n) by lia.
    rewrite retryLoop_step, Hlt. unfold tbind at 1. rewrite fetch_url. cbv zeta.
    pose proof (Hnever options
                  (mkWorld (remote_state w) (trace w ++ [Fetch (Some url) options])))
      as Hres.
    destruct (network url options _) as [result r]. simpl in Hres. simpl fst. simpl snd.
    assert (Hgo : ∀ line : LogLine,
              ∃ w',
                tbind (log line) (λ _,
                  tbind (sleep delay) (λ _,
                    retryLoop network fuel (Some url) options (Num (i + Z.of_nat (S n)))
                              (i + 1) (nextDelay delay)))
                  (mkWorld r (trace w ++ [Fetch (Some url) options]))
                = Some (Thrown (Error (numToString (Num (i + Z.of_nat (S n)))
                                        +:+ " failures to " +:+ method options
                                        +:+ " " +:+ url)), w') ∧
                steps (trace w')
                = steps (trace w)
                  ++ attemptSteps (Some url) options
                       (map (λ k, Nat.iter k nextDelay delay) (seq 0 (S n)))).
    { intros line. unfold tbind, log, sleep, emit. simpl. rewrite Hmax.
      edestruct (IH fuel (i + 1) (nextDelay delay)) as (w' & Hrun & Htrace); [lia|].
      rewrite Hrun. exists w'. split; [done|].
      rewrite Htrace. simpl. rewrite !steps_app. simpl.
      rewrite <- !app_assoc. simpl. rewrite <- seq_shift, map_map.
      do 4 f_equal. apply map_ext. intros k. symmetry. apply Nat.iter_succ_r. }
    destruct result as [status [text|reason]|reason]; simpl in Hres; [| done |];
      cbn [fst snd trace].
    + apply negb_true_iff in Hres. rewrite Hres. apply Hgo.
    + apply Hgo.
Qed.


End Retry.

(** ** Retry and backoff *)

(** C6, as the code has it.  The loop catches what [fetch] throws, but it
    reads the body of a failed response for its log line outside the
    [try].  When an endpoint answers with a status outside 200-299 and a
    body that cannot be read, [fetchWithRetry] therefore makes this one
    request and no other, whatever the maximum count: it rejects at once
    with the exception of [response.text()], without a log line and without
    a wait. *)
Theorem fetchWithRetry_unreadable_body {R : Type}
    (network : string → RequestInit → World R → FetchResult * R)
    (fuel : nat) (url : string) (options : RequestInit) (max : JsNum) (w : World R)
    (status : Z) (reason : JsError) (r : R) :
  Js.lt 0 max = true →
  network url options (mkWorld (remote_state w) (trace w ++ [Fetch (Some url) options]))
  = (Response status (Unreadable reason), r) →
  ok status = false →
  fetchWithRetry network (S fuel) (Some url) options max w
  = Some (Thrown reason, mkWorld r (trace w ++ [Fetch (Some url) options])).
Proof.
  intros Hmax Hnet Hok. unfold fetchWithRetry. rewrite retryLoop_step, Hmax.
  unfold tbind at 1. rewrite fetch_url. cbv zeta. rewrite Hnet. cbn [fst snd trace].
  by rewrite Hok.
Qed.

(** An endpoint that always answers 500 with a body that breaks off, and a
    maximum count of 3: one request. *)
Lemma fetchWithRetry_unreadable_body_witness :
  fetchWithRetry Sample.tornNetwork 3 (Some "https://ex.com/hook")
                 (mkInit "POST" [Sample.firstEvent]) (Num 3) (mkWorld tt [])
  = Some (Thrown (Error "Network connection lost."),
          mkWorld tt [Fetch (Some "https://ex.com/hook") (mkInit "POST" [Sample.firstEvent])]).
Proof.
  apply (fetchWithRetry_unreadable_body Sample.tornNetwork 2 "https://ex.com/hook"
           (mkInit "POST" [Sample.firstEvent]) (Num 3) (mkWorld tt []) 500
           (Error "Network connection lost.") tt);
    reflexivity.
Defined.

(** X18.  An attempt succeeds exactly when it has a response whose status
    is in 200-299.  Against an endpoint whose every request is rejected or
    answered with another status and a body that can be read,
    [fetchWithRetry] with maximum count [N] makes exactly [N] requests,
    waits 0, 1000, 2000, 4000, ... milliseconds after the first, second,
    third, fourth, ... failed one, and then rejects: no request follows the
    [N]-th. *)
Theorem fetchWithRetry_exhausts_budget {R : Type}
    (network : string → RequestInit → World R → FetchResult * R)
    (N : nat) (url : string) (options : RequestInit) (fuel : nat) (w : World R) :
  (∀ o w, retriable (fst (network url o w)) = true) →
  (N ≤ fuel)%nat →
  (∀ result, succeeded result = true
             ↔ ∃ status body, result = Response status body ∧ 200 ≤ status ≤ 299) ∧
  ∃ w',
    fetchWithRetry network fuel (Some url) options (Num (Z.of_nat N)) w
    = Some (Thrown (Error (numToString (Num (Z.of_nat N)) +:+ " failures to "
                            +:+ method options +:+ " " +:+ url)), w') ∧
    steps (trace w')
    = steps (trace w) ++ attemptSteps (Some url) options (map backoff (seq 0 N)) ∧
    length (List.filter isFetch (trace w'))
    = (length (List.filter isFetch (trace w)) + N)%nat.
Proof.
  intros Hnever Hfuel. split.
  - intros [status body|reason]; simpl; unfold ok.
    + rewrite andb_true_iff, !Z.leb_le. split.
      * intros H. by exists status, body.
      * by intros (s & t & [= -> ->] & H).
    + split; [done|]. by intros (s & t & [=] & _).
  - destruct (retryLoop_never_ok network url options Hnever N fuel 0 0 w Hfuel)
      as (w' & Hrun & Htrace).
    exists w'. split; [|split].
    + unfold fetchWithRetry. rewrite Z.add_0_l in Hrun. exact Hrun.
    + rewrite Htrace. do 2 f_equal. apply map_ext. intros k. apply backoff_iter.
    + rewrite <- (fetches_steps (trace w')), Htrace, List.filter_app, length_app.
      by rewrite fetches_steps, fetches_attemptSteps, length_map, length_seq.
Qed.

(** The scenario of the design document: an endpoint that always answers 500
    and a maximum count of 3. *)
Lemma fetchWithRetry_exhausts_budget_witness :
  ∃ w',
    fetchWithRetry Sample.downNetwork 3 (Some "https://ex.com/hook")
                   (mkInit "POST" [Sample.firstEvent]) (Num 3)
                   (mkWorld Sample.oneSubscriber [])
    = Some (Thrown (Error "3 failures to POST https://ex.com/hook"), w') ∧
    steps (trace w')
    = [ Fetch (Some "https://ex.com/hook") (mkInit "POST" [Sample.firstEvent]); Sleep 0;
        Fetch (Some "https://ex.com/hook") (mkInit "POST" [Sample.firstEvent]); Sleep 1000;
        Fetch (Some "https://ex.com/hook") (mkInit "POST" [Sample.firstEvent]); Sleep 2000 ].
Proof.
  destruct (fetchWithRetry_exhausts_budget Sample.downNetwork 3 "https://ex.com/hook"
              (mkInit "POST" [Sample.firstEvent]) 3 (mkWorld Sample.oneSubscriber [])
              ltac:(reflexivity) ltac:(lia))
    as [_ (w' & Hrun & Hsteps & _)].
  exists w'. split; [exact Hrun | exact Hsteps].
Defined.

(** ** Deliveries as promises *)

Section Promises.

Context {R : Type}.
Variable network : string → RequestInit → World R → FetchResult * R.
Variable timing : Timing R.

Implicit Types (ds : list (string * option string * Delivery)) (w : World R).

Lemma attempt_exhausted (max : JsNum) (resource : option string)
    (options : RequestInit) (i delay : Z) w :
  Js.lt i max = false →
  attempt resource options max i delay w
  = Some (Returned (Settled (Thrown (Error (numToString max +:+ " failures to "
                                             +:+ method options +:+ " " +:+ str resource)))),
          w).
Proof. intros H. unfold attempt. by rewrite H. Qed.

Lemma attempt_request (max : JsNum) (resource : option string)
    (options : RequestInit) (i delay : Z) w :
  Js.lt i max = true →
  attempt resource options max i delay w
  = Some (Returned (Waiting (AwaitingResponse i delay)),
          mkWorld (remote_state w) (trace w ++ [Fetch resource options])).
Proof. intros H. unfold attempt. by rewrite H. Qed.

Lemma response_returns (resource : option string) (options : RequestInit) w :
  ∃ result r, response network resource options w
              = Some (Returned result, mkWorld r (trace w)).
Proof.
  unfold response. destruct resource as [url|].
  - destruct (network url options w) as [result r]. by eexists _, _.
  - eexists _, _. by rewrite world_eta.
Qed.

(** A delivery that goes on reaches its next [await], or settles: it adds to
    the trace, and it has fewer steps left. *)
Lemma resume_settles (max : JsNum) (resource : option string) (options : RequestInit)
    (p : Pending) w :
  ∃ d w' t,
    resume network resource options max p w = Some (Returned d, w') ∧
    trace w' = trace w ++ t ∧
    (stepsLeft max d < stepsLeft max (Waiting p))%nat.
Proof.
  destruct p as [i delay|i delay status [text|reason]|i delay]; cbn [resume].
  - destruct (response_returns resource options w) as (result & r & Hres).
    unfold tbind at 1. rewrite Hres.
    destruct result as [status body|reason].
    + destruct (ok status).
      * eexists _, _, [_]. unfold tbind, log, emit, tret.
        split; [reflexivity|]. split; [done|]. cbn [stepsLeft]. lia.
      * eexists _, _, []. unfold tret.
        split; [reflexivity|]. split; [cbn [trace]; by rewrite app_nil_r|].
        cbn [stepsLeft]. lia.
    + eexists _, _, [_; _]. unfold tbind, log, sleep, emit, tret.
      split; [reflexivity|]. split; [cbn [trace]; by rewrite <- app_assoc|].
      cbn [stepsLeft]. lia.
  - eexists _, _, [_; _]. unfold tbind, log, sleep, emit, tret.
    split; [reflexivity|]. split; [cbn [trace]; by rewrite <- app_assoc|].
    cbn [stepsLeft]. lia.
  - eexists _, _, []. unfold tret.
    split; [reflexivity|]. split; [by rewrite app_nil_r|]. cbn [stepsLeft]. lia.
  - destruct (Js.lt (i + 1) max) eqn:Hlt.
    + rewrite attempt_request by done. eexists _, _, [_].
      split; [reflexivity|]. split; [done|].
      destruct max as [|z]; [done|]. cbn [stepsLeft remaining]. simpl in Hlt.
      apply Z.ltb_lt in Hlt. lia.
    + rewrite attempt_exhausted by done. eexists _, _, [].
      split; [reflexivity|]. split; [by rewrite app_nil_r|]. cbn [stepsLeft]. lia.
Qed.

Lemma finish_more_fuel (max : JsNum) (resource : option string) (options : RequestInit) :
  ∀ (fuel : nat) (d : Delivery) w x,
    finish network fuel resource options max d w = Some x →
    finish network (S fuel) resource options max d w = Some x.
Proof.
  induction fuel as [|fuel IH]; intros d w x H.
  - destruct d as [[v|err]|p]; [done|done|done].
  - destruct d as [[v|err]|p]; [done|done|].
    cbn [finish] in *. unfold tbind in *.
    destruct (resume network resource options max p w) as [[[d'|err] w1]|]; [|done|done].
    by apply IH.
Qed.

Lemma finish_waiting (max : JsNum) (resource : option string) (options : RequestInit)
    (fuel : nat) (p : Pending) :
  finish network (S fuel) resource options max (Waiting p)
  = tbind (resume network resource options max p)
          (finish network fuel resource options max).
Proof. reflexivity. Qed.

(** The promise awaited on its own is [fetchWithRetry] as it is written. *)
Lemma finish_retryLoop (max : JsNum) (resource : option string) (options : RequestInit) :
  ∀ (fuel : nat) (i delay : Z) w x,
    retryLoop network fuel resource options max i delay w = Some x →
    tbind (attempt resource options max i delay)
          (finish network (3 * fuel) resource options max) w
    = Some x.
Proof.
  induction fuel as [|fuel IH]; intros i delay w x Hrun.
  - destruct (Js.lt i max) eqn:Hlt; [simpl in Hrun; by rewrite Hlt in Hrun|].
    rewrite retryLoop_exhausted in Hrun by done.
    unfold tbind. by rewrite attempt_exhausted.
  - destruct (Js.lt i max) eqn:Hlt.
    2:{ rewrite retryLoop_exhausted in Hrun by done.
        unfold tbind. by rewrite attempt_exhausted. }
    rewrite retryLoop_step, Hlt in Hrun. unfold tbind at 1.
    rewrite attempt_request by done.
    replace (3 * S fuel)%nat with (S (S (S (3 * fuel)))) by lia.
    unfold tbind at 1, fetch, tbind at 1, request, emit in Hrun.
    rewrite finish_waiting. unfold tbind at 1. cbn [resume]. unfold tbind at 1.
    destruct (response network resource options _) as [[[result|err] w1]|] eqn:Hres;
      [| |done].
    2:{ unfold response in Hres. destruct resource; [|done].
        by destruct (network _ _ _). }
    assert (Hnext : ∀ w2,
              retryLoop network fuel resource options max (i + 1) (nextDelay delay) w2
              = Some x →
              finish network (S (3 * fuel)) resource options max
                     (Waiting (AwaitingSleep i delay)) w2 = Some x).
    { intros w2 H. rewrite finish_waiting. cbn [resume]. by apply IH. }
    destruct result as [status body|reason].
    + destruct (ok status).
      * unfold tbind, log, emit, tret in *. exact Hrun.
      * unfold tret at 1. rewrite finish_waiting. unfold tbind at 1. cbn [resume].
        destruct body as [text|reason].
        -- unfold tbind at 1 2 in Hrun. unfold tbind at 1 2.
           unfold log, sleep, emit in *. unfold tret at 1.
           by apply Hnext.
        -- unfold tret at 1. exact Hrun.
    + unfold tbind at 1 2 in Hrun. unfold tbind at 1 2. unfold log, sleep, emit in *.
      unfold tret at 1. by apply finish_more_fuel, Hnext.
Qed.

(** *** The deliveries that wait *)

Lemma waitingFrom_lookup ds :
  ∀ (k j : nat) (url : option string) (p : Pending),
    (j, url, p) ∈ waitingFrom k ds →
    (k ≤ j)%nat ∧ ∃ id, ds !! (j - k)%nat = Some (id, url, Waiting p).
Proof.
  induction ds as [|[[id u] [o|q]] rest IH]; intros k j url p Hin; simpl in Hin.
  - by apply elem_of_nil in Hin.
  - destruct (IH (S k) j url p Hin) as (Hle & id' & Hlook).
    split; [lia|]. exists id'. replace (j - k)%nat with (S (j - S k)) by lia. done.
  - apply elem_of_cons in Hin as [[= -> -> ->]|Hin].
    + split; [lia|]. exists id. by rewrite Nat.sub_diag.
    + destruct (IH (S k) j url p Hin) as (Hle & id' & Hlook).
      split; [lia|]. exists id'. replace (j - k)%nat with (S (j - S k)) by lia. done.
Qed.

Lemma waitingFrom_nil ds (k : nat) :
  waitingFrom k ds = [] → Forall (λ x, ∃ o, x.2 = Settled o) ds.
Proof.
  revert k. induction ds as [|[[id u] [o|q]] rest IH]; intros k H; simpl in H.
  - constructor.
  - constructor; [by eexists|]. by eapply IH.
  - done.
Qed.

Lemma outcomesOf_settled ds :
  Forall (λ x, ∃ o, x.2 = Settled o) ds → (outcomesOf ds).*1 = ds.*1.
Proof.
  induction 1 as [|[[id u] d] rest [o Ho] _ IH]; [done|].
  simpl in Ho. subst d.
  change (outcomesOf ((id, u, Settled o) :: rest)) with ((id, u, o) :: outcomesOf rest).
  rewrite !fmap_cons. by rewrite IH.
Qed.

Lemma alter_ids ds (k : nat) (d : Delivery) :
  (alter (λ '(id, u, _), (id, u, d)) k ds).*1 = ds.*1.
Proof.
  revert k. induction ds as [|[[id u] d0] rest IH]; intros [|k]; try done.
  change (((id, u, d0) :: alter (λ '(id, u, _), (id, u, d)) k rest).*1
          = ((id, u, d0) :: rest).*1).
  rewrite !fmap_cons. by rewrite IH.
Qed.

Lemma sum_list_alter {A} (f : A → nat) (g : A → A) (l : list A) (k : nat) (x : A) :
  l !! k = Some x →
  (sum_list (f <$> alter g k l) + f x = sum_list (f <$> l) + f (g x))%nat.
Proof.
  revert k. induction l as [|y l IH]; intros [|k] H; try done.
  - simpl in *. injection H as ->. lia.
  - specialize (IH k H).
    change (f y + sum_list (f <$> alter g k l) + f x
            = f y + sum_list (f <$> l) + f (g x))%nat.
    lia.
Qed.

Lemma alter_stepsLeft (max : JsNum) ds (k : nat) (id : string) (u : option string)
    (d0 d : Delivery) :
  ds !! k = Some (id, u, d0) →
  (stepsLeftOf max (alter (λ '(id, u, _), (id, u, d)) k ds) + stepsLeft max d0
   = stepsLeftOf max ds + stepsLeft max d)%nat.
Proof.
  intros H. unfold stepsLeftOf.
  apply (sum_list_alter (λ x, stepsLeft max x.2) (λ '(id, u, _), (id, u, d)) ds k _ H).
Qed.

Lemma pick_waiting (n : nat) (first : nat * option string * Pending)
    (others : list (nat * option string * Pending)) :
  nth (n mod length (first :: others)) (first :: others) first ∈ first :: others.
Proof.
  apply list_elem_of_In, nth_In, Nat.mod_upper_bound. done.
Qed.

Lemma settleAll_unfold (fuel : nat) (max : JsNum) (e : Event) ds w :
  settleAll network timing fuel max e ds w
  = match waitingFrom 0 ds with
    | [] => Some (Returned (outcomesOf ds), w)
    | first :: others =>
        match fuel with
        | O => None
        | S fuel' =>
            let '(k, url, p) :=
              nth (nextUp timing w mod length (first :: others)) (first :: others) first in
            tbind (resume network url (mkInit "POST" [e]) max p)
                  (λ d, settleAll network timing fuel' max e
                                  (alter (λ '(id, u, _), (id, u, d)) k ds)) w
        end
    end.
Proof. destruct fuel; simpl; by destruct (waitingFrom 0 ds). Qed.

(** [Promise.allSettled] resolves, whatever the order in which the
    deliveries go on, with one outcome for each promise, in their order. *)
Lemma settleAll_settles (max : JsNum) (e : Event) :
  ∀ (fuel : nat) ds w,
    (stepsLeftOf max ds ≤ fuel)%nat →
    ∃ outcomes w' t,
      settleAll network timing fuel max e ds w = Some (Returned outcomes, w') ∧
      trace w' = trace w ++ t ∧
      outcomes.*1 = ds.*1.
Proof.
  induction fuel as [|fuel IH]; intros ds w Hfuel; rewrite settleAll_unfold.
  - destruct (waitingFrom 0 ds) as [|first others] eqn:Hwait.
    + eexists _, w, []. rewrite app_nil_r. split; [done|]. split; [done|].
      by eapply outcomesOf_settled, waitingFrom_nil.
    + pose proof (pick_waiting 0 first others) as Hin. rewrite <- Hwait in Hin at 3.
      destruct (nth _ _ _) as [[k url] p].
      apply waitingFrom_lookup in Hin as (_ & id & Hlook). rewrite Nat.sub_0_r in Hlook.
      pose proof (alter_stepsLeft max ds k id url (Waiting p) (Settled (Returned (0, Text
                    EmptyString))) Hlook) as Hcost.
      simpl in Hcost. destruct p; simpl in Hcost; lia.
  - destruct (waitingFrom 0 ds) as [|first others] eqn:Hwait.
    + eexists _, w, []. rewrite app_nil_r. split; [done|]. split; [done|].
      by eapply outcomesOf_settled, waitingFrom_nil.
    + pose proof (pick_waiting (nextUp timing w) first others) as Hin.
      rewrite <- Hwait in Hin at 3.
      destruct (nth _ _ _) as [[k url] p].
      apply waitingFrom_lookup in Hin as (_ & id & Hlook). rewrite Nat.sub_0_r in Hlook.
      destruct (resume_settles max url (mkInit "POST" [e]) p w)
        as (d & w1 & t1 & Hres & Ht1 & Hless).
      unfold tbind. rewrite Hres.
      pose proof (alter_stepsLeft max ds k id url (Waiting p) d Hlook) as Hcost.
      destruct (IH (alter (λ '(id, u, _), (id, u, d)) k ds) w1)
        as (outcomes & w' & t & Hrun & Ht & Hids); [lia|].
      exists outcomes, w', (t1 ++ t). split; [done|]. split.
      * by rewrite Ht, Ht1, app_assoc.
      * by rewrite Hids, alter_ids.
Qed.

Lemma settleAll_shape (max : JsNum) (e : Event) :
  ∀ (fuel : nat) ds w o w',
    settleAll network timing fuel max e ds w = Some (o, w') →
    ∃ outcomes, o = Returned outcomes ∧ outcomes.*1 = ds.*1.
Proof.
  induction fuel as [|fuel IH]; intros ds w o w'; rewrite settleAll_unfold;
    destruct (waitingFrom 0 ds) as [|first others] eqn:Hwait; try done.
  - intros [= <- <-]. eexists. split; [done|].
    by eapply outcomesOf_settled, waitingFrom_nil.
  - intros [= <- <-]. eexists. split; [done|].
    by eapply outcomesOf_settled, waitingFrom_nil.
  - destruct (nth _ _ _) as [[k url] p].
    destruct (resume_settles max url (mkInit "POST" [e]) p w)
      as (d & w1 & t1 & Hres & _ & _).
    unfold tbind. rewrite Hres. intros Hrun.
    destruct (IH _ _ _ _ Hrun) as (outcomes & -> & Hids).
    exists outcomes. split; [done|]. by rewrite Hids, alter_ids.
Qed.

Lemma stepsLeftOf_cons (max : JsNum) (x : string * option string * Delivery) ds :
  stepsLeftOf max (x :: ds) = (stepsLeft max x.2 + stepsLeftOf max ds)%nat.
Proof. reflexivity. Qed.

(** The first inner loop: every delivery is started, in order. *)
Lemma startAll_settles (max : JsNum) (e : Event) (subs : list (string * option string)) :
  ∀ w, ∃ ds w' t,
    startAll max e subs w = Some (Returned ds, w') ∧
    trace w' = trace w ++ t ∧
    ds.*1 = subs ∧
    (stepsLeftOf max ds ≤ length subs * (3 * budget max))%nat.
Proof.
  induction subs as [|[id url] rest IH]; intros w.
  - exists [], w, []. rewrite app_nil_r. done.
  - cbn [startAll]. unfold tbind at 1. unfold log, emit. unfold tbind at 1.
    set (w0 := mkWorld (remote_state w) (trace w ++ [Log (Posting url)])).
    assert (Hstart : ∃ d w1 t1,
              attempt url (mkInit "POST" [e]) max 0 0 w0 = Some (Returned d, w1) ∧
              trace w1 = trace w0 ++ t1 ∧ (stepsLeft max d ≤ 3 * budget max)%nat).
    { destruct (Js.lt 0 max) eqn:Hlt.
      - rewrite attempt_request by done. eexists _, _, [_].
        split; [reflexivity|]. split; [done|].
        destruct max as [|z]; [done|]. simpl in *. apply Z.ltb_lt in Hlt. lia.
      - rewrite attempt_exhausted by done. eexists _, _, [].
        rewrite app_nil_r. split; [reflexivity|]. split; [done|]. simpl. lia. }
    destruct Hstart as (d & w1 & t1 & Hstart & Ht1 & Hcost). rewrite Hstart.
    unfold tbind at 1. destruct (IH w1) as (ds & w' & t & Hrun & Ht & Hids & Hsum).
    rewrite Hrun. exists ((id, url, d) :: ds), w', (Log (Posting url) :: t1 ++ t).
    unfold tret. split; [done|]. split.
    + rewrite Ht, Ht1. unfold w0. simpl. by rewrite <- !app_assoc.
    + split; [by rewrite fmap_cons, Hids|].
      rewrite stepsLeftOf_cons. cbn [length snd]. rewrite Nat.mul_succ_l. lia.
Qed.

(** The fan-out of one event ends, with one outcome for each entry, in
    their order. *)
Lemma fanOut_settles (fuel : nat) (max : JsNum) (e : Event)
    (subs : list (string * option string)) :
  (budget max ≤ fuel)%nat →
  ∀ w, ∃ outcomes w' t,
    fanOut network timing fuel max e subs w = Some (Returned outcomes, w') ∧
    trace w' = trace w ++ t ∧
    outcomes.*1 = subs.
Proof.
  intros Hfuel w. unfold fanOut, tbind.
  destruct (startAll_settles max e subs w) as (ds & w1 & t1 & Hstart & Ht1 & Hids & Hsum).
  rewrite Hstart.
  destruct (settleAll_settles max e (length subs * (3 * fuel)) ds w1)
    as (outcomes & w' & t & Hrun & Ht & Hout); [nia|].
  exists outcomes, w', (t1 ++ t). split; [done|]. split.
  - by rewrite Ht, Ht1, app_assoc.
  - by rewrite Hout.
Qed.

Lemma fanOut_entries (fuel : nat) (max : JsNum) (e : Event)
    (subs : list (string * option string)) w o w' :
  fanOut network timing fuel max e subs w = Some (o, w') →
  ∃ outcomes, o = Returned outcomes ∧ outcomes.*1 = subs.
Proof.
  unfold fanOut, tbind.
  destruct (startAll_settles max e subs w) as (ds & w1 & t1 & Hstart & _ & Hids & _).
  rewrite Hstart. intros Hrun.
  destruct (settleAll_shape _ _ _ _ _ _ _ Hrun) as (outcomes & -> & Hout).
  exists outcomes. split; [done|]. by rewrite Hout.
Qed.

End Promises.

(** ** The order of [Object.entries] *)

Lemma insertBy_Permutation {A} (rank : A → nat) (x : A) (l : list A) :
  insertBy rank x l ≡ₚ x :: l.
Proof.
  induction l as [|y l IH]; simpl; [done|].
  destruct (rank x <=? rank y)%nat; [done|]. rewrite IH. apply perm_swap.
Qed.

Lemma sortBy_Permutation {A} (rank : A → nat) (l : list A) : sortBy rank l ≡ₚ l.
Proof.
  induction l as [|x l IH]; [done|].
  change (sortBy rank (x :: l)) with (insertBy rank x (sortBy rank l)).
  by rewrite insertBy_Permutation, IH.
Qed.

(** Whatever the order, the entries are the properties of the object. *)
Lemma entries_Permutation {R} (timing : Timing R) (w : World R) (subscriptions : GetResult) :
  entries timing w subscriptions ≡ₚ properties subscriptions.
Proof. apply sortBy_Permutation. Qed.

(** ** The loops of [handleEventNotifications] *)

Section Loop.

Context {R : Type}.
Variable network : string → RequestInit → World R → FetchResult * R.
Variable timing : Timing R.
Variable stub : Stub R.

(** [deliver] is the fan-out followed by the pruning, after the log line
    for an empty subscriber set. *)
Lemma deliver_unfold (fuel : nat) (max : JsNum) (e : Event)
    (subs : list (string * option string)) (w : World R) :
  deliver network timing stub fuel max e subs w
  = tbind (fanOut network timing fuel max e subs) (prune stub e)
      (mkWorld (remote_state w)
         (trace w ++ if (length subs =? 0)%nat
                     then [Log (NoSubscribers (bucketName e) (matchedRuleName e))]
                     else [])).
Proof.
  unfold deliver. destruct (length subs =? 0)%nat; [done|].
  unfold tbind at 1. unfold tret. by rewrite app_nil_r, world_eta.
Qed.

Lemma deliver_nobody (fuel : nat) (max : JsNum) (e : Event) (w : World R) :
  deliver network timing stub fuel max e [] w
  = Some (Returned tt,
          mkWorld (remote_state w)
            (trace w ++ [Log (NoSubscribers (bucketName e) (matchedRuleName e))])).
Proof. reflexivity. Qed.

(** The body of the outer loop, by the result of the lookup. *)
Lemma handleEvent_lookup (fuel : nat) (max : JsNum) (e : Event) (w : World R) :
  handleEvent network timing stub fuel max e w
  = let '(found, r) :=
      stub_getSubscriptions stub (Some (bucketName e)) (Some (matchedRuleName e)) None
                            (remote_state w) in
    let w1 := mkWorld r (trace w ++ [CallGet (bucketName e) (matchedRuleName e)]) in
    match found with
    | Returned subscriptions =>
        tbind (deliver network timing stub fuel max e (entries timing w1 subscriptions))
              (λ _, tret true) w1
    | Thrown err =>
        if isNotFound err
        then tbind (deliver network timing stub fuel max e []) (λ _, tret true) w1
        else Some (Returned false, mkWorld r (trace w1 ++ [Log ErrorGettingSubscriptions]))
    end.
Proof.
  unfold handleEvent, tbind at 1 2, emit, settled, call. simpl.
  destruct (stub_getSubscriptions stub _ _ _ _) as [[subs|err] r]; [done|].
  by destruct (isNotFound err).
Qed.

Lemma prune_rejected (e : Event) (id : string) (url : option string) (reason : JsError)
    (rest : list (string * option string * Outcome (Z * Body))) (w : World R) :
  prune stub e ((id, url, Thrown reason) :: rest) w
  = let t := trace w ++ pruneSteps e [(id, url, Thrown reason)] in
    match stub_deleteSubscription stub (bucketName e) (matchedRuleName e) id
                                  (remote_state w) with
    | (Returned _, r) => prune stub e rest (mkWorld r t)
    | (Thrown err, r) => Some (Thrown err, mkWorld r t)
    end.
Proof.
  unfold pruneSteps. simpl. unfold tbind, log, emit, call. simpl.
  rewrite <- !app_assoc. simpl.
  by destruct (stub_deleteSubscription stub _ _ _ _) as [[s|err] r].
Qed.

Lemma prune_fulfilled (e : Event) (id : string) (url : option string) (v : Z * Body)
    (rest : list (string * option string * Outcome (Z * Body))) (w : World R) :
  prune stub e ((id, url, Returned v) :: rest) w = prune stub e rest w.
Proof. reflexivity. Qed.

Lemma pruneSteps_app e l1 l2 : pruneSteps e (l1 ++ l2) = pruneSteps e l1 ++ pruneSteps e l2.
Proof. unfold pruneSteps. apply flat_map_app. Qed.

Lemma handleEvents_cons (fuel : nat) (max : JsNum) (e : Event) (rest : list Event)
    (w : World R) :
  handleEvents network timing stub fuel max (e :: rest) w
  = match handleEvent network timing stub fuel max e w with
    | Some (Returned true, w') => handleEvents network timing stub fuel max rest w'
    | Some (Returned false, w') => Some (Returned tt, w')
    | Some (Thrown err, w') => Some (Thrown err, w')
    | None => None
    end.
Proof.
  simpl. unfold tbind.
  destruct (handleEvent network timing stub fuel max e w) as [[[[|]|err] w']|]; done.
Qed.

Lemma handleEventNotifications_unfold (fuel : nat) (events : list Event) (env : Env)
    (w : World R) :
  handleEventNotifications network timing stub fuel events env w
  = match handleEvents network timing stub fuel (maxFailureCountOf env) events
            (mkWorld (remote_state w) (trace w ++ [Log (HandlingBatch (length events))])) with
    | Some (Returned _, w') => Some (Returned tt, w')
    | Some (Thrown err, w') =>
        Some (Returned tt, mkWorld (remote_state w') (trace w' ++ [Log (ErrorStack err)]))
    | None => None
    end.
Proof.
  unfold handleEventNotifications, tbind, settled, log, emit. simpl.
  by destruct (handleEvents _ _ _ _ _ _ _) as [[[u|err] w']|].
Qed.

(** ** Lookup failures and delete failures *)

(** C7.  When the lookup [stub.getSubscriptions(bucket, rule)] of one event
    throws, a [NotFoundError] (by class, or by message when it crossed the
    stub) counts as an empty subscriber set: nothing is posted, nothing is
    deleted, and the loop goes on with the next event.  Any other exception
    is logged and ends the handling of the batch: the lookup is not
    repeated and no later event is looked at. *)
Theorem lookup_failure_handling (fuel : nat) (max : JsNum) (e : Event)
    (rest : list Event) (w : World R) (err : JsError) (r : R) :
  stub_getSubscriptions stub (Some (bucketName e)) (Some (matchedRuleName e)) None
                        (remote_state w) = (Thrown err, r) →
  (isNotFound err = true →
     handleEvents network timing stub fuel max (e :: rest) w
     = handleEvents network timing stub fuel max rest
         (mkWorld r (trace w ++ [ CallGet (bucketName e) (matchedRuleName e);
                                  Log (NoSubscribers (bucketName e) (matchedRuleName e)) ]))) ∧
  (isNotFound err = false →
     handleEvents network timing stub fuel max (e :: rest) w
     = Some (Returned tt,
             mkWorld r (trace w ++ [ CallGet (bucketName e) (matchedRuleName e);
                                     Log ErrorGettingSubscriptions ])) ∧
     ∀ env,
       handleEventNotifications network timing stub fuel (e :: rest) env w
       = Some (Returned tt,
               mkWorld r (trace w ++ [ Log (HandlingBatch (S (length rest)));
                                       CallGet (bucketName e) (matchedRuleName e);
                                       Log ErrorGettingSubscriptions ]))).
Proof.
  intros Hget. split.
  - intros Hnf. rewrite handleEvents_cons, handleEvent_lookup, Hget. cbv zeta.
    rewrite Hnf. unfold tbind. rewrite deliver_nobody. simpl.
    by rewrite <- app_assoc.
  - intros Hnf. split.
    + rewrite handleEvents_cons, handleEvent_lookup, Hget. cbv zeta.
      rewrite Hnf. simpl. by rewrite <- app_assoc.
    + intros env. rewrite handleEventNotifications_unfold, handleEvents_cons,
        handleEvent_lookup. simpl remote_state. rewrite Hget. cbv zeta.
      rewrite Hnf. simpl. by rewrite <- !app_assoc.
Qed.

(** C3, as the code has it.  The deliveries of one event settle with one
    outcome for each entry of the subscriber map, in the order of
    [Object.entries].  The engine then goes through the outcomes in that
    order: a fulfilled one is passed over; for a rejected one it calls
    [stub.deleteSubscription(bucket, rule, id)], and goes on to the next
    outcome when the call returns.  When the call throws, the loop over the
    outcomes ends with that exception, so that the rejected subscribers that
    follow are not deleted; the loop over the events ends with it too, so
    that the remaining events are not processed; and the handler around the
    loops logs it and returns. *)
Theorem unsubscribe_until_delete_fails (fuel : nat) (max : JsNum) (e : Event)
    (rest : list Event) (w : World R) (subscriptions : GetResult) (r : R)
    (outcomes : list (string * option string * Outcome (Z * Body))) (w2 : World R) :
  stub_getSubscriptions stub (Some (bucketName e)) (Some (matchedRuleName e)) None
                        (remote_state w) = (Returned subscriptions, r) →
  fanOut network timing fuel max e
    (entries timing (mkWorld r (trace w ++ [CallGet (bucketName e) (matchedRuleName e)]))
             subscriptions)
    (mkWorld r (trace w ++ CallGet (bucketName e) (matchedRuleName e)
                  :: if (length (properties subscriptions) =? 0)%nat
                     then [Log (NoSubscribers (bucketName e) (matchedRuleName e))]
                     else []))
  = Some (Returned outcomes, w2) →
  outcomes.*1
  = entries timing (mkWorld r (trace w ++ [CallGet (bucketName e) (matchedRuleName e)]))
            subscriptions ∧
  (∀ id url v post (w0 : World R),
     prune stub e ((id, url, Returned v) :: post) w0 = prune stub e post w0) ∧
  (∀ id url reason post (w0 : World R),
     prune stub e ((id, url, Thrown reason) :: post) w0
     = match stub_deleteSubscription stub (bucketName e) (matchedRuleName e) id
                                     (remote_state w0) with
       | (Returned _, r') =>
           prune stub e post
             (mkWorld r' (trace w0 ++ [ Log (Reason reason);
                                        Log (Removing id url (matchedRuleName e));
                                        CallDelete (bucketName e) (matchedRuleName e) id ]))
       | (Thrown err, r') =>
           Some (Thrown err,
                 mkWorld r' (trace w0 ++ [ Log (Reason reason);
                                           Log (Removing id url (matchedRuleName e));
                                           CallDelete (bucketName e) (matchedRuleName e) id ]))
       end) ∧
  (∀ w3, prune stub e outcomes w2 = Some (Returned tt, w3) →
         handleEvents network timing stub fuel max (e :: rest) w
         = handleEvents network timing stub fuel max rest w3) ∧
  (∀ err w3, prune stub e outcomes w2 = Some (Thrown err, w3) →
             handleEvents network timing stub fuel max (e :: rest) w
             = Some (Thrown err, w3)) ∧
  (∀ events env (w0 w' : World R) err,
     handleEvents network timing stub fuel (maxFailureCountOf env) events
       (mkWorld (remote_state w0) (trace w0 ++ [Log (HandlingBatch (length events))]))
     = Some (Thrown err, w') →
     handleEventNotifications network timing stub fuel events env w0
     = Some (Returned tt, mkWorld (remote_state w') (trace w' ++ [Log (ErrorStack err)]))).
Proof.
  intros Hget Hfan.
  assert (Hev : ∀ o w3, prune stub e outcomes w2 = Some (o, w3) →
            handleEvent network timing stub fuel max e w
            = match o with
              | Returned _ => Some (Returned true, w3)
              | Thrown err => Some (Thrown err, w3)
              end).
  { intros o w3 Hprune. rewrite handleEvent_lookup, Hget. cbv zeta. unfold tbind at 1.
    rewrite deliver_unfold. simpl remote_state. simpl trace.
    rewrite <- app_assoc. simpl.
    assert (Hlen : length (entries timing
                     (mkWorld r (trace w ++ [CallGet (bucketName e) (matchedRuleName e)]))
                     subscriptions)
                   = length (properties subscriptions))
      by (by rewrite entries_Permutation).
    rewrite Hlen. unfold tbind at 1. rewrite Hfan, Hprune. by destruct o. }
  split; [|split; [|split; [|split; [|split]]]].
  - destruct (fanOut_entries _ _ _ _ _ _ _ _ _ Hfan) as (outcomes' & [= <-] & H). done.
  - intros. apply prune_fulfilled.
  - intros id url reason post w0. rewrite prune_rejected. cbv zeta. unfold pruneSteps.
    simpl. by destruct (stub_deleteSubscription stub _ _ _ _) as [[s|err] r'].
  - intros w3 Hprune. by rewrite handleEvents_cons, (Hev _ _ Hprune).
  - intros err w3 Hprune. by rewrite handleEvents_cons, (Hev _ _ Hprune).
  - intros events env w0 w' err H. by rewrite handleEventNotifications_unfold, H.
Qed.

End Loop.

(** A lookup on a bucket that has no record: no subscribers. *)
Lemma lookup_failure_handling_witness :
  handleEvents Sample.downNetwork Sample.inTurn durableObjectStub 0 (Num 5)
    [Sample.secondEvent] (mkWorld Sample.oneSubscriber [])
  = Some (Returned tt,
          mkWorld Sample.oneSubscriber [CallGet "b2" "r2"; Log (NoSubscribers "b2" "r2")]).
Proof.
  refine (proj1 (lookup_failure_handling Sample.downNetwork Sample.inTurn durableObjectStub
                   0 (Num 5) Sample.secondEvent [] (mkWorld Sample.oneSubscriber []) _ _ _)
                _);
    reflexivity.
Defined.

(** A lookup that fails otherwise: the batch ends after the first event. *)
Example lookup_failure_other_than_not_found :
  handleEventNotifications Sample.alwaysDown Sample.inTurn Sample.overloadedStub 0
    [Sample.firstEvent; Sample.secondEvent] (mkEnv None) (mkWorld tt [])
  = Some (Returned tt,
          mkWorld tt [Log (HandlingBatch 2); CallGet "b1" "r1"; Log ErrorGettingSubscriptions]).
Proof. reflexivity. Qed.

(** Two deliveries exhaust a budget of two attempts, and the first delete
    finds its subscription gone: the loop over the events ends there, with
    no delete for the second subscriber and no lookup for the second
    event. *)
Lemma unsubscribe_until_delete_fails_witness :
  ∃ err w3,
    handleEvents Sample.alwaysDown Sample.inRotation Sample.goneStub 2 (Num 2)
      [Sample.firstEvent; Sample.secondEvent] (mkWorld tt [])
    = Some (Thrown err, w3) ∧
    isNotFound err = true ∧
    length (List.filter isFetch (trace w3)) = 4%nat ∧
    List.filter isStubCall (trace w3)
    = [ CallGet "b1" "r1"; CallDelete "b1" "r1" Sample.idX ].
Proof.
  edestruct (unsubscribe_until_delete_fails Sample.alwaysDown Sample.inRotation
               Sample.goneStub 2 (Num 2) Sample.firstEvent [Sample.secondEvent]
               (mkWorld tt []))
    as (_ & _ & _ & _ & Hfails & _);
    [reflexivity | vm_compute; reflexivity |].
  eexists _, _. split; [apply Hfails; vm_compute; reflexivity|].
  repeat split; reflexivity.
Defined.

(** C3, as stated, fails.  Both subscribers of the first event exhaust their
    budget of one attempt; while the engine awaits, another client deletes
    subscription [idX].  The engine's own delete of [idX] then fails with
    [NotFoundError]: [deleteSubscription] is never called for [idY], which
    stays subscribed, and the second event of the batch is never looked up. *)
Lemma delete_failure_aborts_batch :
  outcomeOf Sample.racingRun = Some (Returned tt) ∧
  steps <$> traceOf Sample.racingRun
  = Some [ CallGet "b1" "r1";
           Fetch (Some "https://x.example/hook") (mkInit "POST" [Sample.firstEvent]);
           Fetch (Some "https://y.example/hook") (mkInit "POST" [Sample.firstEvent]);
           Sleep 0; Sleep 0;
           CallDelete "b1" "r1" Sample.idX ] ∧
  last <$> traceOf Sample.racingRun
  = Some (Some (Log (ErrorStack (acrossStub (NotFoundError
                  ("ID " +:+ Sample.idX +:+ " not found for b1/r1")))))) ∧
  subscribedAfter Sample.racingRun "b1" "r1" Sample.idY = Some true ∧
  subscribedAfter Sample.racingRun "b2" "r2" Sample.idZ = Some true.
Proof. repeat split; vm_compute; reflexivity. Qed.

(** ** A count that admits no attempt *)



Section NoAttempts.

Variable network : string → RequestInit → World Storage → FetchResult * Storage.
Variable timing : Timing Storage.





Lemma stub_get_rule (st : Storage) (b r : string) :
  b ≠ "" → r ≠ "" →
  stub_getSubscriptions durableObjectStub (Some b) (Some r) None st
  = match lookupRule st b r with
    | Some subs => (Returned (SubscriptionsOf subs), st)
    | None =>
        (Thrown (acrossStub (NotFoundError
           (match st !! b with
            | Some _ => "Rule " +:+ r +:+ " not found for " +:+ b
            | None => "No rules found for " +:+ b
            end))), st)
    end.
Proof.
  intros Hb Hr. simpl. unfold viaStub, getSubscriptions, lookupRule, bind, storage_get, ret.
  rewrite (falsy_Some b Hb), (falsy_Some r Hr). simpl.
  destruct (st !! b) as [rules|]; simpl; [|done].
  by destruct (rules !! r).
Qed.







End NoAttempts.





(** [MAX_FAILURE_COUNT = "0"] admits no attempt either; the shipped default
    does.  White space that [parseInt] skips is no obstacle to a count: a
    no-break space before the digits is skipped like a blank. *)
Example noAttempts_zero : noAttempts (maxFailureCountOf (mkEnv (Some "0"))).
Proof. vm_compute. discriminate. Qed.

Example default_count : maxFailureCountOf (mkEnv None) = Num 5.
Proof. reflexivity. Qed.

Example count_after_no_break_space :
  maxFailureCountOf (mkEnv (Some (String "194" (String "160" "2")))) = Num 2.
Proof. reflexivity. Qed.

Example count_beyond_safe_integers :
  numToString (maxFailureCountOf (mkEnv (Some "-9007199254740993")))
  = "-9007199254740992".
Proof. vm_compute. reflexivity. Qed.
(** ** Further properties *)

Lemma lookupRule_insert (st : Storage) (b b' r' : string) (rules : BucketRecord) :
  lookupRule (<[b := rules]> st) b' r'
  = if decide (b = b') then rules !! r' else lookupRule st b' r'.
Proof.
  unfold lookupRule. case_decide as E.
  - subst. by rewrite lookup_insert_eq.
  - by rewrite lookup_insert_ne.
Qed.

Lemma lookupRule_delete (st : Storage) (b b' r' : string) :
  lookupRule (delete b st) b' r'
  = if decide (b = b') then None else lookupRule st b' r'.
Proof.
  unfold lookupRule. case_decide as E.
  - subst. by rewrite lookup_delete_eq.
  - by rewrite lookup_delete_ne.
Qed.

Lemma invariants_insert (st : Storage) (b : string) (rules : BucketRecord) :
  noEmptyRecord st → noEmptyRule st →
  rules ≠ ∅ → (∀ r subs, rules !! r = Some subs → subs ≠ ∅) →
  noEmptyRecord (<[b := rules]> st) ∧ noEmptyRule (<[b := rules]> st).
Proof.
  intros I1 I2 Hne Hrules. split.
  - intros b' rules' H. destruct (decide (b = b')) as [->|E].
    + rewrite lookup_insert_eq in H. congruence.
    + rewrite lookup_insert_ne in H by done. by eapply I1.
  - intros b' r' subs H. rewrite lookupRule_insert in H. case_decide.
    + by eapply Hrules.
    + by eapply I2.
Qed.

Lemma invariants_delete (st : Storage) (b : string) :
  noEmptyRecord st → noEmptyRule st →
  noEmptyRecord (delete b st) ∧ noEmptyRule (delete b st).
Proof.
  intros I1 I2. split.
  - intros b' rules' H. destruct (decide (b = b')) as [->|E].
    + by rewrite lookup_delete_eq in H.
    + rewrite lookup_delete_ne in H by done. by eapply I1.
  - intros b' r' subs H. rewrite lookupRule_delete in H. case_decide; [done|].
    by eapply I2.
Qed.

Lemma createSubscription_keeps_invariants (canParse : string → bool) (st : Storage)
    (id b r : string) (subscription : Subscription) :
  r ≠ "__proto__" →
  noEmptyRecord st → noEmptyRule st →
  noEmptyRecord (snd (createSubscription canParse id b r subscription st)) ∧
  noEmptyRule (snd (createSubscription canParse id b r subscription st)).
Proof.
  intros Hr I1 I2.
  unfold createSubscription, bind, storage_get, storage_put, ret, throw.
  destruct (noUrl subscription); [done|].
  destruct (canParse _); simpl; [|done].
  assert (Hkeep : ∀ r' subs, default ∅ (st !! b) !! r' = Some subs → subs ≠ ∅).
  { intros r' subs H. destruct (st !! b) as [rules|] eqn:Hb; simpl in H.
    - apply (I2 b r'). unfold lookupRule. by rewrite Hb.
    - by rewrite lookup_empty in H. }
  assert (Hstore : ∀ subs0 : Rule,
            (subs0 = ∅ ∨ default ∅ (st !! b) !! r = Some subs0) →
            let st' := <[b := <[r := <[id := {[ "url" := str (subscription !! "url") ]}]> subs0]>
                                (default ∅ (st !! b))]> st in
            noEmptyRecord st' ∧ noEmptyRule st').
  { intros subs0 _. apply invariants_insert; [done|done|apply insert_non_empty|].
    intros r' subs H. destruct (decide (r = r')) as [->|E].
    - rewrite lookup_insert_eq in H. injection H as <-. apply insert_non_empty.
    - rewrite lookup_insert_ne in H by done. by eapply Hkeep. }
  unfold readProperty.
  destruct (default ∅ (st !! b) !! r) as [subs0|] eqn:Hr0; simpl.
  - apply Hstore. by right.
  - destruct (inheritedName r) eqn:Hin; simpl.
    + destruct (String.eqb r "__proto__") eqn:E; [|done].
      by apply String.eqb_eq in E.
    + apply Hstore. by left.
Qed.

Lemma deleteSubscription_keeps_invariants (st : Storage) (b r i : string) :
  noEmptyRecord st → noEmptyRule st →
  noEmptyRecord (snd (deleteSubscription b r i st)) ∧
  noEmptyRule (snd (deleteSubscription b r i st)).
Proof.
  intros I1 I2.
  destruct (lookupSubscription st b r i) as [s|] eqn:L.
  2:{ by rewrite (proj2 (deleteSubscription_absent st b r i L)). }
  unfold lookupSubscription, lookupRule in L.
  destruct (st !! b) as [rules|] eqn:Hb; simpl in L; [|done].
  destruct (rules !! r) as [subs|] eqn:Hr; simpl in L; [|done].
  rewrite (deleteSubscription_found st b r i rules subs s Hb Hr L). cbv zeta. simpl.
  assert (Hrules : ∀ r' subs', rules !! r' = Some subs' → subs' ≠ ∅).
  { intros r' subs' H. apply (I2 b r'). unfold lookupRule. by rewrite Hb. }
  case_decide as E1; [by apply invariants_delete|].
  apply invariants_insert; [done|done|done|].
  intros r' subs' H. case_decide as E2.
  - destruct (decide (r = r')) as [->|E].
    + by rewrite lookup_delete_eq in H.
    + rewrite lookup_delete_ne in H by done. by eapply Hrules.
  - destruct (decide (r = r')) as [->|E].
    + rewrite lookup_insert_eq in H. congruence.
    + rewrite lookup_insert_ne in H by done. by eapply Hrules.
Qed.

Lemma setSubscriptions_keeps_invariants (st : Storage) (b r : string)
    (subscriptions : Rule) :
  subscriptions ≠ ∅ →
  noEmptyRecord st → noEmptyRule st →
  noEmptyRecord (snd (setSubscriptions b r subscriptions st)) ∧
  noEmptyRule (snd (setSubscriptions b r subscriptions st)).
Proof.
  intros Hne I1 I2.
  destruct (forallb validEntry (map_to_list subscriptions)) eqn:V.
  - unfold setSubscriptions, bind. rewrite (forEach_checks_all_valid _ st V).
    unfold storage_get, storage_put, throw.
    destruct (st !! b) as [rules|] eqn:Hb; simpl; [|done].
    assert (Hrules : ∀ r' subs', rules !! r' = Some subs' → subs' ≠ ∅).
    { intros r' subs' H. apply (I2 b r'). unfold lookupRule. by rewrite Hb. }
    destruct (String.eqb r "__proto__").
    + apply invariants_insert; [done|done|by eapply I1|done].
    + apply invariants_insert; [done|done|apply insert_non_empty|].
      intros r' subs H. destruct (decide (r = r')) as [->|E].
      * rewrite lookup_insert_eq in H. congruence.
      * rewrite lookup_insert_ne in H by done. by eapply Hrules.
  - destruct (forEach_checks_some_invalid _ st V) as [msg Hmsg].
    unfold setSubscriptions, bind. by rewrite Hmsg.
Qed.

(** X1.  The emptiness invariants are preserved by [createSubscription]
    (for a rule name other than [__proto__]), by [deleteSubscription], and by
    [setSubscriptions] with a map that is not empty: from a store in which no
    bucket record and no rule is empty these operations, whether they return
    or throw, leave a store in which none is. *)
Theorem registry_keeps_invariants (canParse : string → bool) (st : Storage) :
  noEmptyRecord st → noEmptyRule st →
  (∀ id b r subscription,
     r ≠ "__proto__" →
     noEmptyRecord (snd (createSubscription canParse id b r subscription st)) ∧
     noEmptyRule (snd (createSubscription canParse id b r subscription st))) ∧
  (∀ b r i,
     noEmptyRecord (snd (deleteSubscription b r i st)) ∧
     noEmptyRule (snd (deleteSubscription b r i st))) ∧
  (∀ b r (subscriptions : Rule),
     subscriptions ≠ ∅ →
     noEmptyRecord (snd (setSubscriptions b r subscriptions st)) ∧
     noEmptyRule (snd (setSubscriptions b r subscriptions st))).
Proof.
  intros I1 I2. split; [|split].
  - intros. by apply createSubscription_keeps_invariants.
  - intros. by apply deleteSubscription_keeps_invariants.
  - intros. by apply setSubscriptions_keeps_invariants.
Qed.

(** Deleting the only subscription of the store with one subscriber. *)
Lemma registry_keeps_invariants_witness :
  noEmptyRecord (snd (deleteSubscription "b1" "r1" Sample.idX Sample.oneSubscriber)) ∧
  noEmptyRule (snd (deleteSubscription "b1" "r1" Sample.idX Sample.oneSubscriber)).
Proof.
  apply (registry_keeps_invariants Sample.canParse Sample.oneSubscriber
           (proj1 oneSubscriber_invariants) (proj2 oneSubscriber_invariants)).
Defined.

(** X2.  Successes produce no registry mutation: when every delivery of an
    event was fulfilled, the pruning loop makes no call through the stub and
    leaves the world as it is. *)
Theorem prune_spares_fulfilled {R : Type} (stub : Stub R) (e : Event)
    (outcomes : list (string * option string * Outcome (Z * Body))) (w : World R) :
  Forall (λ x, ∃ v, x.2 = Returned v) outcomes →
  prune stub e outcomes w = Some (Returned tt, w).
Proof.
  induction 1 as [|[[id url] o] l [v Hv] _ IH]; [done|].
  simpl in Hv. subst o. by rewrite prune_fulfilled.
Qed.

(** One fulfilled delivery, against a stub whose every call would fail. *)
Lemma prune_spares_fulfilled_witness :
  prune Sample.overloadedStub Sample.firstEvent
        [(Sample.idX, Some "https://x.example/hook", Returned (200, Text "ok"))]
        (mkWorld tt [])
  = Some (Returned tt, mkWorld tt []).
Proof.
  apply (prune_spares_fulfilled Sample.overloadedStub Sample.firstEvent).
  repeat constructor. by eexists.
Defined.

(** X3.  A first attempt that is answered 2xx is the only one: with a
    positive maximum count, [fetchWithRetry] makes one request, does not
    sleep, and returns the response, whose body it does not read. *)
Theorem fetchWithRetry_first_success {R : Type}
    (network : string → RequestInit → World R → FetchResult * R)
    (fuel : nat) (url : string) (options : RequestInit) (max : Z) (w : World R)
    (status : Z) (body : Body) (r : R) :
  0 < max →
  network url options (mkWorld (remote_state w) (trace w ++ [Fetch (Some url) options]))
  = (Response status body, r) →
  ok status = true →
  fetchWithRetry network (S fuel) (Some url) options (Num max) w
  = Some (Returned (status, body),
          mkWorld r (trace w ++ [ Fetch (Some url) options;
                                  Log (PostSucceeded (Some url) status) ])).
Proof.
  intros Hmax Hnet Hok. unfold fetchWithRetry. rewrite retryLoop_step.
  assert (Js.lt 0 (Num max) = true) as -> by (simpl; by apply Z.ltb_lt).
  unfold tbind at 1. rewrite fetch_url. cbv zeta. rewrite Hnet. cbn [fst snd trace].
  rewrite Hok. unfold tbind, log, emit, tret. simpl. by rewrite <- app_assoc.
Qed.

(** An endpoint that answers 200 at once. *)
Lemma fetchWithRetry_first_success_witness :
  fetchWithRetry (λ _ _ _, (Response 200 (Text "ok"), tt)) 1 (Some "https://x.example/hook")
                 (mkInit "POST" [Sample.firstEvent]) (Num 5) (mkWorld tt [])
  = Some (Returned (200, Text "ok"),
          mkWorld tt [ Fetch (Some "https://x.example/hook")
                             (mkInit "POST" [Sample.firstEvent]);
                       Log (PostSucceeded (Some "https://x.example/hook") 200) ]).
Proof.
  apply (fetchWithRetry_first_success (λ _ _ _, (Response 200 (Text "ok"), tt)) 0
           "https://x.example/hook" (mkInit "POST" [Sample.firstEvent]) 5 (mkWorld tt [])
           200 (Text "ok") tt); [lia | reflexivity | reflexivity].
Defined.

Import Http.

(** * Properties of the front door *)

(** ** Splitting and joining *)

Lemma splitOn_without (sep : ascii) (s : string) :
  without sep s = true → splitOn sep s = (s, []).
Proof.
  induction s as [|c s IH]; simpl; [done|].
  intros [Hc Hs]%andb_prop. rewrite (IH Hs).
  apply negb_true_iff in Hc. by rewrite Hc.
Qed.

Lemma split_cons (sep : ascii) (a b : string) :
  without sep a = true →
  split sep (a +:+ String sep b) = a :: split sep b.
Proof.
  unfold split. induction a as [|c a IH]; simpl.
  - intros _. rewrite Ascii.eqb_refl. by destruct (splitOn sep b).
  - intros [Hc Ha]%andb_prop. apply negb_true_iff in Hc. rewrite Hc.
    specialize (IH Ha). destruct (splitOn sep (a +:+ String sep b)) as [p ps].
    by injection IH as -> ->.
Qed.

Lemma split_without (sep : ascii) (s : string) :
  without sep s = true → split sep s = [s].
Proof. intros H. unfold split. by rewrite (splitOn_without sep s H). Qed.

Lemma join_cons (sep : ascii) (p q : string) (rest : list string) :
  join sep (p :: q :: rest) = p +:+ String sep (join sep (q :: rest)).
Proof. reflexivity. Qed.

(** Splitting what was joined gives the pieces back, when no piece holds
    the separator. *)
Lemma split_join (sep : ascii) (pieces : list string) :
  pieces ≠ [] →
  Forall (λ p, without sep p = true) pieces →
  split sep (join sep pieces) = pieces.
Proof.
  induction pieces as [|p rest IH]; [done|]. intros _ Hall.
  apply Forall_cons in Hall as [Hp Hrest].
  destruct rest as [|q rest].
  - simpl. by apply split_without.
  - rewrite join_cons, split_cons by done. f_equal. by apply IH.
Qed.

(** Joining what was split gives the string back. *)
Lemma join_split (sep : ascii) (s : string) : join sep (split sep s) = s.
Proof.
  unfold split. induction s as [|c s IH]; [done|].
  cbn [splitOn]. destruct (splitOn sep s) as [p ps]. destruct (Ascii.eqb c sep) eqn:E.
  - apply Ascii.eqb_eq in E. subst c. rewrite join_cons, IH. done.
  - destruct ps as [|q ps].
    + simpl in *. by rewrite IH.
    + rewrite join_cons in *. by rewrite <- IH.
Qed.

(** ** The signature check *)

(** An accepted request carries exactly [v1=] and the HMAC. *)
Lemma verifySignature_sound (hmac : string → string → string)
    (headers : gmap string string) (body secret : string) :
  (verifySignature hmac headers body secret).1 = true →
  headers !! EVENT_NOTIFICATION_SIGNATURE_HEADER = Some ("v1=" +:+ hmac secret body).
Proof.
  unfold verifySignature.
  destruct (headers !! EVENT_NOTIFICATION_SIGNATURE_HEADER) as [sig|]; [|done].
  pose proof (join_split "=" sig) as Hjoin.
  destruct (split "=" sig) as [|v [|r [|? ?]]]; try done.
  destruct (String.eqb v "v1") eqn:Ev; simpl; [|done].
  destruct (String.eqb r (hmac secret body)) eqn:Er; simpl; [|done].
  intros _. apply String.eqb_eq in Ev, Er. subst v r.
  by rewrite <- Hjoin.
Qed.

Lemma verifySignature_complete (hmac : string → string → string)
    (headers : gmap string string) (body secret : string) :
  without "=" (hmac secret body) = true →
  headers !! EVENT_NOTIFICATION_SIGNATURE_HEADER = Some ("v1=" +:+ hmac secret body) →
  verifySignature hmac headers body secret = (true, SignatureIsValid).
Proof.
  intros Hhex Hsig. unfold verifySignature. rewrite Hsig.
  change ("v1=" +:+ hmac secret body) with ("v1" +:+ String "=" (hmac secret body)).
  rewrite split_cons by done. rewrite (split_without _ _ Hhex).
  simpl. by rewrite String.eqb_refl.
Qed.

(** X4.  [verifySignature] accepts a request only if its signature header
    is exactly [v1=] followed by the hex HMAC of the body under the signing
    secret; and, the hex digest having no [=] in it, it accepts every such
    request. *)
Theorem verifySignature_accepts_exactly (hmac : string → string → string)
    (headers : gmap string string) (body secret : string) :
  without "=" (hmac secret body) = true →
  (verifySignature hmac headers body secret).1 = true
  ↔ headers !! EVENT_NOTIFICATION_SIGNATURE_HEADER = Some ("v1=" +:+ hmac secret body).
Proof.
  intros Hhex. split.
  - apply verifySignature_sound.
  - intros H. by rewrite (verifySignature_complete hmac headers body secret Hhex H).
Qed.

(** A request signed with the sample secret. *)
Lemma verifySignature_accepts_exactly_witness :
  (verifySignature SampleHttp.hmac
     {[ EVENT_NOTIFICATION_SIGNATURE_HEADER := "v1=2c8f31" ]} "body" "secret").1 = true.
Proof.
  apply (verifySignature_accepts_exactly SampleHttp.hmac _ "body" "secret");
    reflexivity.
Defined.

(** ** The router *)

Lemma getSubscriptions_pure (x y z : option string) (st : Storage) :
  snd (getSubscriptions x y z st) = st.
Proof.
  unfold getSubscriptions, bind, storage_list, storage_get, ret, throw.
  destruct (falsy x); [done|].
  destruct (st !! str x) as [rules|]; [|done].
  destruct (falsy y); [done|].
  destruct (rules !! str y) as [subs|]; [|done].
  destruct (falsy z); [done|].
  by destruct (subs !! str z).
Qed.

Lemma createSubscription_thrown (canParse : string → bool) (id b r : string)
    (subscription : Subscription) (st st' : Storage) (e : JsError) :
  createSubscription canParse id b r subscription st = (Thrown e, st') → st' = st.
Proof.
  unfold createSubscription, bind, storage_get, storage_put, ret, throw.
  destruct (noUrl subscription); [by intros [= _ <-]|].
  destruct (canParse _); simpl; [|by intros [= _ <-]].
  destruct (readProperty _ r); try done.
  destruct (String.eqb r "__proto__"); [done|]. by intros [= _ <-].
Qed.

Lemma deleteSubscription_thrown (b r i : string) (st st' : Storage) (e : JsError) :
  deleteSubscription b r i st = (Thrown e, st') → st' = st.
Proof.
  intros H. destruct (lookupSubscription st b r i) as [s|] eqn:L.
  - unfold lookupSubscription, lookupRule in L.
    destruct (st !! b) as [rules|] eqn:Hb; simpl in L; [|done].
    destruct (rules !! r) as [subs|] eqn:Hr; simpl in L; [|done].
    by rewrite (deleteSubscription_found st b r i rules subs s Hb Hr L) in H.
  - destruct (deleteSubscription_absent st b r i L) as [_ Hst].
    rewrite H in Hst. done.
Qed.

Lemma viaStub_state {A} (m : Async Storage A) (st : Storage) :
  snd (viaStub m st) = snd (m st).
Proof. unfold viaStub. by destruct (m st) as [[a|e] st']. Qed.

Lemma viaStub_thrown {A} (m : Async Storage A) (st st' : Storage) (e : JsError) :
  viaStub m st = (Thrown e, st') → ∃ e0, m st = (Thrown e0, st') ∧ e = acrossStub e0.
Proof.
  unfold viaStub. destruct (m st) as [[a|e0] st0]; [done|].
  intros [= <- <-]. by exists e0.
Qed.

(** Control requests are all or nothing, and only POST and DELETE write:
    against the [EventSubscriptions] stub, a request that
    [handleSubscriptionRequest] ends with an exception leaves the store as
    it was, and so does every request whose method is neither POST nor
    DELETE. *)
Lemma router_frame (canParse : string → bool) (id : string) (url : Url)
    (method : string) (payload : Json) (st : Storage) :
  (∀ e, fst (handleSubscriptionRequest url method payload
               (eventSubscriptionsStub canParse id) st) = Thrown e →
        snd (handleSubscriptionRequest url method payload
               (eventSubscriptionsStub canParse id) st) = st) ∧
  (String.eqb method "POST" = false ∧ String.eqb method "DELETE" = false →
   snd (handleSubscriptionRequest url method payload
          (eventSubscriptionsStub canParse id) st) = st).
Proof.
  unfold handleSubscriptionRequest.
  set (parts := split "/" (pathname url)).
  destruct (bool_decide (parts !! 1%nat = Some "@subscriptions")); simpl; [|done].
  destruct (String.eqb method "GET" || String.eqb method "HEAD") eqn:Hread.
  { assert (Hst : ∀ reply : GetResult → Reply,
              snd (bind (viaStub (getSubscriptions (parts !! 2%nat) (parts !! 3%nat)
                                                   (parts !! 4%nat)))
                        (λ result, ret (reply result)) st) = st).
    { intros reply. unfold bind.
      pose proof (viaStub_state (getSubscriptions (parts !! 2%nat) (parts !! 3%nat)
                                                  (parts !! 4%nat)) st) as H.
      rewrite getSubscriptions_pure in H.
      by destruct (viaStub _ st) as [[a|e] st']. }
    split; intros; apply Hst. }
  destruct (falsy (parts !! 2%nat) || falsy (parts !! 3%nat)); [done|].
  destruct (String.eqb method "POST") eqn:Hpost.
  { split; [|by intros [? ?]].
    destruct payload as [| |fields events]; try done.
    unfold bind. simpl.
    destruct (viaStub _ st) as [[a|e0] st'] eqn:Hv; [done|].
    intros e _. apply viaStub_thrown in Hv as (e1 & Hv & _).
    simpl. by eapply createSubscription_thrown. }
  destruct (String.eqb method "DELETE") eqn:Hdel; [|done].
  split; [|by intros [? ?]].
  destruct (falsy (parts !! 4%nat)); [done|].
  unfold bind. simpl.
  destruct (viaStub _ st) as [[a|e0] st'] eqn:Hv; [done|].
  intros e _. apply viaStub_thrown in Hv as (e1 & Hv & _).
  simpl. by eapply deleteSubscription_thrown.
Qed.

(** ** The [fetch] handler *)

Lemma control_parts (segments : list string) :
  Forall (λ p, without "/" p = true) segments →
  split "/" (controlPath segments) = "" :: "@subscriptions" :: segments.
Proof.
  intros H. unfold controlPath. apply split_join; [done|].
  by repeat apply Forall_cons_2.
Qed.

Lemma isNotFound_acrossStub (msg : string) :
  isNotFound (acrossStub (NotFoundError msg)) = true.
Proof. reflexivity. Qed.

Lemma statusOfError_not_found (e : JsError) :
  isNotFound e = true → statusOfError e = HTTP_STATUS_NOT_FOUND.
Proof. intros H. unfold statusOfError. by rewrite H. Qed.

Lemma statusOfError_cases (e : JsError) :
  statusOfError e = 404 ∨ statusOfError e = 400.
Proof.
  unfold statusOfError. destruct (isNotFound e); [by left|].
  destruct (isMethodNotAllowed e); [by left | by right].
Qed.

Section Handler.

Variable hmac : string → string → string.
Variable parseJson : string → option Json.
Variable canParse : string → bool.
Variable network : string → RequestInit → World Storage → FetchResult * Storage.
Variable timing : Timing Storage.

Implicit Types (request : Request) (env : WorkerEnv) (w : World Storage).

Lemma fetch_no_secret fuel id request env w :
  SIGNING_SECRET env = None →
  Http.fetch hmac parseJson canParse network timing fuel id request env w
  = (Returned (mkResponse 500 NoBody, None), w).
Proof. intros H. unfold Http.fetch. by rewrite H. Qed.

Lemma fetch_unsigned fuel id request env w secret :
  SIGNING_SECRET env = Some secret →
  (verifySignature hmac (requestHeaders request) (requestText request) secret).1 = false →
  Http.fetch hmac parseJson canParse network timing fuel id request env w
  = (Returned (mkResponse 401 NoBody, None), w).
Proof. intros H1 H2. unfold Http.fetch. by rewrite H1, H2. Qed.

(** A signed request whose body could be read, on a control path. *)
Lemma fetch_control fuel id request env w secret payload :
  SIGNING_SECRET env = Some secret →
  (verifySignature hmac (requestHeaders request) (requestText request) secret).1 = true →
  (if String.eqb (requestMethod request) "POST"
      && (0 <? String.length (requestText request))%nat
   then parseJson (requestText request) else Some JsonNull) = Some payload →
  String.prefix "/@" (pathname (requestUrl request)) = true →
  Http.fetch hmac parseJson canParse network timing fuel id request env w
  = match handleSubscriptionRequest (requestUrl request) (requestMethod request) payload
            (eventSubscriptionsStub canParse id) (remote_state w) with
    | (Returned reply, st') =>
        (Returned (responseOfReply reply, None), mkWorld st' (trace w))
    | (Thrown e, st') =>
        (Returned (mkResponse (statusOfError e) (TextBody (message e)), None),
         mkWorld st' (trace w))
    end.
Proof.
  intros H1 H2 H3 H4. unfold Http.fetch. rewrite H1, H2. cbn [negb].
  rewrite H3, H4. unfold onStorage.
  by destruct (handleSubscriptionRequest _ _ _ _ _) as [[reply|e] st'].
Qed.

(** X6.  Nothing gets past the signature check: without a configured
    secret the handler answers 500, and a request whose signature header is
    not [v1=] followed by the HMAC of its body under the secret is answered
    401; in both cases the registry is untouched, no request is made and
    nothing is handed to [ctx.waitUntil]. *)
Theorem unsigned_request_rejected (fuel : nat) (id : string) request env w :
  (SIGNING_SECRET env = None →
   Http.fetch hmac parseJson canParse network timing fuel id request env w
   = (Returned (mkResponse 500 NoBody, None), w)) ∧
  (∀ secret,
     SIGNING_SECRET env = Some secret →
     requestHeaders request !! EVENT_NOTIFICATION_SIGNATURE_HEADER
     ≠ Some ("v1=" +:+ hmac secret (requestText request)) →
     Http.fetch hmac parseJson canParse network timing fuel id request env w
     = (Returned (mkResponse 401 NoBody, None), w)).
Proof.
  split; [apply fetch_no_secret|].
  intros secret Hsecret Hsig. apply (fetch_unsigned _ _ _ _ _ secret Hsecret).
  apply not_true_is_false. intros H. by apply verifySignature_sound in H.
Qed.

(** X7.  A signed control request is always answered, with 200, 400 or 404
    and nothing else: the handler does not throw, makes no request to a
    subscriber and hands nothing to [ctx.waitUntil]; and unless the answer
    is 200 the registry is what it was. *)
Theorem control_request_statuses (fuel : nat) (id : string) request env w
    (secret : string) :
  SIGNING_SECRET env = Some secret →
  (verifySignature hmac (requestHeaders request) (requestText request) secret).1 = true →
  String.prefix "/@" (pathname (requestUrl request)) = true →
  ∃ response w',
    Http.fetch hmac parseJson canParse network timing fuel id request env w
    = (Returned (response, None), w') ∧
    trace w' = trace w ∧
    (status response = 200
     ∨ ((status response = 400 ∨ status response = 404) ∧ w' = w)).
Proof.
  intros Hsecret Hsig Hpath.
  destruct (if String.eqb (requestMethod request) "POST"
               && (0 <? String.length (requestText request))%nat
            then parseJson (requestText request) else Some JsonNull)
    as [payload|] eqn:Hparse.
  - rewrite (fetch_control fuel id request env w secret payload Hsecret Hsig Hparse Hpath).
    destruct (router_frame canParse id (requestUrl request)
                (requestMethod request) payload (remote_state w)) as [Hatomic _].
    destruct (handleSubscriptionRequest _ _ _ _ _) as [[reply|e] st'] eqn:Hrun.
    + eexists _, _. split; [reflexivity|]. split; [done|]. left. by destruct reply.
    + eexists _, _. split; [reflexivity|]. split; [done|]. right. split.
      * destruct (statusOfError_cases e) as [->| ->]; auto.
      * simpl in Hatomic. rewrite (Hatomic e) by done.
        by destruct w.
  - eexists _, _. unfold Http.fetch. rewrite Hsecret, Hsig. cbn [negb].
    rewrite Hparse. split; [reflexivity|]. split; [done|]. right. auto.
Qed.

(** X5.  Only POST and DELETE requests can change anything: whatever its
    path, headers and body, and whether it is signed or not, a request with
    another method is answered without a change to the registry, without a
    request to a subscriber, and with nothing handed to [ctx.waitUntil]. *)
Theorem only_post_and_delete_write (fuel : nat) (id : string) request env w :
  String.eqb (requestMethod request) "POST" = false →
  String.eqb (requestMethod request) "DELETE" = false →
  ∃ response,
    Http.fetch hmac parseJson canParse network timing fuel id request env w
    = (Returned (response, None), w).
Proof.
  intros Hpost Hdelete.
  destruct (SIGNING_SECRET env) as [secret|] eqn:Hsecret;
    [|eexists; by apply fetch_no_secret].
  destruct (verifySignature hmac (requestHeaders request) (requestText request) secret).1
    eqn:Hsig; [|eexists; by eapply fetch_unsigned].
  destruct (String.prefix "/@" (pathname (requestUrl request))) eqn:Hpath.
  - rewrite (fetch_control fuel id request env w secret JsonNull Hsecret Hsig)
      by (by rewrite ?Hpost).
    destruct (router_frame canParse id (requestUrl request)
                (requestMethod request) JsonNull (remote_state w)) as [_ Hreads].
    specialize (Hreads (conj Hpost Hdelete)).
    destruct (handleSubscriptionRequest _ _ _ _ _) as [[reply|e] st'];
      simpl in Hreads; subst st'; destruct w; by eexists.
  - eexists. unfold Http.fetch. rewrite Hsecret, Hsig. cbn [negb].
    by rewrite Hpost, Hpath.
Qed.

End Handler.

(** ** A subscription's life over HTTP *)

Lemma without_class (sep : ascii) (classes : list (ascii → bool)) (s : string) :
  Forall (λ cl, cl sep = false) classes →
  matchClasses classes s = true → without sep s = true.
Proof.
  intros Hall. revert s. induction Hall as [|cl classes Hcl _ IH]; intros [|c s]; simpl;
    try done.
  intros [Hc Hs]%andb_prop. rewrite (IH s Hs), andb_true_r.
  apply negb_true_iff, Ascii.eqb_neq. intros ->. congruence.
Qed.

Lemma uuid_without_slash (id : string) :
  uuidRegExp_test id = true → without "/" id = true.
Proof.
  apply without_class. unfold uuidRegExp. by repeat (apply Forall_cons_2 || apply Forall_nil_2).
Qed.

Lemma verifySignature_signedRequest (hmac : string → string → string)
    (secret method path text : string) :
  without "=" (hmac secret text) = true →
  (verifySignature hmac (requestHeaders (signedRequest hmac secret method path text))
                   (requestText (signedRequest hmac secret method path text)) secret).1
  = true.
Proof.
  intros H. unfold signedRequest. simpl.
  rewrite verifySignature_complete; [done|done|]. apply lookup_singleton_eq.
Qed.

Lemma getSubscriptions_absent (st : Storage) (b r i : string) :
  b ≠ "" → r ≠ "" → i ≠ "" →
  lookupSubscription st b r i = None →
  ∃ msg, getSubscriptions (Some b) (Some r) (Some i) st = (Thrown (NotFoundError msg), st).
Proof.
  intros Hb Hr Hi. unfold lookupSubscription, lookupRule, getSubscriptions, bind,
    storage_get, throw, ret.
  rewrite (falsy_Some b Hb), (falsy_Some r Hr), (falsy_Some i Hi). simpl.
  destruct (st !! b) as [rules|]; simpl; [|eauto].
  destruct (rules !! r) as [subs|]; simpl; [|eauto].
  destruct (subs !! i); simpl; [done|eauto].
Qed.

(** A deleted subscription is no longer there. *)
Lemma deleteSubscription_removes (st : Storage) (b r i : string) (s : Subscription) :
  lookupSubscription st b r i = Some s →
  fst (deleteSubscription b r i st) = Returned s
  ∧ lookupSubscription (snd (deleteSubscription b r i st)) b r i = None.
Proof.
  unfold lookupSubscription, lookupRule.
  destruct (st !! b) as [rules|] eqn:Hb; simpl; [|done].
  destruct (rules !! r) as [subs|] eqn:Hr; simpl; [|done].
  intros Hi. rewrite (deleteSubscription_found st b r i rules subs s Hb Hr Hi).
  split; [done|]. simpl.
  destruct (decide (delete i subs = ∅)).
  - destruct (decide (delete r rules = ∅)).
    + by rewrite lookup_delete_eq.
    + rewrite lookup_insert_eq. simpl. by rewrite lookup_delete_eq.
  - destruct (decide (<[r:=delete i subs]> rules = ∅)).
    + by rewrite lookup_delete_eq.
    + rewrite lookup_insert_eq. simpl. rewrite lookup_insert_eq. simpl.
      by rewrite lookup_delete_eq.
Qed.

(** The router on a well-formed path. *)
Lemma router_get {R} (url : Url) (payload : Json) (stub : ControlStub R) (st : R)
    (rest : list string) :
  split "/" (pathname url) = "" :: "@subscriptions" :: rest →
  handleSubscriptionRequest url "GET" payload stub st
  = bind (control_getSubscriptions stub (rest !! 0%nat) (rest !! 1%nat) (rest !! 2%nat))
         (λ result, ret (GetReply result)) st.
Proof. intros H. unfold handleSubscriptionRequest. by rewrite H. Qed.

Lemma router_post {R} (url : Url) (fields : gmap string string)
    (events : option (list Event)) (stub : ControlStub R) (st : R)
    (b r : string) (rest : list string) :
  split "/" (pathname url) = "" :: "@subscriptions" :: b :: r :: rest →
  b ≠ "" → r ≠ "" →
  handleSubscriptionRequest url "POST" (JsonValue fields events) stub st
  = bind (control_createSubscription stub b r fields) (λ id, ret (CreatedReply id)) st.
Proof.
  intros H Hb Hr. unfold handleSubscriptionRequest. rewrite H. simpl.
  by rewrite (proj2 (String.eqb_neq _ _) Hb), (proj2 (String.eqb_neq _ _) Hr).
Qed.

Lemma router_delete {R} (url : Url) (payload : Json) (stub : ControlStub R) (st : R)
    (b r i : string) (rest : list string) :
  split "/" (pathname url) = "" :: "@subscriptions" :: b :: r :: i :: rest →
  b ≠ "" → r ≠ "" → i ≠ "" →
  handleSubscriptionRequest url "DELETE" payload stub st
  = bind (control_deleteSubscription stub b r i) (λ deleted, ret (DeletedReply deleted)) st.
Proof.
  intros H Hb Hr Hi. unfold handleSubscriptionRequest. rewrite H. simpl.
  by rewrite (proj2 (String.eqb_neq _ _) Hb), (proj2 (String.eqb_neq _ _) Hr),
    (proj2 (String.eqb_neq _ _) Hi).
Qed.

Section Lifecycle.

Variable hmac : string → string → string.
Variable parseJson : string → option Json.
Variable canParse : string → bool.
Variable network : string → RequestInit → World Storage → FetchResult * Storage.
Variable timing : Timing Storage.

(** What the handler does with a signed control request on
    [/@subscriptions/...], in terms of the router. *)
Lemma fetch_signed_control (fuel : nat) (id : string) (env : WorkerEnv) (secret : string)
    (method text : string) (segments : list string) (payload : Json) (w : World Storage) :
  SIGNING_SECRET env = Some secret →
  without "=" (hmac secret text) = true →
  (if String.eqb method "POST" && (0 <? String.length text)%nat
   then parseJson text else Some JsonNull) = Some payload →
  let request := signedRequest hmac secret method (controlPath segments) text in
  Http.fetch hmac parseJson canParse network timing fuel id request env w
  = match handleSubscriptionRequest (requestUrl request) method payload
            (eventSubscriptionsStub canParse id) (remote_state w) with
    | (Returned reply, st') =>
        (Returned (responseOfReply reply, None), mkWorld st' (trace w))
    | (Thrown e, st') =>
        (Returned (mkResponse (statusOfError e) (TextBody (message e)), None),
         mkWorld st' (trace w))
    end.
Proof.
  intros Hsecret Hmac Hparse request.
  apply (fetch_control hmac parseJson canParse network timing fuel id request env w secret payload);
    [done| by apply verifySignature_signedRequest |done|].
  unfold request, signedRequest, controlPath. simpl. by destruct segments.
Qed.

(** X8.  A subscription's life over HTTP, with every request signed, for a
    rule whose name is none of the names a plain object inherits from
    [Object.prototype] ([constructor], [toString], [__proto__] and the
    like, for which [createSubscription] does not store anything): a POST
    to [/@subscriptions/b/r] whose body parses to an object with a valid
    [url] is answered 200 with the new identifier; a GET of
    [/@subscriptions/b/r/id] then returns [{ url }] and changes nothing; a
    DELETE of the same path returns the deleted subscription; and a GET
    after that is answered 404. *)
Theorem subscription_lifecycle_over_http (fuel : nat) (env : WorkerEnv)
    (secret b r id text url : string) (fields : gmap string string)
    (events : option (list Event)) (st : Storage) (t : list Effect) :
  SIGNING_SECRET env = Some secret →
  (∀ text', without "=" (hmac secret text') = true) →
  b ≠ "" → r ≠ "" → without "/" b = true → without "/" r = true →
  inheritedName r = false →
  uuidRegExp_test id = true →
  text ≠ "" → parseJson text = Some (JsonValue fields events) →
  fields !! "url" = Some url → url ≠ "" → canParse url = true →
  let serve request w :=
    Http.fetch hmac parseJson canParse network timing fuel id request env w in
  let one := controlPath [b; r; id] in
  ∃ st1 st2 message,
    serve (signedRequest hmac secret "POST" (controlPath [b; r]) text) (mkWorld st t)
    = (Returned (mkResponse 200 (JsonBody (CreatedReply id)), None), mkWorld st1 t) ∧
    serve (signedRequest hmac secret "GET" one "") (mkWorld st1 t)
    = (Returned (mkResponse 200 (JsonBody (GetReply (TheSubscription {[ "url" := url ]}))),
                 None), mkWorld st1 t) ∧
    serve (signedRequest hmac secret "DELETE" one "") (mkWorld st1 t)
    = (Returned (mkResponse 200 (JsonBody (DeletedReply {[ "url" := url ]})), None),
       mkWorld st2 t) ∧
    serve (signedRequest hmac secret "GET" one "") (mkWorld st2 t)
    = (Returned (mkResponse 404 (TextBody message), None), mkWorld st2 t).
Proof.
  intros Hsecret Hmac Hb Hr Hsb Hsr Hown Hid Htext Hparse Hu Hne Hcp serve one.
  pose proof (uuid_without_slash id Hid) as Hsi.
  pose proof (uuid_nonempty id Hid) as Hi.
  pose proof (createSubscription_accepted canParse st id b r fields url Hown Hu Hne Hcp)
    as Hcreate.
  set (st1 := <[b:=<[r:=<[id:={[ "url" := url ]}]> (default ∅ (default ∅ (st !! b) !! r))]>
                     (default ∅ (st !! b))]> st) in Hcreate.
  assert (Hfound : lookupSubscription st1 b r id = Some {[ "url" := url ]}).
  { unfold lookupSubscription, lookupRule, st1. rewrite lookup_insert_eq. simpl.
    rewrite lookup_insert_eq. simpl. by rewrite lookup_insert_eq. }
  destruct (deleteSubscription_removes st1 b r id _ Hfound) as [Hdel Hgone].
  destruct (deleteSubscription b r id st1) as [deleted st2] eqn:Hdelete.
  simpl in Hdel, Hgone. subst deleted.
  destruct (getSubscriptions_absent st2 b r id Hb Hr Hi Hgone) as [msg Hmissing].
  assert (Hget : getSubscriptions (Some b) (Some r) (Some id) st1
                 = (Returned (TheSubscription {[ "url" := url ]}), st1)).
  { unfold getSubscriptions, bind, storage_get, ret.
    rewrite (falsy_Some b Hb), (falsy_Some r Hr), (falsy_Some id Hi). simpl.
    unfold st1. by rewrite !lookup_insert_eq. }
  assert (Hparts2 : split "/" (controlPath [b; r]) = [""; "@subscriptions"; b; r]).
  { apply control_parts. by repeat apply Forall_cons_2. }
  assert (Hparts3 : split "/" one = [""; "@subscriptions"; b; r; id]).
  { apply control_parts. by repeat apply Forall_cons_2. }
  exists st1, st2, (message (acrossStub (NotFoundError msg))).
  unfold serve. repeat split.
  - rewrite (fetch_signed_control fuel id env secret "POST" text [b; r]
               (JsonValue fields events)); [|done|done|].
    2:{ simpl. destruct text; [done|]. by rewrite Hparse. }
    rewrite (router_post _ _ _ _ _ b r []) by done.
    simpl. unfold bind, viaStub. by rewrite Hcreate.
  - rewrite (fetch_signed_control fuel id env secret "GET" "" [b; r; id] JsonNull);
      [|done|done|done].
    rewrite (router_get _ _ _ _ [b; r; id]) by done.
    simpl. unfold bind, viaStub. by rewrite Hget.
  - rewrite (fetch_signed_control fuel id env secret "DELETE" "" [b; r; id] JsonNull);
      [|done|done|done].
    rewrite (router_delete _ _ _ _ b r id []) by done.
    simpl. unfold bind, viaStub. by rewrite Hdelete.
  - rewrite (fetch_signed_control fuel id env secret "GET" "" [b; r; id] JsonNull);
      [|done|done|done].
    rewrite (router_get _ _ _ _ [b; r; id]) by done.
    simpl. unfold bind, viaStub. by rewrite Hmissing.
Qed.

End Lifecycle.

(** * Termination of the engine *)

Section Settles.

Context {R : Type}.
Variable network : string → RequestInit → World R → FetchResult * R.
Variable timing : Timing R.
Variable stub : Stub R.

Lemma fulfils_settles {A} (m : Task (World R) A) : fulfils m → settles m.
Proof. intros H w. destruct (H w) as (a & w' & t & Hrun & Ht). eauto. Qed.

Lemma fulfils_tret {A} (a : A) : fulfils (tret a : Task (World R) A).
Proof. intros w. exists a, w, []. by rewrite app_nil_r. Qed.

Lemma settles_tthrow {A} (e : JsError) : settles (tthrow e : Task (World R) A).
Proof. intros w. exists (Thrown e), w, []. by rewrite app_nil_r. Qed.

Lemma fulfils_emit (e : Effect) : fulfils (emit (R := R) e).
Proof. intros w. by exists tt, (mkWorld (remote_state w) (trace w ++ [e])), [e]. Qed.

Lemma settles_call {A} (m : Async R A) : settles (call m).
Proof.
  intros w. unfold call. destruct (m (remote_state w)) as [o r].
  exists o, (mkWorld r (trace w)), []. by rewrite app_nil_r.
Qed.

Lemma fulfils_settled {A} (m : Task (World R) A) : settles m → fulfils (settled m).
Proof.
  intros H w. destruct (H w) as (o & w' & t & Hrun & Ht).
  exists o, w', t. unfold settled. by rewrite Hrun.
Qed.

Lemma settles_bind {A B} (m : Task (World R) A) (k : A → Task (World R) B) :
  settles m → (∀ a, settles (k a)) → settles (tbind m k).
Proof.
  intros Hm Hk w. destruct (Hm w) as ([a|e] & w1 & t1 & Hrun & Ht1); unfold tbind;
    rewrite Hrun; [|by eauto].
  destruct (Hk a w1) as (o & w2 & t2 & Hrun2 & Ht2).
  exists o, w2, (t1 ++ t2). by rewrite Hrun2, Ht2, Ht1, app_assoc.
Qed.

Lemma fulfils_bind {A B} (m : Task (World R) A) (k : A → Task (World R) B) :
  fulfils m → (∀ a, fulfils (k a)) → fulfils (tbind m k).
Proof.
  intros Hm Hk w. destruct (Hm w) as (a & w1 & t1 & Hrun & Ht1); unfold tbind;
    rewrite Hrun.
  destruct (Hk a w1) as (o & w2 & t2 & Hrun2 & Ht2).
  exists o, w2, (t1 ++ t2). by rewrite Hrun2, Ht2, Ht1, app_assoc.
Qed.

(** The loop of [fetchWithRetry] from iteration [i] on, with fuel for the
    iterations that remain: it settles after at most that many requests and
    returns only a response that is [ok]; it throws the error that names
    the count after all of them, or what reading the body of a response
    that is not [ok] threw, right after the request so answered. *)
Lemma retryLoop_bounded (max : JsNum) (resource : option string) (options : RequestInit) :
  ∀ (fuel : nat) (i delay : Z) (w : World R),
    (budget max - Z.to_nat i ≤ fuel)%nat → 0 ≤ i →
    ∃ o w' t,
      retryLoop network fuel resource options max i delay w = Some (o, w') ∧
      trace w' = trace w ++ t ∧
      (length (List.filter isFetch t) ≤ budget max - Z.to_nat i)%nat ∧
      match o with
      | Returned (status, _) => ok status = true
      | Thrown e =>
          (e = Error (numToString max +:+ " failures to " +:+ method options
                       +:+ " " +:+ str resource)
           ∧ length (List.filter isFetch t) = (budget max - Z.to_nat i)%nat)
          ∨ (∃ url status w0,
               resource = Some url ∧
               network url options w0
               = (Response status (Unreadable e), remote_state w') ∧
               ok status = false ∧
               trace w0 = trace w' ∧
               last t = Some (Fetch resource options))
      end.
Proof.
  induction fuel as [|fuel IH]; intros i delay w Hfuel Hi.
  - exists (Thrown (Error (numToString max +:+ " failures to " +:+ method options
                            +:+ " " +:+ str resource))), w, [].
    assert (Hlt : Js.lt i max = false).
    { destruct max as [|z]; [done|]. simpl in *. apply Z.ltb_ge. lia. }
    rewrite retryLoop_exhausted by done. rewrite app_nil_r. simpl.
    split; [done|]. split; [done|]. split; [lia|]. left. split; [done|lia].
  - destruct (Js.lt i max) eqn:Hlt.
    2:{ exists (Thrown (Error (numToString max +:+ " failures to " +:+ method options
                                +:+ " " +:+ str resource))), w, [].
        rewrite retryLoop_exhausted by done. rewrite app_nil_r. simpl.
        assert (budget max - Z.to_nat i = 0)%nat as ->.
        { destruct max as [|z]; [done|]. simpl in *. apply Z.ltb_ge in Hlt. lia. }
        split; [done|]. split; [done|]. split; [done|]. by left. }
    rewrite retryLoop_step, Hlt.
    destruct max as [|z]; [done|]. simpl in Hlt. apply Z.ltb_lt in Hlt.
    simpl budget in *.
    assert (Hrem : (Z.to_nat z - Z.to_nat i = S (Z.to_nat z - Z.to_nat (i + 1)))%nat)
      by lia.
    set (w0 := mkWorld (remote_state w) (trace w ++ [Fetch resource options])).
    assert (Hfetch : ∃ result r,
               Engine.fetch network resource options w
               = Some (Returned result, mkWorld r (trace w0)) ∧
               (∀ status reason, result = Response status (Unreadable reason) →
                  ∃ url, resource = Some url ∧
                         network url options w0 = (Response status (Unreadable reason), r))).
    { unfold Engine.fetch, tbind, request, emit, response. destruct resource as [url|].
      - fold w0. destruct (network url options w0) as [result r] eqn:Hnet.
        exists result, r. split; [done|]. intros status reason ->. by exists url.
      - eexists _, _. split; [reflexivity|]. intros status reason [=]. }
    destruct Hfetch as (result & r & Hfetch & Hunreadable).
    unfold tbind at 1. rewrite Hfetch.
    destruct result as [status [text|reason]|reason].
    + destruct (ok status) eqn:Hok.
      * unfold tbind, log, emit, tret. simpl.
        eexists _, _, [Fetch resource options; Log (PostSucceeded resource status)].
        split; [reflexivity|]. simpl. rewrite <- app_assoc. simpl.
        split; [done|]. split; [lia|done].
      * unfold tbind at 1. unfold log, emit. unfold tbind at 1. unfold sleep, emit.
        edestruct (IH (i + 1) (nextDelay delay)
                     (mkWorld r
                        ((trace w0 ++ [Log (PostFailedStatus resource status text)])
                           ++ [Sleep delay])))
          as (o & w' & t & Hrun & Ht & Hlen & Ho);
          [lia|lia|].
        subst w0. cbn [trace remote_state] in Hrun |- *. rewrite Hrun. exists o, w',
          (Fetch resource options :: Log (PostFailedStatus resource status text)
             :: Sleep delay :: t).
        split; [done|]. split.
        { rewrite Ht. simpl. rewrite <- !app_assoc. done. }
        simpl. split; [lia|]. destruct o as [[s x]|e]; [done|].
        destruct Ho as [[-> Ho]|(url & s & w00 & Hres & Hnet & Hok' & Htr & Hlast)].
        { left. split; [done|lia]. }
        right. exists url, s, w00. repeat split; try done.
        destruct t; [done|]. exact Hlast.
    + destruct (ok status) eqn:Hok.
      * unfold tbind, log, emit, tret. simpl.
        eexists _, _, [Fetch resource options; Log (PostSucceeded resource status)].
        split; [reflexivity|]. simpl. rewrite <- app_assoc. simpl.
        split; [done|]. split; [lia|done].
      * destruct (Hunreadable status reason eq_refl) as (url & -> & Hnet).
        exists (Thrown reason), (mkWorld r (trace w0)), [Fetch (Some url) options].
        split; [done|]. split; [done|]. simpl. split; [lia|]. right.
        exists url, status, w0. by repeat split.
    + unfold tbind at 1. unfold log, emit. unfold tbind at 1. unfold sleep, emit.
      edestruct (IH (i + 1) (nextDelay delay)
                   (mkWorld r
                      ((trace w0 ++ [Log (PostFailed resource reason)])
                         ++ [Sleep delay])))
        as (o & w' & t & Hrun & Ht & Hlen & Ho);
        [lia|lia|].
      subst w0. cbn [trace remote_state] in Hrun |- *. rewrite Hrun. exists o, w',
        (Fetch resource options :: Log (PostFailed resource reason) :: Sleep delay :: t).
      split; [done|]. split.
      { rewrite Ht. simpl. rewrite <- !app_assoc. done. }
      simpl. split; [lia|]. destruct o as [[s x]|e]; [done|].
      destruct Ho as [[-> Ho]|(url & s & w00 & Hres & Hnet & Hok' & Htr & Hlast)].
      { left. split; [done|lia]. }
      right. exists url, s, w00. repeat split; try done.
      destruct t; [done|]. exact Hlast.
Qed.

Lemma fetchWithRetry_settles (max : JsNum) (fuel : nat) (resource : option string)
    (options : RequestInit) :
  (budget max ≤ fuel)%nat →
  settles (fetchWithRetry network fuel resource options max).
Proof.
  intros Hfuel w.
  destruct (retryLoop_bounded max resource options fuel 0 0 w) as (o & w' & t & H & Ht & _);
    [lia|lia|].
  by exists o, w', t.
Qed.

Lemma fanOut_fulfils (max : JsNum) (fuel : nat) (e : Event)
    (subs : list (string * option string)) :
  (budget max ≤ fuel)%nat → fulfils (fanOut network timing fuel max e subs).
Proof.
  intros Hfuel w.
  destruct (fanOut_settles network timing fuel max e subs Hfuel w)
    as (outcomes & w' & t & Hrun & Ht & _).
  by exists outcomes, w', t.
Qed.

Lemma prune_settles (e : Event)
    (outcomes : list (string * option string * Outcome (Z * Body))) :
  settles (prune stub e outcomes).
Proof.
  induction outcomes as [|[[id url] [v|reason]] rest IH]; simpl.
  - apply fulfils_settles, fulfils_tret.
  - apply settles_bind; [apply fulfils_settles, fulfils_tret|done].
  - apply settles_bind; [|done].
    apply settles_bind; [apply fulfils_settles, fulfils_emit|]. intros _.
    apply settles_bind; [apply fulfils_settles, fulfils_emit|]. intros _.
    apply settles_bind; [apply fulfils_settles, fulfils_emit|]. intros _.
    apply settles_bind; [apply settles_call|]. intros _.
    apply fulfils_settles, fulfils_tret.
Qed.

Lemma deliver_settles (max : JsNum) (fuel : nat) (e : Event)
    (subs : list (string * option string)) :
  (budget max ≤ fuel)%nat → settles (deliver network timing stub fuel max e subs).
Proof.
  intros Hfuel. unfold deliver. apply settles_bind.
  - destruct (length subs =? 0)%nat; apply fulfils_settles;
      [apply fulfils_emit | apply fulfils_tret].
  - intros _. apply settles_bind; [by apply fulfils_settles, fanOut_fulfils|].
    intros os. apply prune_settles.
Qed.

Lemma handleEvent_settles (max : JsNum) (fuel : nat) (e : Event) :
  (budget max ≤ fuel)%nat → settles (handleEvent network timing stub fuel max e).
Proof.
  intros Hfuel. unfold handleEvent.
  apply settles_bind; [apply fulfils_settles, fulfils_emit|]. intros _.
  apply settles_bind; [apply fulfils_settles, fulfils_settled, settles_call|].
  intros [subscriptions|err].
  - intros w.
    assert (H : settles (tbind (deliver network timing stub fuel max e
                                  (entries timing w subscriptions))
                               (λ _, tret true))).
    { apply settles_bind; [by apply deliver_settles|]. intros _.
      apply fulfils_settles, fulfils_tret. }
    apply (H w).
  - destruct (isNotFound err).
    + apply settles_bind; [by apply deliver_settles|]. intros _.
      apply fulfils_settles, fulfils_tret.
    + apply settles_bind; [apply fulfils_settles, fulfils_emit|]. intros _.
      apply fulfils_settles, fulfils_tret.
Qed.

Lemma handleEvents_settles (max : JsNum) (fuel : nat) (events : list Event) :
  (budget max ≤ fuel)%nat → settles (handleEvents network timing stub fuel max events).
Proof.
  intros Hfuel. induction events as [|e rest IH]; simpl.
  - apply fulfils_settles, fulfils_tret.
  - apply settles_bind; [by apply handleEvent_settles|].
    intros []; [done|apply fulfils_settles, fulfils_tret].
Qed.

Lemma handleEventNotifications_fulfils (fuel : nat) (events : list Event) (env : Env) :
  (budget (maxFailureCountOf env) ≤ fuel)%nat →
  fulfils (handleEventNotifications network timing stub fuel events env).
Proof.
  intros Hfuel. unfold handleEventNotifications. apply fulfils_bind.
  - apply fulfils_settled, settles_bind; [apply fulfils_settles, fulfils_emit|].
    intros _. by apply handleEvents_settles.
  - intros [v|e]; [apply fulfils_tret|apply fulfils_emit].
Qed.

End Settles.

(** X9.  Every delivery ends, within its budget: for any network, with a
    maximum count of [N] (none for [NaN] or a negative count),
    [fetchWithRetry] settles after at most [N] requests, and it returns only
    a response whose status is in 200-299.  When it throws, it throws
    either the error whose message names the count, after exactly [N]
    requests, or what reading the body of a response outside 200-299
    threw, and then the request so answered was its last step. *)
Theorem fetchWithRetry_bounded {R : Type}
    (network : string → RequestInit → World R → FetchResult * R)
    (max : JsNum) (fuel : nat) (resource : option string) (options : RequestInit)
    (w : World R) :
  (budget max ≤ fuel)%nat →
  ∃ o w' t,
    fetchWithRetry network fuel resource options max w = Some (o, w') ∧
    trace w' = trace w ++ t ∧
    (length (List.filter isFetch t) ≤ budget max)%nat ∧
    match o with
    | Returned (status, _) => 200 ≤ status ≤ 299
    | Thrown e =>
        (e = Error (numToString max +:+ " failures to " +:+ method options
                     +:+ " " +:+ str resource)
         ∧ length (List.filter isFetch t) = budget max)
        ∨ (∃ url status w0,
             resource = Some url ∧
             network url options w0 = (Response status (Unreadable e), remote_state w') ∧
             ¬ 200 ≤ status ≤ 299 ∧
             trace w0 = trace w' ∧
             last t = Some (Fetch resource options))
    end.
Proof.
  intros Hfuel.
  destruct (retryLoop_bounded network max resource options fuel 0 0 w)
    as (o & w' & t & Hrun & Ht & Hlen & Ho); [lia|lia|].
  exists o, w', t. rewrite Nat.sub_0_r in *. repeat split; try done.
  destruct o as [[status text]|e].
  - unfold ok in Ho. apply andb_prop in Ho as [H1 H2]. lia.
  - destruct Ho as [Ho|(url & status & w0 & Hres & Hnet & Hok & Htr & Hlast)]; [by left|].
    right. exists url, status, w0. repeat split; try done.
    unfold ok in Hok. apply andb_false_iff in Hok. lia.
Qed.

(** Against endpoints that always answer 500 with a body, the count error
    after three requests; against one whose body breaks off, the error of
    reading it after one. *)
Lemma fetchWithRetry_bounded_witness :
  (∃ w',
     fetchWithRetry Sample.alwaysDown 3 (Some "https://ex.com/hook")
                    (mkInit "POST" [Sample.firstEvent]) (Num 3) (mkWorld tt [])
     = Some (Thrown (Error "3 failures to POST https://ex.com/hook"), w') ∧
     length (List.filter isFetch (trace w')) = 3%nat) ∧
  (∃ o w' t,
     fetchWithRetry Sample.tornNetwork 3 (Some "https://ex.com/hook")
                    (mkInit "POST" [Sample.firstEvent]) (Num 3) (mkWorld tt [])
     = Some (o, w') ∧
     trace w' = [] ++ t ∧
     (length (List.filter isFetch t) ≤ 3)%nat ∧
     match o with
     | Returned (status, _) => 200 ≤ status ≤ 299
     | Thrown e =>
         (e = Error ("3 failures to POST https://ex.com/hook")
          ∧ length (List.filter isFetch t) = 3%nat)
         ∨ (∃ url status w0,
              Some "https://ex.com/hook" = Some url ∧
              Sample.tornNetwork url (mkInit "POST" [Sample.firstEvent]) w0
              = (Response status (Unreadable e), remote_state w') ∧
              ¬ 200 ≤ status ≤ 299 ∧
              trace w0 = trace w' ∧
              last t = Some (Fetch (Some "https://ex.com/hook")
                                   (mkInit "POST" [Sample.firstEvent])))
     end).
Proof.
  split.
  - eexists. split; [vm_compute; reflexivity|]. vm_compute. reflexivity.
  - apply (fetchWithRetry_bounded Sample.tornNetwork (Num 3) 3 (Some "https://ex.com/hook")
             (mkInit "POST" [Sample.firstEvent]) (mkWorld tt [])).
    simpl. lia.
Defined.

(** X10.  The promise handed to [ctx.waitUntil] never rejects: whatever the
    network answers, in whatever order the deliveries of an event proceed
    and whatever the calls through the stub return or throw,
    [handleEventNotifications] logs the size of the batch first and then
    ends by returning, given fuel for the configured count. *)
Theorem notifications_never_reject {R : Type}
    (network : string → RequestInit → World R → FetchResult * R)
    (timing : Timing R) (stub : Stub R)
    (fuel : nat) (events : list Event) (env : Env) (w : World R) :
  (budget (maxFailureCountOf env) ≤ fuel)%nat →
  ∃ w' t,
    handleEventNotifications network timing stub fuel events env w
    = Some (Returned tt, w') ∧
    trace w' = trace w ++ Log (HandlingBatch (length events)) :: t.
Proof.
  intros Hfuel. unfold handleEventNotifications, tbind at 1, settled, tbind at 1.
  unfold log at 1, emit at 1. cbv beta iota.
  destruct (handleEvents_settles network timing stub (maxFailureCountOf env) fuel events Hfuel
              (mkWorld (remote_state w) (trace w ++ [Log (HandlingBatch (length events))])))
    as (o & w1 & t1 & Hrun & Ht1).
  rewrite Hrun. simpl in Ht1. destruct o as [[]|e].
  - exists w1, t1. split; [done|]. by rewrite Ht1, <- app_assoc.
  - eexists _, (t1 ++ [Log (ErrorStack e)]). split; [reflexivity|]. simpl.
    by rewrite Ht1, <- !app_assoc.
Qed.

Lemma notifications_never_reject_witness :
  ∃ w' t,
    handleEventNotifications Sample.alwaysDown Sample.inRotation Sample.overloadedStub 5
      [Sample.firstEvent; Sample.secondEvent] (mkEnv None) (mkWorld tt [])
    = Some (Returned tt, w') ∧
    trace w' = [] ++ Log (HandlingBatch 2) :: t.
Proof.
  apply (notifications_never_reject Sample.alwaysDown Sample.inRotation Sample.overloadedStub 5
           [Sample.firstEvent; Sample.secondEvent] (mkEnv None) (mkWorld tt [])).
  simpl. lia.
Defined.

(** ** Methods and event notifications *)

Section FrontDoor.

Variable hmac : string → string → string.
Variable parseJson : string → option Json.
Variable canParse : string → bool.
Variable network : string → RequestInit → World Storage → FetchResult * Storage.
Variable timing : Timing Storage.

(** What the router does with a method the path does not allow. *)
Lemma router_method_not_allowed {R} (url : Url) (method : string) (payload : Json)
    (stub : ControlStub R) (st : R) (segments : list string) :
  split "/" (pathname url) = "" :: "@subscriptions" :: segments →
  String.eqb method "GET" = false → String.eqb method "HEAD" = false →
  falsy (segments !! 0%nat) || falsy (segments !! 1%nat) = true
  ∨ (String.eqb method "POST" = false ∧ String.eqb method "DELETE" = false)
  ∨ (method = "DELETE" ∧ falsy (segments !! 2%nat) = true) →
  handleSubscriptionRequest url method payload stub st
  = (Thrown (MethodNotAllowedError (method +:+ " not allowed for " +:+ href url)), st).
Proof.
  intros Hparts Hget Hhead Hwhy. unfold handleSubscriptionRequest.
  rewrite Hparts, Hget, Hhead. simpl.
  destruct (falsy (segments !! 0%nat) || falsy (segments !! 1%nat)); [done|].
  destruct Hwhy as [?|[[-> ->]| [-> ->]]]; done.
Qed.

(** X11.  A control request whose method its path does not allow is
    answered 404, not 405, with the message of the
    [MethodNotAllowedError], and changes nothing: any method but GET and
    HEAD on a path without a bucket or a rule, any method but GET, HEAD, POST
    and DELETE, and DELETE on a path without an identifier. *)
Theorem disallowed_method_answered_404 (fuel : nat) (id : string) (env : WorkerEnv)
    (secret method text : string) (segments : list string) (payload : Json)
    (w : World Storage) :
  SIGNING_SECRET env = Some secret →
  without "=" (hmac secret text) = true →
  Forall (λ p, without "/" p = true) segments →
  (if String.eqb method "POST" && (0 <? String.length text)%nat
   then parseJson text else Some JsonNull) = Some payload →
  String.eqb method "GET" = false → String.eqb method "HEAD" = false →
  falsy (segments !! 0%nat) || falsy (segments !! 1%nat) = true
  ∨ (String.eqb method "POST" = false ∧ String.eqb method "DELETE" = false)
  ∨ (method = "DELETE" ∧ falsy (segments !! 2%nat) = true) →
  Http.fetch hmac parseJson canParse network timing fuel id
             (signedRequest hmac secret method (controlPath segments) text) env w
  = (Returned (mkResponse HTTP_STATUS_NOT_FOUND
                 (TextBody ("MethodNotAllowedError: " +:+ method +:+ " not allowed for "
                            +:+ "https://broker.example" +:+ controlPath segments)),
               None), w).
Proof.
  intros Hsecret Hmac Hsegments Hparse Hget Hhead Hwhy.
  rewrite (fetch_signed_control hmac parseJson canParse network timing fuel id env secret method
             text segments payload w Hsecret Hmac Hparse).
  rewrite (router_method_not_allowed _ method payload _ _ segments);
    [|by apply control_parts|done..].
  by destruct w.
Qed.

Lemma fetch_notification fuel id (request : Request) env (w : World Storage)
    (secret : string) :
  SIGNING_SECRET env = Some secret →
  (verifySignature hmac (requestHeaders request) (requestText request) secret).1 = true →
  String.prefix "/@" (pathname (requestUrl request)) = false →
  Http.fetch hmac parseJson canParse network timing fuel id request env w
  = match (if String.eqb (requestMethod request) "POST"
              && (0 <? String.length (requestText request))%nat
           then parseJson (requestText request) else Some JsonNull) with
    | None => (Returned (mkResponse 400 NoBody, None), w)
    | Some payload =>
        if String.eqb (requestMethod request) "POST" then
          match payload with
          | JsonNull =>
              (Thrown (TypeError "Cannot read properties of null (reading 'events')"), w)
          | JsonFalsy =>
              (Returned (mkResponse 200 NoBody,
                         Some (notify network timing fuel None env)), w)
          | JsonValue _ events =>
              (Returned (mkResponse 200 NoBody,
                         Some (notify network timing fuel events env)), w)
          end
        else (Returned (mkResponse 405 NoBody, None), w)
    end.
Proof.
  intros H1 H2 H3. unfold Http.fetch. rewrite H1, H2. cbn [negb].
  destruct (if String.eqb (requestMethod request) "POST"
               && (0 <? String.length (requestText request))%nat
            then parseJson (requestText request) else Some JsonNull) as [payload|];
    [|done].
  rewrite H3. destruct (String.eqb (requestMethod request) "POST"); [|done].
  by destruct payload.
Qed.

Lemma notify_fulfils (fuel : nat) (events : option (list Event)) (env : WorkerEnv) :
  (budget (maxFailureCountOf (engineEnv env)) ≤ fuel)%nat →
  fulfils (notify network timing fuel events env).
Proof.
  intros Hfuel. destruct events as [events|]; simpl.
  - by apply handleEventNotifications_fulfils.
  - apply fulfils_emit.
Qed.

(** X12.  Outside the control paths a signed request is an event
    notification.  A method other than POST is answered 405.  A POST whose
    body parses to anything but [null] is answered 200 at once, with the
    registry untouched, and the deliveries are handed to [ctx.waitUntil] as
    a promise that ends without rejecting, whatever happens to them.  A POST
    with an empty body gets no response: the handler throws a [TypeError]. *)
Theorem event_notification_acknowledged (fuel : nat) (id : string) (request : Request)
    (env : WorkerEnv) (w : World Storage) (secret : string) :
  SIGNING_SECRET env = Some secret →
  (verifySignature hmac (requestHeaders request) (requestText request) secret).1 = true →
  String.prefix "/@" (pathname (requestUrl request)) = false →
  (String.eqb (requestMethod request) "POST" = false →
   Http.fetch hmac parseJson canParse network timing fuel id request env w
   = (Returned (mkResponse HTTP_STATUS_METHOD_NOT_ALLOWED NoBody, None), w)) ∧
  (∀ payload,
     requestMethod request = "POST" → requestText request ≠ "" →
     parseJson (requestText request) = Some payload → payload ≠ JsonNull →
     ∃ task,
       Http.fetch hmac parseJson canParse network timing fuel id request env w
       = (Returned (mkResponse HTTP_STATUS_OK NoBody, Some task), w) ∧
       ((budget (maxFailureCountOf (engineEnv env)) ≤ fuel)%nat →
        ∀ w1, ∃ w2 t, task w1 = Some (Returned tt, w2) ∧ trace w2 = trace w1 ++ t)) ∧
  (requestMethod request = "POST" → requestText request = "" →
   ∃ e, Http.fetch hmac parseJson canParse network timing fuel id request env w = (Thrown e, w)
        ∧ class e = TypeErrorC).
Proof.
  intros Hsecret Hsig Hpath.
  rewrite (fetch_notification fuel id request env w secret Hsecret Hsig Hpath).
  split; [|split].
  - intros Hmethod. by rewrite Hmethod.
  - intros payload Hmethod Htext Hparse Hpayload. rewrite Hmethod. simpl.
    destruct (requestText request) as [|c text] eqn:E; [done|]. simpl.
    rewrite Hparse.
    assert (Hends : ∀ events, (budget (maxFailureCountOf (engineEnv env)) ≤ fuel)%nat →
              ∀ w1, ∃ w2 t, notify network timing fuel events env w1 = Some (Returned tt, w2)
                            ∧ trace w2 = trace w1 ++ t).
    { intros events Hfuel w1.
      destruct (notify_fulfils fuel events env Hfuel w1) as ([] & w2 & t & Hrun & Ht).
      eauto. }
    destruct payload as [| |fields events]; [done| |].
    + exists (notify network timing fuel None env). split; [done|apply Hends].
    + exists (notify network timing fuel events env). split; [done|apply Hends].
  - intros Hmethod Htext. rewrite Hmethod, Htext. simpl. eauto.
Qed.

End FrontDoor.

(** ** The scenarios of the front door *)

(** A PUT on the path of a bucket. *)
Lemma only_post_and_delete_write_witness :
  ∃ response,
    SampleHttp.serve (SampleHttp.request "PUT" "/@subscriptions/b1" "")
                     (mkWorld Sample.oneSubscriber [])
    = (Returned (response, None), mkWorld Sample.oneSubscriber []).
Proof.
  apply (only_post_and_delete_write SampleHttp.hmac SampleHttp.parseJson Sample.canParse
           Sample.downNetwork Sample.inTurn 5 Sample.idX
           (SampleHttp.request "PUT" "/@subscriptions/b1" "") SampleHttp.env
           (mkWorld Sample.oneSubscriber []));
    reflexivity.
Defined.

(** A GET of a bucket that has no record. *)
Lemma control_request_statuses_witness :
  ∃ response w',
    SampleHttp.serve (SampleHttp.request "GET" "/@subscriptions/b2" "")
                     (mkWorld Sample.oneSubscriber [])
    = (Returned (response, None), w') ∧
    trace w' = [] ∧
    (status response = 200
     ∨ ((status response = 400 ∨ status response = 404)
        ∧ w' = mkWorld Sample.oneSubscriber [])).
Proof.
  apply (control_request_statuses SampleHttp.hmac SampleHttp.parseJson Sample.canParse
           Sample.downNetwork Sample.inTurn 5 Sample.idX
           (SampleHttp.request "GET" "/@subscriptions/b2" "") SampleHttp.env
           (mkWorld Sample.oneSubscriber []) "s3cret");
    reflexivity.
Defined.

(** Create with the body [{"url":"https://ex.com/hook"}], get, delete and
    get again under [b1/r1], from the empty store. *)
Lemma subscription_lifecycle_over_http_witness :
  ∃ st1 st2 message,
    SampleHttp.serve (SampleHttp.request "POST" (controlPath ["b1"; "r1"])
                                         SampleHttp.createBody) (mkWorld ∅ [])
    = (Returned (mkResponse 200 (JsonBody (CreatedReply Sample.idX)), None),
       mkWorld st1 []) ∧
    SampleHttp.serve (SampleHttp.request "GET" (controlPath ["b1"; "r1"; Sample.idX]) "")
                     (mkWorld st1 [])
    = (Returned (mkResponse 200 (JsonBody (GetReply (TheSubscription
                                                       {[ "url" := "https://ex.com/hook" ]}))),
                 None), mkWorld st1 []) ∧
    SampleHttp.serve (SampleHttp.request "DELETE" (controlPath ["b1"; "r1"; Sample.idX]) "")
                     (mkWorld st1 [])
    = (Returned (mkResponse 200 (JsonBody (DeletedReply {[ "url" := "https://ex.com/hook" ]})),
                 None), mkWorld st2 []) ∧
    SampleHttp.serve (SampleHttp.request "GET" (controlPath ["b1"; "r1"; Sample.idX]) "")
                     (mkWorld st2 [])
    = (Returned (mkResponse 404 (TextBody message), None), mkWorld st2 []).
Proof.
  apply (subscription_lifecycle_over_http SampleHttp.hmac SampleHttp.parseJson
           Sample.canParse Sample.downNetwork Sample.inTurn 5 SampleHttp.env "s3cret" "b1" "r1"
           Sample.idX SampleHttp.createBody "https://ex.com/hook"
           (Sample.hook "https://ex.com/hook") None ∅ []);
    first [ reflexivity | discriminate | by intros ].
Defined.

(** A PUT on the path of a rule. *)
Lemma disallowed_method_answered_404_witness :
  SampleHttp.serve (SampleHttp.request "PUT" (controlPath ["b1"; "r1"]) "")
                   (mkWorld Sample.oneSubscriber [])
  = (Returned (mkResponse 404
                 (TextBody ("MethodNotAllowedError: " +:+ "PUT" +:+ " not allowed for "
                            +:+ "https://broker.example" +:+ controlPath ["b1"; "r1"])),
               None), mkWorld Sample.oneSubscriber []).
Proof.
  apply (disallowed_method_answered_404 SampleHttp.hmac SampleHttp.parseJson Sample.canParse
           Sample.downNetwork Sample.inTurn 5 Sample.idX SampleHttp.env "s3cret" "PUT" ""
           ["b1"; "r1"] JsonNull (mkWorld Sample.oneSubscriber []));
    try reflexivity.
  - by repeat constructor.
  - right. left. by split.
Defined.

(** A notification of one event posted to the root path: it is answered
    200 with the registry as it was, and the deliveries handed to
    [ctx.waitUntil] end without rejecting from any world. *)
Lemma event_notification_acknowledged_witness :
  ∃ task,
    SampleHttp.serve (SampleHttp.request "POST" "/" SampleHttp.notificationBody)
                     (mkWorld Sample.oneSubscriber [])
    = (Returned (mkResponse HTTP_STATUS_OK NoBody, Some task),
       mkWorld Sample.oneSubscriber []) ∧
    ∀ w1, ∃ w2 t, task w1 = Some (Returned tt, w2) ∧ trace w2 = trace w1 ++ t.
Proof.
  destruct (event_notification_acknowledged SampleHttp.hmac SampleHttp.parseJson
              Sample.canParse Sample.downNetwork Sample.inTurn 5 Sample.idX
              (SampleHttp.request "POST" "/" SampleHttp.notificationBody) SampleHttp.env
              (mkWorld Sample.oneSubscriber []) "s3cret")
    as (_ & Hposted & _); [reflexivity..|].
  destruct (Hposted (JsonValue ∅ (Some [Sample.firstEvent])))
    as (task & Hrun & Hends); [reflexivity|discriminate|reflexivity|discriminate|].
  exists task. split; [exact Hrun|]. apply Hends. simpl. lia.
Defined.
(** * Further properties of the registry *)









(** X15.  Get returns what ReplaceRule stored: for a bucket that has a
    record, a rule name other than [__proto__], and a map whose keys are
    UUIDs and whose objects have a [url], [setSubscriptions] returns, and
    [getSubscriptions] for the bucket and rule then returns that map, every
    property of every object included, and for each of its identifiers the
    object stored under it. *)
Theorem setSubscriptions_then_get (st : Storage) (b r : string) (rules : BucketRecord)
    (subscriptions : Rule) :
  st !! b = Some rules → b ≠ "" → r ≠ "" → r ≠ "__proto__" →
  (∀ id subscription, subscriptions !! id = Some subscription →
     uuidRegExp_test id = true ∧ is_Some (subscription !! "url")) →
  ∃ st',
    setSubscriptions b r subscriptions st = (Returned tt, st') ∧
    getSubscriptions (Some b) (Some r) None st'
    = (Returned (SubscriptionsOf subscriptions), st') ∧
    ∀ id subscription,
      subscriptions !! id = Some subscription →
      getSubscriptions (Some b) (Some r) (Some id) st'
      = (Returned (TheSubscription subscription), st').
Proof.
  intros Hb Hbne Hrne Hproto Hvalid.
  rewrite (setSubscriptions_valid st b r subscriptions Hvalid), Hb.
  rewrite (proj2 (String.eqb_neq _ _) Hproto).
  eexists. split; [reflexivity|].
  unfold getSubscriptions, bind, storage_get, ret.
  rewrite (falsy_Some b Hbne), (falsy_Some r Hrne). simpl.
  rewrite !lookup_insert_eq. split; [done|].
  intros id subscription Hid.
  destruct (Hvalid id subscription Hid) as [Huuid _].
  rewrite (proj2 (String.eqb_neq _ _) (uuid_nonempty id Huuid)).
  by rewrite Hid.
Qed.

Lemma setSubscriptions_then_get_witness :
  ∃ st',
    setSubscriptions "b1" "r1" {[ Sample.idY := Sample.hook "https://y.example/hook" ]}
                     Sample.oneSubscriber
    = (Returned tt, st') ∧
    getSubscriptions (Some "b1") (Some "r1") None st'
    = (Returned (SubscriptionsOf {[ Sample.idY := Sample.hook "https://y.example/hook" ]}),
       st') ∧
    ∀ id subscription,
      ({[ Sample.idY := Sample.hook "https://y.example/hook" ]} : Rule) !! id
      = Some subscription →
      getSubscriptions (Some "b1") (Some "r1") (Some id) st'
      = (Returned (TheSubscription subscription), st').
Proof.
  apply (setSubscriptions_then_get Sample.oneSubscriber "b1" "r1"
           {[ "r1" := {[ Sample.idX := Sample.hook "https://ex.com/hook" ]} ]}
           {[ Sample.idY := Sample.hook "https://y.example/hook" ]});
    [ reflexivity | discriminate | discriminate | discriminate | ].
  intros id subscription [<- <-]%lookup_singleton_Some.
  split; [reflexivity|]. unfold Sample.hook. rewrite lookup_singleton_eq. by eexists.
Defined.

(** * Deliveries that succeed *)

Lemma prune_all_fulfilled {R : Type} (stub : Stub R) (e : Event)
    (outcomes : list (string * option string * Outcome (Z * Body))) (w : World R) :
  Forall (λ o, ∃ v, o.2 = Returned v) outcomes →
  prune stub e outcomes w = Some (Returned tt, w).
Proof.
  induction 1 as [|[[id url] o] rest [v Hv] _ IH]; [done|].
  simpl in Hv. subst o. by rewrite prune_fulfilled.
Qed.

Lemma oneSubscriber_allHaveUrl : allHaveUrl Sample.oneSubscriber.
Proof.
  intros bucket rule id subscription H.
  unfold lookupSubscription, lookupRule, Sample.oneSubscriber in H.
  destruct (decide (bucket = "b1")) as [->|Hne];
    [rewrite lookup_singleton_eq in H|by rewrite lookup_singleton_ne in H].
  simpl in H.
  destruct (decide (rule = "r1")) as [->|Hne];
    [rewrite lookup_singleton_eq in H|by rewrite lookup_singleton_ne in H].
  simpl in H. apply lookup_singleton_Some in H as [_ <-].
  unfold Sample.hook. rewrite lookup_singleton_eq. by eexists.
Qed.

Section Healthy.

Variable network : string → RequestInit → World Storage → FetchResult * Storage.
Variable timing : Timing Storage.

(** Every request is answered with a status in 200-299, and no other client
    changes the registry meanwhile. *)
Hypothesis healthy :
  ∀ url options w,
    succeeded (network url options w).1 = true ∧ (network url options w).2 = remote_state w.

Variable max : JsNum.
Hypothesis positive : Js.lt 0 max = true.

Lemma fetchWithRetry_healthy (fuel : nat) (url : string) (options : RequestInit)
    (w : World Storage) :
  ∃ status body,
    fetchWithRetry network (S fuel) (Some url) options max w
    = Some (Returned (status, body),
            mkWorld (remote_state w)
                    (trace w ++ [Fetch (Some url) options;
                                 Log (PostSucceeded (Some url) status)])).
Proof.
  unfold fetchWithRetry. rewrite retryLoop_step, positive.
  unfold tbind at 1. rewrite fetch_url. cbv zeta.
  destruct (healthy url options
              (mkWorld (remote_state w) (trace w ++ [Fetch (Some url) options])))
    as [Hok Hstate].
  destruct (network url options _) as [[status body|reason] r]; simpl in *; [|done].
  rewrite Hok. subst r. exists status, body.
  unfold tbind, log, emit, tret. simpl. by rewrite <- app_assoc.
Qed.

(** The first inner loop: a line and a request for each subscriber. *)
Lemma startAll_healthy (e : Event) (subs : list (string * option string)) :
  Forall (λ s, is_Some s.2) subs →
  ∀ w : World Storage, ∃ ds t,
    startAll max e subs w
    = Some (Returned ds, mkWorld (remote_state w) (trace w ++ t)) ∧
    Forall onTrack ds ∧
    (waiting ds ≤ length subs)%nat ∧
    List.filter isCallDelete t = [] ∧
    length (List.filter isFetch t) = length subs.
Proof.
  induction 1 as [|[id url] rest [u Hu] _ IH]; intros w.
  - exists [], []. rewrite app_nil_r. by destruct w.
  - simpl in Hu. subst url. cbn [startAll].
    unfold tbind at 1. unfold log, emit. unfold tbind at 1.
    unfold attempt. rewrite positive. unfold tbind at 1, request, emit.
    unfold tret at 1. unfold tbind at 1.
    destruct (IH (mkWorld (remote_state w)
                    ((trace w ++ [Log (Posting (Some u))])
                       ++ [Fetch (Some u) (mkInit "POST" [e])])))
      as (ds & t & Hrest & Hall & Hwait & Hdel & Hfetch).
    cbn [remote_state trace] in Hrest |- *. rewrite Hrest.
    exists ((id, Some u, Waiting (AwaitingResponse 0 0)) :: ds),
      (Log (Posting (Some u)) :: Fetch (Some u) (mkInit "POST" [e]) :: t).
    unfold tret. cbn [remote_state trace]. rewrite <- !app_assoc.
    split; [done|]. split.
    { apply Forall_cons_2; [|done]. split; [by eexists|done]. }
    split.
    { change (waiting ((id, Some u, Waiting (AwaitingResponse 0 0)) :: ds))
        with (S (waiting ds)). simpl. lia. }
    split; [done|]. simpl. by rewrite Hfetch.
Qed.

Lemma outcomesOf_onTrack ds :
  Forall onTrack ds → waitingFrom 0 ds = [] →
  Forall (λ o, ∃ v, o.2 = Returned v) (outcomesOf ds).
Proof.
  intros Hall Hnone. apply waitingFrom_nil in Hnone.
  induction Hall as [|[[id u] d] rest [_ Hd] _ IH]; [constructor|].
  apply Forall_cons in Hnone as [[o Ho] Hnone]. simpl in Ho, Hd. subst d.
  destruct o as [v|err]; [|done].
  change (outcomesOf ((id, u, Settled (Returned v)) :: rest))
    with ((id, u, Returned v) :: outcomesOf rest).
  apply Forall_cons_2; [by eexists|by apply IH].
Qed.

(** [Promise.allSettled] when every answer is a 2xx: in whatever order the
    answers are looked at, every delivery is fulfilled by its first. *)
Lemma settleAll_healthy (e : Event) :
  ∀ (fuel : nat) ds w,
    Forall onTrack ds → (waiting ds ≤ fuel)%nat →
    ∃ outcomes t,
      settleAll network timing fuel max e ds w
      = Some (Returned outcomes, mkWorld (remote_state w) (trace w ++ t)) ∧
      Forall (λ o, ∃ v, o.2 = Returned v) outcomes ∧
      List.filter isCallDelete t = [] ∧
      List.filter isFetch t = [].
Proof.
  induction fuel as [|fuel IH]; intros ds w Hall Hfuel; rewrite settleAll_unfold;
    destruct (waitingFrom 0 ds) as [|first others] eqn:Hwait.
  - exists (outcomesOf ds), []. rewrite app_nil_r. split; [by destruct w|].
    split; [by apply outcomesOf_onTrack|done].
  - pose proof (pick_waiting 0 first others) as Hin. rewrite <- Hwait in Hin at 3.
    destruct (nth _ _ _) as [[k url] p].
    apply waitingFrom_lookup in Hin as (_ & id & Hlook). rewrite Nat.sub_0_r in Hlook.
    pose proof (sum_list_alter
                  (λ x : string * option string * Delivery,
                     match x.2 with Waiting _ => 1%nat | _ => 0%nat end)
                  (λ '(id, u, _), (id, u, Settled (Returned (0, Text EmptyString))))
                  ds k _ Hlook) as Hcost.
    unfold waiting in Hfuel. simpl in Hcost. lia.
  - exists (outcomesOf ds), []. rewrite app_nil_r. split; [by destruct w|].
    split; [by apply outcomesOf_onTrack|done].
  - pose proof (pick_waiting (nextUp timing w) first others) as Hin.
    rewrite <- Hwait in Hin at 3.
    destruct (nth _ _ _) as [[k url] p].
    apply waitingFrom_lookup in Hin as (_ & id & Hlook). rewrite Nat.sub_0_r in Hlook.
    pose proof (proj1 (Forall_lookup _ _) Hall k _ Hlook) as [[u Hu] Hp].
    simpl in Hu, Hp. subst url. destruct p as [i delay| |]; [|done..].
    cbn [resume]. unfold tbind at 1. unfold tbind at 1, response.
    destruct (healthy u (mkInit "POST" [e]) w) as [Hok Hstate].
    destruct (network u (mkInit "POST" [e]) w) as [[status body|reason] r];
      simpl in Hok, Hstate; [|done].
    rewrite Hok. subst r. unfold tbind at 1, log, emit. unfold tret at 1.
    set (d := Settled (Returned (status, body))).
    pose proof (sum_list_alter
                  (λ x : string * option string * Delivery,
                     match x.2 with Waiting _ => 1%nat | _ => 0%nat end)
                  (λ '(id, u, _), (id, u, d)) ds k _ Hlook) as Hcost.
    simpl in Hcost.
    destruct (IH (alter (λ '(id, u, _), (id, u, d)) k ds)
                (mkWorld (remote_state w)
                         (trace w ++ [Log (PostSucceeded (Some u) status)])))
      as (outcomes & t & Hrun & Hreturned & Hdel & Hfetch).
    + apply Forall_alter; [done|]. intros [[id' u'] d'] Hlook' [Hurl _].
      split; [exact Hurl|done].
    + unfold waiting in *. lia.
    + cbn [remote_state trace] in Hrun |- *. rewrite Hrun.
      exists outcomes, (Log (PostSucceeded (Some u) status) :: t).
      rewrite <- app_assoc. by repeat split.
Qed.

Lemma fanOut_healthy (fuel : nat) (e : Event) (subs : list (string * option string)) :
  Forall (λ s, is_Some s.2) subs →
  ∀ w, ∃ outcomes t,
    fanOut network timing (S fuel) max e subs w
    = Some (Returned outcomes, mkWorld (remote_state w) (trace w ++ t)) ∧
    Forall (λ o, ∃ v, o.2 = Returned v) outcomes ∧
    List.filter isCallDelete t = [] ∧
    length (List.filter isFetch t) = length subs.
Proof.
  intros Hsubs w. unfold fanOut, tbind.
  destruct (startAll_healthy e subs Hsubs w) as (ds & t1 & Hstart & Hall & Hwait & Hdel1 & Hf1).
  rewrite Hstart.
  destruct (settleAll_healthy e (length subs * (3 * S fuel)) ds
              (mkWorld (remote_state w) (trace w ++ t1)) Hall)
    as (outcomes & t2 & Hrun & Hreturned & Hdel2 & Hf2); [lia|].
  cbn [remote_state trace] in Hrun. rewrite Hrun.
  exists outcomes, (t1 ++ t2). rewrite app_assoc. split; [done|]. split; [done|].
  rewrite !List.filter_app, Hdel1, Hdel2, length_app, Hf1, Hf2. simpl. split; [done|lia].
Qed.

Lemma deliver_healthy (fuel : nat) (e : Event) (subs : list (string * option string)) :
  Forall (λ s, is_Some s.2) subs →
  ∀ w, ∃ t,
    deliver network timing durableObjectStub (S fuel) max e subs w
    = Some (Returned tt, mkWorld (remote_state w) (trace w ++ t)) ∧
    List.filter isCallDelete t = [] ∧
    length (List.filter isFetch t) = length subs.
Proof.
  intros Hsubs w. unfold deliver.
  assert (Hlog : ∃ l, (if (length subs =? 0)%nat
                       then log (NoSubscribers (bucketName e) (matchedRuleName e))
                       else tret tt) w
                      = Some (Returned tt, mkWorld (remote_state w) (trace w ++ l))
                      ∧ List.filter isCallDelete l = []
                      ∧ List.filter isFetch l = []).
  { destruct (length subs =? 0)%nat.
    - by exists [Log (NoSubscribers (bucketName e) (matchedRuleName e))].
    - exists []. rewrite app_nil_r. by destruct w. }
  destruct Hlog as (l & Hlog & Hldel & Hlfetch).
  unfold tbind at 1. rewrite Hlog. unfold tbind at 1.
  destruct (fanOut_healthy fuel e subs Hsubs (mkWorld (remote_state w) (trace w ++ l)))
    as (outcomes & t & Hrun & Hall & Hdel & Hfetch).
  rewrite Hrun. rewrite (prune_all_fulfilled _ _ _ _ Hall). simpl.
  exists (l ++ t). split; [by rewrite app_assoc|].
  rewrite !List.filter_app, Hldel, Hdel, Hlfetch. by split.
Qed.

Lemma handleEvent_healthy (fuel : nat) (e : Event) (st : Storage) (t0 : list Effect) :
  bucketName e ≠ "" → matchedRuleName e ≠ "" →
  allHaveUrl st →
  ∃ t,
    handleEvent network timing durableObjectStub (S fuel) max e (mkWorld st t0)
    = Some (Returned true, mkWorld st (t0 ++ t)) ∧
    List.filter isCallDelete t = [] ∧
    length (List.filter isFetch t)
    = size (default ∅ (lookupRule st (bucketName e) (matchedRuleName e))).
Proof.
  intros Hb Hr Hurls. unfold handleEvent.
  unfold tbind at 1. unfold emit. unfold tbind at 1. unfold settled, call.
  cbn [remote_state trace].
  rewrite (stub_get_rule st _ _ Hb Hr).
  destruct (lookupRule st (bucketName e) (matchedRuleName e)) as [subs|] eqn:Hrule.
  - set (w1 := mkWorld st (t0 ++ [CallGet (bucketName e) (matchedRuleName e)])).
    pose proof (entries_Permutation timing w1 (SubscriptionsOf subs)) as Hperm.
    assert (Hsubs : Forall (λ s : string * option string, is_Some s.2)
                      (entries timing w1 (SubscriptionsOf subs))).
    { rewrite Hperm. simpl. apply Forall_fmap, Forall_forall. intros [id s] Hin. simpl.
      apply elem_of_map_to_list in Hin. apply (Hurls (bucketName e) (matchedRuleName e) id).
      unfold lookupSubscription. by rewrite Hrule. }
    destruct (deliver_healthy fuel e _ Hsubs w1) as (t & Hrun & Hdel & Hfetch).
    unfold tbind. rewrite Hrun. simpl.
    exists (CallGet (bucketName e) (matchedRuleName e) :: t).
    rewrite <- app_assoc. simpl. split; [done|]. split; [done|].
    rewrite Hfetch, Hperm. simpl. by rewrite length_fmap, length_map_to_list.
  - rewrite isNotFound_acrossStub.
    destruct (deliver_healthy fuel e [] (Forall_nil_2 _)
                (mkWorld st (t0 ++ [CallGet (bucketName e) (matchedRuleName e)])))
      as (t & Hrun & Hdel & Hfetch).
    unfold tbind. rewrite Hrun. simpl.
    exists (CallGet (bucketName e) (matchedRuleName e) :: t).
    rewrite <- app_assoc. simpl. split; [done|]. split; [done|].
    rewrite Hfetch. simpl. by rewrite map_size_empty.
Qed.

Lemma handleEvents_healthy (fuel : nat) (events : list Event) (st : Storage) :
  Forall (λ e, bucketName e ≠ "" ∧ matchedRuleName e ≠ "") events →
  allHaveUrl st →
  ∀ t0, ∃ t,
    handleEvents network timing durableObjectStub (S fuel) max events (mkWorld st t0)
    = Some (Returned tt, mkWorld st (t0 ++ t)) ∧
    List.filter isCallDelete t = [] ∧
    length (List.filter isFetch t)
    = sum_list ((λ e, size (default ∅ (lookupRule st (bucketName e) (matchedRuleName e))))
                  <$> events).
Proof.
  intros Hnames Hurls. induction Hnames as [|e rest [Hb Hr] _ IH]; intros t0.
  - exists []. by rewrite app_nil_r.
  - destruct (handleEvent_healthy fuel e st t0 Hb Hr Hurls) as (t1 & Hrun & Hdel & Hfetch).
    destruct (IH (t0 ++ t1)) as (t2 & Hrest & Hdel2 & Hfetch2).
    cbn [handleEvents]. unfold tbind at 1. rewrite Hrun, Hrest.
    exists (t1 ++ t2). split; [by rewrite app_assoc|].
    rewrite !List.filter_app, Hdel, Hdel2, length_app, Hfetch, Hfetch2. by split.
Qed.

End Healthy.

(** X16.  Deliveries that succeed cost one request each and unsubscribe
    nobody: when every request is answered with a 2xx status, at least one
    attempt is admitted, every stored subscription has a [url] and no other
    client writes meanwhile, a batch of events makes exactly one request per
    subscriber of each event, never calls [deleteSubscription], and leaves
    the registry as it was, in whatever order the answers arrive. *)
Theorem healthy_network_prunes_nobody
    (network : string → RequestInit → World Storage → FetchResult * Storage)
    (timing : Timing Storage)
    (fuel : nat) (events : list Event) (env : Env) (st : Storage) (t0 : list Effect) :
  (∀ url options w,
     succeeded (network url options w).1 = true
     ∧ (network url options w).2 = remote_state w) →
  Js.lt 0 (maxFailureCountOf env) = true →
  allHaveUrl st →
  Forall (λ e, bucketName e ≠ "" ∧ matchedRuleName e ≠ "") events →
  ∃ t,
    handleEventNotifications network timing durableObjectStub (S fuel) events env
      (mkWorld st t0)
    = Some (Returned tt, mkWorld st (t0 ++ t)) ∧
    List.filter isCallDelete t = [] ∧
    length (List.filter isFetch t)
    = sum_list ((λ e, size (default ∅ (lookupRule st (bucketName e) (matchedRuleName e))))
                  <$> events).
Proof.
  intros Hhealthy Hmax Hurls Hnames.
  unfold handleEventNotifications, tbind at 1, settled, tbind at 1.
  unfold log at 1, emit at 1. cbv beta iota. cbn [remote_state trace].
  destruct (handleEvents_healthy network timing Hhealthy (maxFailureCountOf env) Hmax fuel
              events st
              Hnames Hurls (t0 ++ [Log (HandlingBatch (length events))]))
    as (t & Hrun & Hdel & Hfetch).
  rewrite Hrun. exists (Log (HandlingBatch (length events)) :: t).
  unfold tret. rewrite <- app_assoc. done.
Qed.

Lemma healthy_network_prunes_nobody_witness :
  ∃ t,
    handleEventNotifications SampleHttp.healthyNetwork Sample.inRotation durableObjectStub 1
      [Sample.firstEvent; Sample.secondEvent] (mkEnv None)
      (mkWorld Sample.oneSubscriber [])
    = Some (Returned tt, mkWorld Sample.oneSubscriber ([] ++ t)) ∧
    List.filter isCallDelete t = [] ∧
    length (List.filter isFetch t)
    = sum_list ((λ e, size (default ∅ (lookupRule Sample.oneSubscriber (bucketName e)
                                                  (matchedRuleName e))))
                  <$> [Sample.firstEvent; Sample.secondEvent]).
Proof.
  apply (healthy_network_prunes_nobody SampleHttp.healthyNetwork Sample.inRotation 0
           [Sample.firstEvent; Sample.secondEvent] (mkEnv None) Sample.oneSubscriber []).
  - intros url options w. split; reflexivity.
  - reflexivity.
  - exact oneSubscriber_allHaveUrl.
  - repeat constructor; discriminate.
Defined.

